(** * ai_bias_corpus_toolkit: the clean stage and the harvest stage

    A shallow embedding of [clean_merge.py] (the same functions are repeated
    verbatim in [harvest_and_clean.py]): [load_raw], [normalize], [dedupe],
    [maybe_extract] and the orchestration in [main] / [run_clean]; and of
    the parts of the harvest stage of [harvest_and_clean.py] (the same in
    [harvest.py]) that do not touch the network: [clamp_date],
    [clean_text], the assembly of the records of [harvest_rss] and
    [harvest_openalex], and the monthly windows of [harvest_gdelt].

    A pandas [DataFrame] is a list of column labels and a list of rows, each
    row a finite map from column label to cell; a label a row lacks reads
    as null.  The row index is not modelled: every access in the source is
    positional after [reset_index(drop=True)], which is therefore the
    identity here.  [dedupe] reads string titles, string-or-null domains
    and timestamp-or-null dates, which is what [normalize] and the title
    filter hand to it; on other cells rapidfuzz and the sort would raise,
    and that is not modelled: what [dedupe] returns is stated for tables
    of such records ([normalized]).  A Python [str] is a [string] whose
    characters are code points below 256.

    Third-party behaviour the source relies on is not part of the repository
    and is taken as a parameter of the development:
    - [token_set_ratio] : rapidfuzz's [fuzz.token_set_ratio];
    - [to_datetime]     : [pd.to_datetime(..., errors="coerce")] on a column;
    - [argsort]         : numpy's [argsort] as used by [sort_values] with the
                          default [kind="quicksort"];
    - [urlparse_netloc] : [urllib.parse.urlparse(u).netloc], which may raise;
    - [extract_text]    : the network fetch of [extract_text];
    - [read_csv]        : [pd.read_csv] on a file of the raw directory;
    - [decode_utf8], [py_str] : [bytes.decode] and [str] on a value;
    - [parse_struct], [dateparse], [isoformat], [feed_entries] : dateutil,
                          dateparser, [datetime.isoformat] and feedparser. *)

From Stdlib Require Import ZArith QArith String Ascii.
From stdpp Require Import base gmap strings list sorting.

Close Scope Q_scope.
#[local] Set Warnings "-clear-no-such-hyp,-register-all".
#[local] Set Default Proof Using "Type".
Open Scope string_scope.
Open Scope nat_scope.
Open Scope list_scope.

(** ** Exceptions and results *)

Inductive exn :=
| ValueError (msg : string)
| KeyError (key : string)
| AttributeError (msg : string)
| IndexError (msg : string).

Inductive result (A : Type) :=
| Ok (a : A)
| Raise (e : exn).
Arguments Ok {A} a.
Arguments Raise {A} e.

Definition bind {A B} (m : result A) (k : A → result B) : result B :=
  match m with
  | Ok a => k a
  | Raise e => Raise e
  end.

Notation "'let*' x ':=' m 'in' k" := (bind m (λ x, k))
  (at level 10, x name, m at level 100, k at level 200).

(** [Series.apply(f)]: element by element, the first exception aborts. *)
Fixpoint apply_raising {A B} (f : A → result B) (l : list A) : result (list B) :=
  match l with
  | [] => Ok []
  | x :: l' => let* y := f x in let* ys := apply_raising f l' in Ok (y :: ys)
  end.

(** ** Cells, rows, frames *)

Inductive cell :=
| CNull               (* None / NaN / NaT *)
| CStr (s : string)
| CInt (n : Z)
| CDate (ns : Z).     (* a Timestamp, nanoseconds since the epoch *)

#[global] Instance cell_eq_dec : EqDecision cell.
Proof. solve_decision. Defined.
#[global] Instance cell_inhabited : Inhabited cell := populate CNull.

Abbreviation row := (gmap string cell).

Record DataFrame := mkDF {
  columns : list string;
  rows : list row
}.

Definition SCHEMA : list string :=
  ["id"; "date_pub"; "type_source"; "titre"; "lien"; "langue"; "controverse";
   "secteur"; "territoire"; "acteurs"; "role_acteurs"; "rapports_pouvoir";
   "issue"; "mots_cles"; "extrait_citation"; "note_analytique";
   "source_name"; "source_type"; "source_country"].

(** [c in df.columns] *)
Definition has_col (c : string) (df : DataFrame) : bool :=
  bool_decide (c ∈ columns df).

(** [df[c]] read as a list of cells *)
Definition col (c : string) (df : DataFrame) : list cell :=
  (λ r : row, r !!! c) <$> rows df.

(** [df.empty]: no rows or no columns *)
Definition df_empty (df : DataFrame) : bool :=
  match rows df, columns df with
  | [], _ => true
  | _, [] => true
  | _, _ => false
  end.

(** [df[c] = v] for a scalar [v]: in place when the label exists, appended
    as the last column otherwise. *)
Definition setitem_scalar (c : string) (v : cell) (df : DataFrame) : DataFrame :=
  {| columns := if has_col c df then columns df else columns df ++ [c];
     rows := (λ r : row, <[c := v]> r) <$> rows df |}.

(** [df[c] = vals] for a column of values of the frame's length (every
    assignment in the source is of that kind; past the end of [vals] the
    model reads null). *)
Definition setitem (c : string) (vals : list cell) (df : DataFrame) : DataFrame :=
  {| columns := if has_col c df then columns df else columns df ++ [c];
     rows := imap (λ i (r : row), <[c := vals !!! i]> r) (rows df) |}.

(** [df.iloc[keep]], for positions within the frame *)
Definition iloc_rows (keep : list nat) (rs : list row) : list row :=
  (λ i, rs !!! i) <$> keep.

Definition iloc (keep : list nat) (df : DataFrame) : DataFrame :=
  {| columns := columns df; rows := iloc_rows keep (rows df) |}.

(** ** Python strings *)

(** [str.isspace] on the code points below 256. *)
Definition isspace (c : ascii) : bool :=
  let n := nat_of_ascii c in
  (((9 <=? n) && (n <=? 13)) || ((28 <=? n) && (n <=? 32))
   || (n =? 133) || (n =? 160))%nat.

Fixpoint lstrip_chars (l : list ascii) : list ascii :=
  match l with
  | [] => []
  | c :: l' => if isspace c then lstrip_chars l' else l
  end.

Definition rstrip_chars (l : list ascii) : list ascii :=
  reverse (lstrip_chars (reverse l)).

(** [s.strip()] *)
Definition strip (s : string) : string :=
  string_of_list_ascii (rstrip_chars (lstrip_chars (list_ascii_of_string s))).

(** Truth value of a cell, as Python's [bool(x)]. *)
Definition truthy (x : cell) : bool :=
  match x with
  | CNull => false
  | CStr s => negb (String.eqb s "")
  | CInt n => negb (n =? 0)%Z
  | CDate _ => true
  end.

Definition is_str (x : cell) : bool :=
  match x with CStr _ => true | _ => false end.

Definition is_int (x : cell) : bool :=
  match x with CInt _ => true | _ => false end.

Definition is_date (x : cell) : bool :=
  match x with CDate _ => true | _ => false end.

(** [Series.fillna("")] *)
Definition fillna_empty (x : cell) : cell :=
  match x with CNull => CStr "" | _ => x end.

(** [Series.str.strip()] on one element of an object column: a value that
    is not a string becomes NaN. *)
Definition str_strip (x : cell) : cell :=
  match x with CStr s => CStr (strip s) | _ => CNull end.

(** The [.str] accessor looks at the values of the column that are not
    null.  It is refused when there are some and all of them are numbers,
    or all of them timestamps (pandas infers a numeric or a datetime
    column).  A column with a string, a column that mixes numbers and
    timestamps (an object column inferred "mixed" or "mixed-integer") and
    a column without values are accepted.  The text of the error is that
    of pandas 2; the theorems on [normalize] state its class only. *)
Definition str_accessor (l : list cell) : result (list cell) :=
  match filter (λ x, x ≠ CNull) l with
  | [] => Ok l
  | vals =>
      if forallb is_int vals || forallb is_date vals
      then Raise (AttributeError "Can only use .str accessor with string values!")
      else Ok l
  end.

(** [df[c].fillna("").str.strip()] *)
Definition clean_str_column (l : list cell) : result (list cell) :=
  let* l' := str_accessor (fillna_empty <$> l) in Ok (str_strip <$> l').

(** [range(start, start + n)] as a column of integers *)
Definition range_cells (start n : nat) : list cell :=
  (λ i, CInt (Z.of_nat i)) <$> seq start n.

(** [df.insert(loc, column, values)]: a label the frame already has is
    refused ([allow_duplicates] is left at its default). *)
Definition insert (loc : nat) (column : string) (values : list cell)
    (df : DataFrame) : result DataFrame :=
  if has_col column df then
    Raise (ValueError ("cannot insert " +:+ column +:+ ", already exists"))
  else if negb (length values =? length (rows df))%nat then
    Raise (ValueError "Length of values does not match length of index")
  else if (length (columns df) <? loc)%nat then
    Raise (IndexError "index out of bounds")
  else
    Ok {| columns := take loc (columns df) ++ column :: drop loc (columns df);
          rows := imap (λ i (r : row), <[column := values !!! i]> r) (rows df) |}.

(** [df[cols]]: a missing label is a [KeyError].  (pandas puts every
    missing label in the error's text; the model keeps the first one, and
    no statement below depends on which.) *)
Definition getitem_cols (cols : list string) (df : DataFrame) : result DataFrame :=
  match filter (λ c, c ∉ columns df) cols with
  | [] => Ok {| columns := cols;
                rows := (λ r : row, filter (λ kv, kv.1 ∈ cols) r) <$> rows df |}
  | c :: _ => Raise (KeyError c)
  end.

(** [df.dropna(subset=["titre"])] and [.query("titre != ''")] *)
Definition dropna_titre (df : DataFrame) : DataFrame :=
  {| columns := columns df;
     rows := filter (λ r : row, r !!! "titre" ≠ CNull) (rows df) |}.

Definition query_titre_nonempty (df : DataFrame) : DataFrame :=
  {| columns := columns df;
     rows := filter (λ r : row, r !!! "titre" ≠ CStr "") (rows df) |}.

(** The loop [for c in SCHEMA: if c not in df.columns: df[c] = None] *)
Definition enforce_step (d : DataFrame) (c : string) : DataFrame :=
  if has_col c d then d else setitem_scalar c CNull d.

Definition enforce_columns (df : DataFrame) : DataFrame :=
  foldl enforce_step df SCHEMA.

(** Sort key of a row: the timestamp in [date_pub], if any. *)
Definition has_date (r : row) : bool :=
  match r !!! "date_pub" with CDate _ => true | _ => false end.

Definition date_ns (r : row) : Z :=
  match r !!! "date_pub" with CDate ns => ns | _ => 0%Z end.

(** The order [sort_values] produces: most recent first, nulls last. *)
Definition sorts_before (a b : row) : Prop :=
  match has_date a, has_date b with
  | true, true => (date_ns b ≤ date_ns a)%Z
  | true, false => True
  | false, true => False
  | false, false => True
  end.

(** A cell a text column may hold on input: a string or null. *)
Definition textual (x : cell) : bool :=
  match x with CNull | CStr _ => true | _ => false end.

(** What numpy documents of [argsort]: the indices that put the keys in
    ascending order.  With [kind="quicksort"] the relative order of equal
    keys is left unspecified. *)
Class ArgsortSpec (argsort : list Z → list nat) : Prop := {
  argsort_perm ks : argsort ks ≡ₚ seq 0 (length ks);
  argsort_sorted ks : StronglySorted Z.le ((λ i, ks !!! i) <$> argsort ks)
}.

(** A frame [dedupe] can read: the three columns it looks up exist. *)
Definition dedupe_ready (df : DataFrame) : bool :=
  has_col "date_pub" df && has_col "titre" df && has_col "domain" df.

(** A normalized record: a string title, a domain that is a string or
    null, a date that is a timestamp or null. *)
Definition normalized_row (r : row) : bool :=
  is_str (r !!! "titre")
  && match r !!! "domain" with CNull | CStr _ => true | _ => false end
  && match r !!! "date_pub" with CNull | CDate _ => true | _ => false end.

Definition normalized (df : DataFrame) : bool :=
  dedupe_ready df && forallb normalized_row (rows df).

(** Dates [sort_values] can compare: the dates that are not null are all
    strings, or all numbers, or all timestamps. *)
Definition dates_comparable (df : DataFrame) : bool :=
  let vals := filter (λ x, x ≠ CNull) (col "date_pub" df) in
  forallb is_str vals || forallb is_int vals || forallb is_date vals.

(** ** Reading the raw tables *)

(** [f.endswith(suffix)] *)
Definition endswith (f suffix : string) : bool :=
  let l := list_ascii_of_string f in
  let k := list_ascii_of_string suffix in
  bool_decide (drop (length l - length k) l = k).

(** The labels of [pd.concat(frames)]: those of every frame, each at its
    first appearance. *)
Definition union_columns (frames : list DataFrame) : list string :=
  foldl (λ acc c, if bool_decide (c ∈ acc) then acc else acc ++ [c])
    [] (frames ≫= columns).

(** [pd.concat(frames, ignore_index=True)]: the rows of the frames one
    after the other, each with the cells of its own frame's labels only,
    so that it reads null at a label its frame lacks. *)
Definition pd_concat (frames : list DataFrame) : DataFrame :=
  {| columns := union_columns frames;
     rows := frames ≫= (λ f, (λ r : row, filter (λ kv, kv.1 ∈ columns f) r)
                               <$> rows f) |}.

(** [load_raw]: [listdir] is what [os.listdir(raw_dir)] answers and
    [read_csv] is [pd.read_csv] on the file of a name in it; the first
    read that raises aborts the loop. *)
Definition load_raw (read_csv : string → result DataFrame)
    (listdir : list string) : result DataFrame :=
  let* frames :=
    apply_raising read_csv (filter (λ f, endswith f ".csv" = true) listdir) in
  match frames with
  | [] => Ok {| columns := SCHEMA; rows := [] |}
  | _ => Ok (pd_concat frames)
  end.

(** ** The harvest stage

    The parts of [harvest_and_clean.py] (the same in [harvest.py]) that
    do not touch the network: the date window, the text cleaning, the
    assembly of a feed entry into a record, and the monthly windows of the
    GDELT queries. *)

(** *** Exceptions and outcomes *)

Inductive pyexn :=
| PyTypeError (msg : string)
| PyValueError (msg : string)
| PyAttributeError (msg : string)
| PyOverflowError (msg : string).

Inductive outcome (A : Type) :=
| Returns (a : A)
| Throws (e : pyexn).
Arguments Returns {A} a.
Arguments Throws {A} e.

Definition outcome_bind {A B} (m : outcome A) (k : A → outcome B) : outcome B :=
  match m with
  | Returns a => k a
  | Throws e => Throws e
  end.

Notation "'let+' x ':=' m 'in' k" := (outcome_bind m (λ x, k))
  (at level 10, x name, m at level 100, k at level 200).

(** *** The date window *)

(** A [datetime]: its place on the time line in microseconds (the wall
    clock of a naive value, the UTC instant of an aware one) and whether it
    carries a time zone.  A [datetime] is always true as a condition. *)
Record datetime := mkDatetime {
  micros : Z;
  tz_aware : bool
}.

(** [a < b] and [a > b]: a naive and an aware value do not compare. *)
Definition dt_lt (a b : datetime) : outcome bool :=
  if Bool.eqb (tz_aware a) (tz_aware b) then Returns (micros a <? micros b)%Z
  else Throws (PyTypeError "can't compare offset-naive and offset-aware datetimes").

Definition dt_gt (a b : datetime) : outcome bool :=
  if Bool.eqb (tz_aware a) (tz_aware b) then Returns (micros b <? micros a)%Z
  else Throws (PyTypeError "can't compare offset-naive and offset-aware datetimes").

Definition clamp_date (dt : option datetime) (since until : datetime)
    : outcome (option datetime) :=
  match dt with
  | None => Returns None
  | Some d =>
      let+ early := dt_lt d since in
      if early then Returns None
      else let+ late := dt_gt d until in
           if late then Returns None else Returns (Some d)
  end.

(** *** Text cleaning *)

(** [re.sub(r'<[^>]+>', ' ', s)]: at a [<], the pattern matches when at
    least one character other than [>] follows and a [>] ends that run;
    the match is replaced by one space and the scan goes on after it.
    Otherwise the character is copied and the scan goes on at the next
    one.  [in_tag] reads the run; its flag tells whether the run has a
    character yet. *)
Fixpoint sub_tags (l : list ascii) : list ascii :=
  match l with
  | [] => []
  | c :: l' =>
      if Ascii.eqb c "<" then
        match in_tag false l' with
        | Some out => " "%char :: out
        | None => c :: sub_tags l'
        end
      else c :: sub_tags l'
  end
with in_tag (nonempty : bool) (l : list ascii) : option (list ascii) :=
  match l with
  | [] => None
  | c :: l' =>
      if Ascii.eqb c ">" then (if nonempty then Some (sub_tags l') else None)
      else in_tag true l'
  end.

(** [re.sub(r'\s+', ' ', s)]: every maximal run of whitespace becomes one
    space (a whitespace character followed by another one is dropped, the
    last of the run is replaced). *)
Fixpoint sub_spaces (l : list ascii) : list ascii :=
  match l with
  | [] => []
  | c :: l' =>
      if isspace c then
        match l' with
        | c' :: _ => if isspace c' then sub_spaces l'
                     else " "%char :: sub_spaces l'
        | [] => [" "%char]
        end
      else c :: sub_spaces l'
  end.

(** [re.sub(r'\s+', ' ', re.sub(r'<[^>]+>', ' ', s)).strip()] *)
Definition clean_str (s : string) : string :=
  strip (string_of_list_ascii
           (sub_spaces (sub_tags (list_ascii_of_string s)))).

(** Python values: [None], a string, bytes, an integer, a boolean, a
    list, a mapping read with [.get] (a dict, which holds each key once),
    and any other object, read with [getattr].  The values of a JSON answer
    are among them (numbers with a fraction are left out). *)
Inductive pyval :=
| PNone
| PStr (s : string)
| PBytes (b : list ascii)
| PNum (n : Z)
| PBool (b : bool)
| PList (items : list pyval)
| PDict (items : list (string * pyval))
| PObj (attrs : list (string * pyval)).

(** Truth value, as Python's [bool(x)]; an object is true. *)
Definition py_truthy (x : pyval) : bool :=
  match x with
  | PNone => false
  | PStr s => negb (String.eqb s "")
  | PBytes b => match b with [] => false | _ => true end
  | PNum n => negb (n =? 0)%Z
  | PBool b => b
  | PList items => match items with [] => false | _ => true end
  | PDict items => match items with [] => false | _ => true end
  | PObj _ => true
  end.

Fixpoint assoc (key : string) (items : list (string * pyval)) : option pyval :=
  match items with
  | [] => None
  | (k, v) :: items' => if String.eqb k key then Some v else assoc key items'
  end.

(** [s.get(key)], and [getattr(s, key, None)] when [s] has no [get]
    (a number, a boolean and a list have neither [get] nor the attribute). *)
Definition get_or_getattr (s : pyval) (key : string) : pyval :=
  match s with
  | PDict items => default PNone (assoc key items)
  | PObj attrs => default PNone (assoc key attrs)
  | _ => PNone
  end.

(** The loop over the keys: [extracted] is the value of the first key
    whose value is true, or that of the last key tried. *)
Fixpoint extract_first (s : pyval) (keys : list string) (extracted : pyval)
    : pyval :=
  match keys with
  | [] => extracted
  | key :: keys' =>
      let v := get_or_getattr s key in
      if py_truthy v then v else extract_first s keys' v
  end.

Definition TEXT_KEYS : list string := ["title"; "value"; "label"; "name"; "text"].

(** [a or b] on optional strings *)
Definition or_else (a b : option string) : option string :=
  match a with
  | Some s => if String.eqb s "" then b else a
  | None => b
  end.

Definition of_option (x : option string) : pyval :=
  match x with Some s => PStr s | None => PNone end.

(** A GDELT or feed record as the harvesters build it: a dict literal. *)
Abbreviation record := (list (string * pyval)).

(** The attributes of a feed entry the code reads; [None] and [PNone]
    stand for an attribute the entry lacks.  A [struct_time] is a tuple of
    nine numbers, always true as a condition. *)
Record struct_time := mkStructTime {
  tm_year : Z; tm_mon : Z; tm_mday : Z; tm_hour : Z; tm_min : Z; tm_sec : Z;
  tm_wday : Z; tm_yday : Z; tm_isdst : Z
}.

Record entry := mkEntry {
  e_published_parsed : option struct_time;
  e_updated_parsed : option struct_time;
  e_published : option string;
  e_updated : option string;
  e_link : pyval;
  e_title : pyval;
  e_summary : pyval;
  e_source : pyval;
  e_author : pyval
}.

Section HarvestModel.

(** [bytes.decode('utf-8', errors='ignore')] and [str(s)] *)
Context (decode_utf8 : list ascii → string).
Context (py_str : pyval → string).
(** [dtp.parse(time.strftime('%Y-%m-%dT%H:%M:%S', t))], [None] when it
    raises; [dateparser.parse]; [datetime.isoformat]; the entries of
    [feedparser.parse(url)]. *)
Context (parse_struct : struct_time → option datetime).
Context (dateparse : string → option datetime).
Context (isoformat : datetime → string).
Context (feed_entries : string → list entry).

Definition clean_text (s : pyval) : option string :=
  match s with
  | PNone => None
  | PStr t => Some (clean_str t)
  | PBytes b => Some (clean_str (decode_utf8 b))
  | _ =>
      let extracted := extract_first s TEXT_KEYS PNone in
      let extracted :=
        match extracted with
        | PBytes b => PStr (decode_utf8 b)
        | _ => extracted
        end in
      Some (clean_str (match extracted with PStr t => t | _ => py_str s end))
  end.

Definition iso_or_none (dt : option datetime) : pyval :=
  match dt with Some d => PStr (isoformat d) | None => PNone end.

(** The date of an entry: the first of [published_parsed] and
    [updated_parsed] that is present and parses, else what [dateparse]
    makes of a non-empty [published], else of a non-empty [updated]. *)
Definition entry_date (e : entry) : option datetime :=
  let dt :=
    match e_published_parsed e ≫= parse_struct with
    | Some d => Some d
    | None => e_updated_parsed e ≫= parse_struct
    end in
  let dt :=
    match dt, e_published e with
    | None, Some s => if String.eqb s "" then None else dateparse s
    | _, _ => dt
    end in
  match dt, e_updated e with
  | None, Some s => if String.eqb s "" then None else dateparse s
  | _, _ => dt
  end.

Definition rss_row (e : entry) (dt : option datetime) : record :=
  [("date_pub", iso_or_none dt);
   ("type_source", PStr "Presse");
   ("titre", of_option (clean_text (e_title e)));
   ("lien", e_link e);
   ("langue", PNone);
   ("mots_cles", PNone);
   ("extrait_citation", of_option (clean_text (e_summary e)));
   ("source_name",
    of_option (or_else (clean_text (e_source e)) (clean_text (e_author e))));
   ("source_type", PStr "rss");
   ("source_country", PNone)].

(** One turn of the loop over the entries: [None] is [continue]. *)
Definition rss_entry (since until : datetime) (e : entry)
    : outcome (option record) :=
  match entry_date e with
  | Some d =>
      let+ dt := clamp_date (Some d) since until in
      match dt with
      | None => Returns None
      | Some _ => Returns (Some (rss_row e dt))
      end
  | None => Returns (Some (rss_row e None))
  end.

Fixpoint rss_entries (since until : datetime) (es : list entry)
    : outcome (list record) :=
  match es with
  | [] => Returns []
  | e :: es' =>
      let+ r := rss_entry since until e in
      let+ rows := rss_entries since until es' in
      Returns (match r with Some row => row :: rows | None => rows end)
  end.

(** [harvest_rss]: the records it collects, feed after feed (it returns
    their number, and writes them when there is one). *)
Definition harvest_rss (urls : list string) (since until : datetime)
    : outcome (list record) :=
  rss_entries since until (urls ≫= feed_entries).

End HarvestModel.

(** *** The monthly windows of [harvest_gdelt] *)

(** A [datetime.date]; the valid ones run from 0001-01-01 to 9999-12-31. *)
Record date := mkDate {
  year : Z;
  month : Z;
  day : Z
}.

Definition is_leap (y : Z) : bool :=
  ((y mod 4 =? 0) && (negb (y mod 100 =? 0) || (y mod 400 =? 0)))%Z.

Definition days_in_month (y m : Z) : Z :=
  if (m =? 2)%Z then (if is_leap y then 29 else 28)%Z
  else if ((m =? 4) || (m =? 6) || (m =? 9) || (m =? 11))%Z then 30%Z
  else 31%Z.

Definition valid_date (d : date) : bool :=
  ((1 <=? year d) && (year d <=? 9999) && (1 <=? month d) && (month d <=? 12)
   && (1 <=? day d) && (day d <=? days_in_month (year d) (month d)))%Z.

(** [a <= b] and [a > b] on dates *)
Definition date_le (a b : date) : bool :=
  ((year a <? year b)
   || ((year a =? year b)
       && ((month a <? month b)
           || ((month a =? month b) && (day a <=? day b)))))%Z.

Definition date_gt (a b : date) : bool := negb (date_le a b).

(** [d.replace(day=n)], for a day the month has *)
Definition replace_day (n : Z) (d : date) : date :=
  {| year := year d; month := month d; day := n |}.

(** [d + timedelta(days=1)] and [d - timedelta(days=1)] *)
Definition tomorrow (d : date) : outcome date :=
  if (day d <? days_in_month (year d) (month d))%Z then
    Returns {| year := year d; month := month d; day := (day d + 1)%Z |}
  else if (month d <? 12)%Z then
    Returns {| year := year d; month := (month d + 1)%Z; day := 1%Z |}
  else if (year d <? 9999)%Z then
    Returns {| year := (year d + 1)%Z; month := 1%Z; day := 1%Z |}
  else Throws (PyOverflowError "date value out of range").

Definition yesterday (d : date) : outcome date :=
  if (1 <? day d)%Z then
    Returns {| year := year d; month := month d; day := (day d - 1)%Z |}
  else if (1 <? month d)%Z then
    Returns {| year := year d; month := (month d - 1)%Z;
               day := days_in_month (year d) (month d - 1) |}
  else if (1 <? year d)%Z then
    Returns {| year := (year d - 1)%Z; month := 12%Z; day := 31%Z |}
  else Throws (PyOverflowError "date value out of range").

(** [d + timedelta(days=n)] *)
Fixpoint add_days (n : nat) (d : date) : outcome date :=
  match n with
  | 0 => Returns d
  | S n' => let+ d' := tomorrow d in add_days n' d'
  end.

(** The step of [month_iter]: the first day of the next month. *)
Definition next_month (d : date) : outcome date :=
  if (month d =? 12)%Z then
    if (year d + 1 <=? 9999)%Z then
      Returns {| year := (year d + 1)%Z; month := 1%Z; day := 1%Z |}
    else Throws (PyValueError "year 10000 is out of range")
  else Returns {| year := year d; month := (month d + 1)%Z; day := 1%Z |}.

(** [list(month_iter(d1, d2))]; the [while] loop runs on fuel, [None] when
    it runs out. *)
Fixpoint month_iter (fuel : nat) (d d2 : date) : option (outcome (list date)) :=
  match fuel with
  | 0 => None
  | S fuel' =>
      if date_le d d2 then
        match next_month d with
        | Throws e => Some (Throws e)
        | Returns d' =>
            match month_iter fuel' d' d2 with
            | None => None
            | Some (Throws e) => Some (Throws e)
            | Some (Returns l) => Some (Returns (d :: l))
            end
        end
      else Some (Returns [])
  end.

(** [(mstart.replace(day=28) + Timedelta(days=4)).replace(day=1)
     - Timedelta(days=1)] *)
Definition month_end (mstart : date) : outcome date :=
  let+ d := add_days 4 (replace_day 28 mstart) in
  yesterday (replace_day 1 d).

(** The window of one month: [mstart] and [mend], cut at [end]. *)
Definition month_window (end_ mstart : date) : outcome (date * date) :=
  let+ mend := month_end mstart in
  Returns (mstart, if date_gt mend end_ then end_ else mend).

Fixpoint month_windows (end_ : date) (months : list date)
    : outcome (list (date * date)) :=
  match months with
  | [] => Returns []
  | m :: months' =>
      let+ w := month_window end_ m in
      let+ ws := month_windows end_ months' in
      Returns (w :: ws)
  end.

(** The windows [harvest_gdelt] queries, from the dates of [since] and
    [until]. *)
Definition gdelt_windows (fuel : nat) (since_date until_date : date)
    : option (outcome (list (date * date))) :=
  match month_iter fuel (replace_day 1 since_date) until_date with
  | None => None
  | Some (Throws e) => Some (Throws e)
  | Some (Returns months) => Some (month_windows until_date months)
  end.

(** *** The records of [harvest_openalex] *)

Definition type_name (x : pyval) : string :=
  match x with
  | PNone => "NoneType"
  | PStr _ => "str"
  | PBytes _ => "bytes"
  | PNum _ => "int"
  | PBool _ => "bool"
  | PList _ => "list"
  | PDict _ => "dict"
  | PObj _ => "object"
  end.

Definition no_attribute (x : pyval) (attr : string) : pyexn :=
  PyAttributeError
    ("'" +:+ type_name x +:+ "' object has no attribute '" +:+ attr +:+ "'").

(** [x.get(key, default)]: among the values of a JSON answer only an
    object, a dict, has [get]. *)
Definition dict_get (x : pyval) (key : string) (default_ : pyval)
    : outcome pyval :=
  match x with
  | PDict items => Returns (default default_ (assoc key items))
  | _ => Throws (no_attribute x "get")
  end.

(** [a or b] *)
Definition py_or (a b : pyval) : pyval := if py_truthy a then a else b.

(** [(w.get("primary_location") or {}).get("source",{}).get(key)] *)
Definition source_field (w : pyval) (key : string) : outcome pyval :=
  let+ pl := dict_get w "primary_location" PNone in
  let+ src := dict_get (py_or pl (PDict [])) "source" (PDict []) in
  dict_get src key PNone.

(** [s.split("T")[0]] *)
Fixpoint before_T (l : list ascii) : list ascii :=
  match l with
  | [] => []
  | c :: l' => if Ascii.eqb c "T" then [] else c :: before_T l'
  end.

(** The items of [x[:10]], for a value of a JSON answer.  (Slicing a dict
    is a [TypeError] up to Python 3.11.) *)
Definition first_ten (x : pyval) : outcome (list pyval) :=
  match x with
  | PList l => Returns (take 10 l)
  | PStr s =>
      Returns ((λ c, PStr (String c "")) <$> take 10 (list_ascii_of_string s))
  | PDict _ => Throws (PyTypeError "unhashable type: 'slice'")
  | _ => Throws (PyTypeError
                   ("'" +:+ type_name x +:+ "' object is not subscriptable"))
  end.

(** [[c.get("display_name") for c in cs]] *)
Fixpoint display_names (cs : list pyval) : outcome (list pyval) :=
  match cs with
  | [] => Returns []
  | c :: cs' =>
      let+ n := dict_get c "display_name" PNone in
      let+ ns := display_names cs' in
      Returns (n :: ns)
  end.

(** [",".join(names)]: every item has to be a string (the message, which
    also tells the position, is abridged). *)
Fixpoint join_comma (names : list pyval) : outcome string :=
  match names with
  | [] => Returns ""
  | PStr s :: names' =>
      let+ rest := join_comma names' in
      Returns (match names' with [] => s | _ => s +:+ "," +:+ rest end)
  | x :: _ =>
      Throws (PyTypeError
                ("expected str instance, " +:+ type_name x +:+ " found"))
  end.

(** ["Académique"], with its [é] as the code point 233 *)
Definition ACADEMIQUE : string :=
  "Acad" +:+ String (ascii_of_nat 233) "mique".

(** The record [harvest_openalex] builds of one work [w] of the answer:
    the four assignments and the dict literal, evaluated in the order of
    the source. *)
Definition openalex_row (w : pyval) : outcome record :=
  let+ title := dict_get w "title" PNone in
  let+ doi := dict_get w "doi" PNone in
  let+ link :=
    if py_truthy doi then Returns doi else source_field w "homepage_url" in
  let+ pub := dict_get w "publication_date" PNone in
  let+ date_pub :=
    if py_truthy pub then Returns pub
    else let+ indexed := dict_get w "from_indexed_date" PNone in
         match py_or indexed (PStr "") with
         | PStr s =>
             Returns (PStr (string_of_list_ascii
                              (before_T (list_ascii_of_string s))))
         | x => Throws (no_attribute x "split")
         end in
  let+ lang := dict_get w "language" PNone in
  let+ lien := if py_truthy link then Returns link else dict_get w "id" PNone in
  let+ concepts := dict_get w "concepts" (PList []) in
  let+ cs := first_ten concepts in
  let+ names := display_names cs in
  let+ mots_cles := join_comma names in
  let+ source_name := source_field w "display_name" in
  Returns [("date_pub", date_pub);
           ("type_source", PStr ACADEMIQUE);
           ("titre", title);
           ("lien", lien);
           ("langue", lang);
           ("mots_cles", PStr mots_cles);
           ("extrait_citation", PNone);
           ("source_name", source_name);
           ("source_type", PStr "openalex");
           ("source_country", PNone)].

(** The results of [clean_str], for the statements below: no [<] opens a
    tag (it is the last character, or a [>] follows at once, or none
    follows at all), and every whitespace character is a space that no
    whitespace follows. *)
Definition opens_tag (r : list ascii) : bool :=
  match r with
  | x :: r' => negb (Ascii.eqb x ">") && bool_decide (">"%char ∈ r')
  | [] => false
  end.

Fixpoint tag_free (l : list ascii) : bool :=
  match l with
  | [] => true
  | c :: r => (if Ascii.eqb c "<" then negb (opens_tag r) else true) && tag_free r
  end.

Fixpoint single_spaced (l : list ascii) : bool :=
  match l with
  | [] => true
  | c :: r =>
      (if isspace c
       then Ascii.eqb c " "
            && match r with c' :: _ => negb (isspace c') | [] => true end
       else true)
      && single_spaced r
  end.

(** The dates [harvest_rss] lets through when they compare: none, or one
    in the window. *)
Definition in_window (since until : datetime) (dt : option datetime) : bool :=
  match dt with
  | Some d => ((micros since <=? micros d) && (micros d <=? micros until))%Z
  | None => true
  end.

(** The months by number, for the statements below: the index of a
    date's month, and the first and last day of the month of an index. *)
Definition month_index (d : date) : Z := (year d * 12 + (month d - 1))%Z.

Definition month_first (i : Z) : date :=
  {| year := (i / 12)%Z; month := (i mod 12 + 1)%Z; day := 1%Z |}.

Definition month_last (i : Z) : date :=
  {| year := (i / 12)%Z; month := (i mod 12 + 1)%Z;
     day := days_in_month (i / 12) (i mod 12 + 1) |}.

(** ** Reference instances of the library parameters

    Concrete functions to run the pipeline on examples.  The theorems
    below hold for every instance of the parameters; these are used at
    concrete inputs only. *)

(** A stand-in scorer: 100 when every word of one title occurs in the
    other (rapidfuzz's token_set_ratio answers 100 there), otherwise 0;
    0 when a title has no word. *)
Definition sample_ratio (a b : string) : Q :=
  match String.words a, String.words b with
  | [], _ | _, [] => 0%Q
  | wa, wb =>
      if forallb (λ w, bool_decide (w ∈ wb)) wa
         || forallb (λ w, bool_decide (w ∈ wa)) wb
      then 100%Q else 0%Q
  end.

(** A stand-in date parser: a string of digits and dashes such as
    ["2024-03-01"] is read as the number [20240301]; anything else that
    is not a timestamp is unparsable. *)
Definition digit_of (c : ascii) : option Z :=
  let n := nat_of_ascii c in
  if ((48 <=? n) && (n <=? 57))%nat then Some (Z.of_nat (n - 48)) else None.

Fixpoint digits_value (acc : Z) (l : list ascii) : option Z :=
  match l with
  | [] => Some acc
  | c :: l' =>
      match digit_of c with
      | Some d => digits_value (10 * acc + d) l'
      | None => None
      end
  end.

Definition sample_parse_date (x : cell) : option Z :=
  match x with
  | CStr s =>
      match filter (λ c, c ≠ "-"%char) (list_ascii_of_string s) with
      | [] => None
      | l => digits_value 0 l
      end
  | CDate ns => Some ns
  | _ => None
  end.

Definition sample_to_datetime (l : list cell) : list (option Z) :=
  sample_parse_date <$> l.

(** Two sorting permutations by insertion.  Both put the keys in
    ascending order; they differ in where equal keys go. *)
Fixpoint insert_index (before : Z → Z → bool) (ks : list Z) (i : nat)
    (l : list nat) : list nat :=
  match l with
  | [] => [i]
  | j :: l' =>
      if before (ks !!! i) (ks !!! j) then i :: l
      else j :: insert_index before ks i l'
  end.

Definition insertion_argsort (before : Z → Z → bool) (ks : list Z) : list nat :=
  foldr (insert_index before ks) [] (seq 0 (length ks)).

(** Equal keys stay in index order. *)
Definition stable_argsort : list Z → list nat := insertion_argsort Z.leb.

(** The network location as [urllib.parse.urlsplit] computes it: leading
    C0 controls and spaces and all tabs and newlines are removed, a
    syntactically valid scheme is split off at the first colon, and only a
    remainder that starts with two slashes has a network location, which
    runs up to the first slash, question mark or hash; unbalanced square
    brackets in it are refused.  (The later validation of a bracketed
    host is not modelled.) *)
Definition c0_control_or_space (c : ascii) : bool := (nat_of_ascii c <=? 32)%nat.

Definition unsafe_url_byte (c : ascii) : bool :=
  let n := nat_of_ascii c in ((n =? 9) || (n =? 10) || (n =? 13))%nat.

Definition ascii_alpha (c : ascii) : bool :=
  let n := nat_of_ascii c in
  (((65 <=? n) && (n <=? 90)) || ((97 <=? n) && (n <=? 122)))%nat.

Definition scheme_char (c : ascii) : bool :=
  let n := nat_of_ascii c in
  ascii_alpha c || ((48 <=? n) && (n <=? 57))%nat
  || Ascii.eqb c "+" || Ascii.eqb c "-" || Ascii.eqb c ".".

Fixpoint span (p : ascii → bool) (l : list ascii) : list ascii * list ascii :=
  match l with
  | [] => ([], [])
  | c :: l' => if p c then let '(a, b) := span p l' in (c :: a, b) else ([], l)
  end.

Fixpoint lstrip_by (p : ascii → bool) (l : list ascii) : list ascii :=
  match l with
  | [] => []
  | c :: l' => if p c then lstrip_by p l' else l
  end.

Definition drop_scheme (url : list ascii) : list ascii :=
  match span (λ c, negb (Ascii.eqb c ":")) url with
  | (c :: pre, _ :: rest) =>
      if ascii_alpha c && forallb scheme_char (c :: pre) then rest else url
  | _ => url
  end.

Definition netloc_delimiter (c : ascii) : bool :=
  Ascii.eqb c "/" || Ascii.eqb c "?" || Ascii.eqb c "#".

Definition urlsplit_netloc (s : string) : result string :=
  let url := lstrip_by c0_control_or_space (list_ascii_of_string s) in
  let url := List.filter (λ c, negb (unsafe_url_byte c)) url in
  match drop_scheme url with
  | "/"%char :: "/"%char :: rest =>
      let netloc := (span (λ c, negb (netloc_delimiter c)) rest).1 in
      if xorb (existsb (Ascii.eqb "[") netloc) (existsb (Ascii.eqb "]") netloc)
      then Raise (ValueError "Invalid IPv6 URL")
      else Ok (string_of_list_ascii netloc)
  | _ => Ok ""
  end.

(** No page is fetched. *)
Definition sample_extract (_ : string) : cell := CNull.

(** ** Sample frames *)

Definition raw_row (date titre lien : string) : row :=
  list_to_map [("date_pub", CStr date); ("type_source", CStr "Presse");
               ("titre", CStr titre); ("lien", CStr lien)].

Definition raw_columns : list string :=
  ["date_pub"; "type_source"; "titre"; "lien"].

(** The end-to-end scenario of the specification: A and B on one site
    with near-identical titles, B more recent; C unrelated. *)
Definition scenario_raw : DataFrame :=
  {| columns := raw_columns;
     rows := [raw_row "2024-03-01" "AI bias in hiring tools" "https://x.example/a";
              raw_row "2024-03-02" "AI bias in hiring tools today" "https://x.example/b";
              raw_row "2024-02-01" "Unrelated topic" "https://y.example/c"] |}.

Definition norm_row (date : cell) (titre : string) (domain : cell) : row :=
  list_to_map [("date_pub", date); ("titre", CStr titre); ("domain", domain)].

Definition norm_columns : list string := ["date_pub"; "titre"; "domain"].

(** The same three records as normalized records. *)
Definition scenario : DataFrame :=
  {| columns := norm_columns;
     rows := [norm_row (CDate 20240301) "AI bias in hiring tools" (CStr "x.example");
              norm_row (CDate 20240302) "AI bias in hiring tools today" (CStr "x.example");
              norm_row (CDate 20240201) "Unrelated topic" (CStr "y.example")] |}.

(** The scenario's A and C with two records in between whose title is
    blank or missing. *)
Definition messy_raw : DataFrame :=
  {| columns := raw_columns;
     rows := [raw_row "2024-03-01" "AI bias in hiring tools" "https://x.example/a";
              raw_row "2024-03-05" "   " "https://x.example/blank";
              list_to_map [("date_pub", CStr "2024-03-06"); ("titre", CNull);
                           ("lien", CStr "https://x.example/none")];
              raw_row "2024-02-01" "Unrelated topic" "https://y.example/c"] |}.



(** A record whose link has no scheme and no host. *)
Definition hostless_raw : DataFrame :=
  {| columns := raw_columns;
     rows := [raw_row "2024-03-01" "Report on water policy" "example.com/page"] |}.

(** A link [urlparse] refuses: an IPv6 bracket that is not closed. *)
Definition bracket_raw : DataFrame :=
  {| columns := raw_columns;
     rows := [raw_row "2024-03-01" "Report on water policy" "http://[::1"] |}.

(** A table whose only column is [lien]. *)
Definition linkonly_raw : DataFrame :=
  {| columns := ["lien"];
     rows := [list_to_map [("lien", CStr "https://x.example/a")]] |}.

(** A table whose titles are numbers. *)
Definition numbered_raw : DataFrame :=
  {| columns := ["titre"; "lien"];
     rows := [list_to_map [("titre", CInt 1); ("lien", CStr "https://x.example/a")];
              list_to_map [("titre", CInt 2); ("lien", CStr "https://x.example/b")]] |}.

(** A table that has no [titre] column. *)
Definition untitled_raw : DataFrame :=
  {| columns := ["date_pub"; "lien"];
     rows := [list_to_map [("date_pub", CStr "2024-03-01");
                           ("lien", CStr "https://x.example/a")]] |}.

(** The frame a computation returned (empty when it raised), and the
    titles of a list of rows, for the statements at concrete inputs. *)
Definition frame_of (m : result DataFrame) : DataFrame :=
  match m with Ok d => d | Raise _ => {| columns := []; rows := [] |} end.

Definition titles (rs : list row) : list cell :=
  (λ r : row, r !!! "titre") <$> rs.

(** A raw directory with two tables and a stray file, and one without any
    table, with what [read_csv] makes of the names. *)
Definition sample_listdir : list string := ["a.csv"; "notes.txt"; "b.csv"].

Definition tableless_listdir : list string := ["notes.txt"; "DATA.CSV"].

Definition sample_read_csv (f : string) : result DataFrame :=
  if String.eqb f "a.csv" then Ok scenario_raw
  else if String.eqb f "b.csv" then Ok untitled_raw
  else Raise (ValueError "No columns to parse from file").

(** The same reader, except that it opens nothing but tables. *)
Definition strict_read_csv (f : string) : result DataFrame :=
  if endswith f ".csv" then sample_read_csv f
  else Raise (ValueError "not a table").

(** A frame that has every canonical column and the helper column. *)
Definition full_frame : DataFrame :=
  {| columns := "domain" :: SCHEMA;
     rows := [list_to_map [("id", CInt 1); ("titre", CStr "Report");
                           ("lien", CStr "https://x.example/a");
                           ("domain", CStr "x.example")];
              list_to_map [("id", CInt 2); ("titre", CStr "Linkless");
                           ("lien", CStr "")]] |}.

(** Stand-ins for the libraries of the harvest stage: bytes are read as
    they are; a [struct_time] is read as the naive day it names; a text is
    read as the number its digits spell, and counts as carrying a time
    zone when it ends in [Z]; the ISO form only tells whether there is a
    zone. *)
Definition sample_decode (b : list ascii) : string := string_of_list_ascii b.

Definition sample_str (_ : pyval) : string := "<object>".

Definition sample_parse_struct (t : struct_time) : option datetime :=
  Some {| micros := (tm_year t * 10000 + tm_mon t * 100 + tm_mday t)%Z;
          tz_aware := false |}.

Definition sample_dateparse (s : string) : option datetime :=
  match filter (λ c, is_Some (digit_of c)) (list_ascii_of_string s) with
  | [] => None
  | ds => (λ n, {| micros := n; tz_aware := endswith s "Z" |})
            <$> digits_value 0 ds
  end.

Definition sample_isoformat (d : datetime) : string :=
  if tz_aware d then "aware" else "naive".

Definition day_of (y m d : Z) : struct_time :=
  {| tm_year := y; tm_mon := m; tm_mday := d; tm_hour := 0; tm_min := 0;
     tm_sec := 0; tm_wday := 0; tm_yday := 1; tm_isdst := 0 |}.

(** A feed of three entries: one dated inside the window below, one
    without any date, one dated before the window; and a feed whose entry
    has only a textual date with a zone. *)
Definition sample_source : pyval :=
  PDict [("href", PStr "https://x.example"); ("title", PStr " Le <b>Monde</b> ")].

Definition zoned_entry : entry :=
  mkEntry None None (Some "2024-03-01Z") None
    (PStr "https://z.example/a") (PStr "Zoned") PNone PNone PNone.

Definition sample_feed (url : string) : list entry :=
  if String.eqb url "https://x.example/rss" then
    [mkEntry (Some (day_of 2024 3 1)) None None None
       (PStr "https://x.example/a") (PStr "AI <i>bias</i>  in hiring")
       PNone sample_source (PStr "A. Author");
     mkEntry None None None None
       (PStr "https://x.example/b") (PStr "Undated") PNone PNone PNone;
     mkEntry (Some (day_of 2010 1 1)) None None None
       (PStr "https://x.example/c") (PStr "Old") PNone PNone PNone]
  else if String.eqb url "https://z.example/rss" then [zoned_entry]
  else [].

Definition sample_since : datetime := {| micros := 20150501; tz_aware := false |}.
Definition sample_until : datetime := {| micros := 20251001; tz_aware := false |}.

(** The dates of a harvest from mid-January to mid-March of a leap year. *)
Definition sample_since_date : date := {| year := 2024; month := 1; day := 15 |}.
Definition sample_until_date : date := {| year := 2024; month := 3; day := 10 |}.

(** Two works of an OpenAlex answer: one with a source, one whose primary
    location has none. *)
Definition sample_work : pyval :=
  PDict [("id", PStr "https://openalex.org/W1");
         ("title", PStr "Bias in hiring");
         ("doi", PNone);
         ("publication_date", PNone);
         ("from_indexed_date", PStr "2024-03-01T10:00:00");
         ("language", PStr "en");
         ("concepts", PList [PDict [("display_name", PStr "Ethics")];
                             PDict [("display_name", PStr "Hiring")]]);
         ("primary_location",
          PDict [("source",
                  PDict [("display_name", PStr "Journal of X");
                         ("homepage_url", PStr "https://jx.example")])])].

Definition sourceless_work : pyval :=
  PDict [("id", PStr "https://openalex.org/W2");
         ("title", PStr "A preprint");
         ("doi", PStr "https://doi.org/10.1/x");
         ("publication_date", PStr "2024-03-01");
         ("primary_location", PDict [("source", PNone)])].

(** What a computation of the harvest stage returned (nothing when it
    raised). *)
Definition returned {A} (m : outcome (list A)) : list A :=
  match m with Returns l => l | Throws _ => [] end.

Section Clean.

Context (token_set_ratio : string → string → Q).
Context (to_datetime : list cell → list (option Z)).
Context (argsort : list Z → list nat).
Context (urlparse_netloc : string → result string).
Context (extract_text : string → cell).

(** *** normalize *)

Definition timestamp_cell (t : option Z) : cell :=
  match t with Some ns => CDate ns | None => CNull end.

(** [lambda u: urlparse(u).netloc if isinstance(u, str) and u else None] *)
Definition domain_of (u : cell) : result cell :=
  match u with
  | CStr s =>
      if String.eqb s "" then Ok CNull
      else let* n := urlparse_netloc s in Ok (CStr n)
  | _ => Ok CNull
  end.

(** [normalize]: the columns are completed, [titre] and [lien] cleaned,
    [date_pub] parsed, [domain] derived, in the order of the source. *)
Definition normalize (df : DataFrame) : result DataFrame :=
  let df := enforce_columns df in
  let* titre := clean_str_column (col "titre" df) in
  let df := setitem "titre" titre df in
  let* lien := clean_str_column (col "lien" df) in
  let df := setitem "lien" lien df in
  let df := setitem "date_pub"
              (timestamp_cell <$> to_datetime (col "date_pub" df)) df in
  let* domain := apply_raising domain_of (col "lien" df) in
  Ok (setitem "domain" domain df).

(** *** dedupe *)

(** [df.sort_values("date_pub", ascending=False)] on the rows, as pandas'
    [nargsort] does it: the null keys are set apart and appended in their
    original order; the other keys are reversed, ordered by [argsort], and
    the resulting order is reversed again.  This is the sort of a column
    of timestamps and nulls, which is what [normalize] leaves in
    [date_pub]; on a column of strings or numbers pandas orders by value,
    and on mixed values it raises, which is not modelled. *)
Definition sort_rows_date_desc (rs : list row) : list row :=
  let dated := filter (λ r, has_date r = true) rs in
  let nulls := filter (λ r, has_date r = false) rs in
  let dated_r := reverse dated in
  reverse (iloc_rows (argsort (date_ns <$> dated_r)) dated_r) ++ nulls.

Definition sort_values_date_pub_desc (df : DataFrame) : result DataFrame :=
  if has_col "date_pub" df then
    Ok {| columns := columns df; rows := sort_rows_date_desc (rows df) |}
  else Raise (KeyError "date_pub").

(** [fuzz.token_set_ratio(ti, tj)]; rapidfuzz answers 0 when an argument
    is None or NaN.  (On a number or a timestamp it raises [TypeError],
    which is not modelled: the titles [normalize] and the title filter
    hand over are strings.) *)
Definition title_score (ti tj : cell) : Q :=
  match ti, tj with
  | CStr a, CStr b => token_set_ratio a b
  | _, _ => 0%Q
  end.

(** [(di and dj and di==dj and score>=thresh) or (score>=98)] *)
Definition is_dup (thresh : Z) (ri rj : row) : bool :=
  let ti := ri !!! "titre" in
  let di := ri !!! "domain" in
  let dj := rj !!! "domain" in
  let score := title_score ti (rj !!! "titre") in
  (truthy di && truthy dj && bool_decide (di = dj)
   && Qle_bool (inject_Z thresh) score)
  || Qle_bool 98 score.

(** One turn of the inner loop [for j in range(i+1, len(df))]. *)
Definition inner_step (thresh : Z) (rs : list row) (i : nat)
    (seen : list bool) (j : nat) : list bool :=
  if (seen !!! j : bool) then seen
  else if is_dup thresh (rs !!! i) (rs !!! j) then <[j := true]> seen
  else seen.

Definition inner_loop (thresh : Z) (rs : list row) (i : nat)
    (seen : list bool) : list bool :=
  foldl (inner_step thresh rs i) seen (seq (S i) (length rs - S i)).

(** One turn of the outer loop [for i in range(len(df))] on [(keep, seen)]. *)
Definition outer_step (thresh : Z) (rs : list row)
    (st : list nat * list bool) (i : nat) : list nat * list bool :=
  if (st.2 !!! i : bool) then st
  else (st.1 ++ [i], inner_loop thresh rs i st.2).

(** The state of the scan after the first [k] turns of the outer loop. *)
Definition loop_upto (thresh : Z) (rs : list row) (k : nat)
    : list nat * list bool :=
  foldl (outer_step thresh rs) ([], replicate (length rs) false) (seq 0 k).

Definition dedupe_loop (thresh : Z) (rs : list row) : list nat * list bool :=
  loop_upto thresh rs (length rs).

(** [dedupe]: the sort (a missing [date_pub] is a [KeyError]), the double
    loop (whose first turn reads [titre] and [domain] with [df.at], a
    [KeyError] if the column is missing), and [df.iloc[keep].copy()]. *)
Definition dedupe (thresh : Z) (df : DataFrame) : result DataFrame :=
  let* df := sort_values_date_pub_desc df in
  if bool_decide (rows df ≠ []) && negb (has_col "titre" df) then
    Raise (KeyError "titre")
  else if bool_decide (rows df ≠ []) && negb (has_col "domain" df) then
    Raise (KeyError "domain")
  else Ok (iloc (dedupe_loop thresh (rows df)).1 df).

(** *** maybe_extract and the orchestration *)

(** [maybe_extract]: with the flag, [df["lien"]] is read first, a
    [KeyError] if the column is missing. *)
Definition maybe_extract (do_extract : bool) (df : DataFrame)
    : result DataFrame :=
  if negb do_extract then Ok df
  else if negb (has_col "lien" df) then Raise (KeyError "lien")
  else
    let texts :=
      (λ u, if truthy u
            then match u with CStr s => extract_text s | _ => CNull end
            else CNull) <$> (fillna_empty <$> col "lien" df) in
    Ok (setitem "fulltext" texts df).

(** [run_clean] ([main] in clean_merge.py): [None] stands for the early
    exit on an empty input, where nothing is written. *)
Definition run_clean (do_extract : bool) (df : DataFrame)
    : result (option DataFrame) :=
  if df_empty df then Ok None
  else
    let* df := normalize df in
    let df := query_titre_nonempty (dropna_titre df) in
    let* df := dedupe 90 df in
    let* df := insert 0 "id" (range_cells 1 (length (rows df))) df in
    let* df := maybe_extract do_extract df in
    let cols := SCHEMA ++ (if has_col "fulltext" df then ["fulltext"] else []) in
    let* df := getitem_cols cols df in
    Ok (Some df).

(** The clean stage from the directory: [load_raw], then the steps of
    [run_clean]. *)
Definition clean_from_dir (read_csv : string → result DataFrame)
    (listdir : list string) (do_extract : bool) : result (option DataFrame) :=
  let* df := load_raw read_csv listdir in run_clean do_extract df.

(** *** The state of the scan, for the statements below *)

(** The two components of the scan state after [k] turns. *)
Definition keep_at (thresh : Z) (rs : list row) (k : nat) : list nat :=
  (loop_upto thresh rs k).1.
Definition seen_at (thresh : Z) (rs : list row) (k : nat) : list bool :=
  (loop_upto thresh rs k).2.

(** The two components when the scan ends. *)
Definition seen_final (thresh : Z) (rs : list row) : list bool :=
  (dedupe_loop thresh rs).2.
Definition keep_final (thresh : Z) (rs : list row) : list nat :=
  (dedupe_loop thresh rs).1.

(** The rows the scan keeps, read off the sorted rows. *)
Definition scan_rows (thresh : Z) (rs : list row) : list row :=
  iloc_rows (keep_final thresh rs) rs.

(** The dated rows, most recent first. *)
Definition dated_part (rs : list row) : list row :=
  let dated_r := reverse (filter (λ r, has_date r = true) rs) in
  reverse (iloc_rows (argsort (date_ns <$> dated_r)) dated_r).

(** The absorption rule in the words of the specification: same non-empty
    domain and a score of at least [thresh], or a score of at least 98. *)
Definition dup_condition (thresh : Z) (ri rj : row) : Prop :=
  let score := title_score (ri !!! "titre") (rj !!! "titre") in
  (∃ d, d ≠ "" ∧ ri !!! "domain" = CStr d ∧ rj !!! "domain" = CStr d
        ∧ (inject_Z thresh <= score)%Q)
  ∨ (98 <= score)%Q.

(** [tauto] and [naive_solver] read any arrow in the context as an
    implication; inside the section the function parameters that the goal
    does not mention are set aside first. *)
Ltac set_aside_params :=
  repeat match goal with
         | f : _ → _ |- _ =>
             lazymatch type of f with
             | ?T => lazymatch type of T with
                     | Prop => fail
                     | _ => clear f
                     end
             end
         end.
Ltac ptauto := set_aside_params; tauto.
Ltac psolve := set_aside_params; naive_solver.


Lemma bind_Ok_inv {A B} (m : result A) (k : A → result B) (b : B) :
  bind m k = Ok b → ∃ a, m = Ok a ∧ k a = Ok b.
Proof. destruct m as [a|e]; simpl; [eauto|done]. Qed.

Lemma bind_Ok {A B} (m : result A) (k : A → result B) (a : A) :
  m = Ok a → bind m k = k a.
Proof. by intros ->. Qed.

Lemma bind_Raise {A B} (m : result A) (k : A → result B) (e : exn) :
  m = Raise e → bind m k = Raise e.
Proof. by intros ->. Qed.

(** ** Facts about lists read by position *)

Section ListFacts.

Context {A : Type} `{!Inhabited A}.

Lemma fmap_lookup_total_seq (l : list A) :
  (λ i, l !!! i) <$> seq 0 (length l) = l.
Proof.
  apply list_eq; intros i. rewrite list_lookup_fmap.
  destruct (decide (i < length l)) as [Hi|Hi].
  - rewrite lookup_seq_lt by done. simpl.
    symmetry. by apply list_lookup_lookup_total_lt.
  - rewrite lookup_seq_ge by lia. simpl.
    symmetry. apply lookup_ge_None. lia.
Qed.

Lemma fmap_lookup_total_seq_len (l : list A) n :
  length l = n → (λ i, l !!! i) <$> seq 0 n = l.
Proof. intros <-. apply fmap_lookup_total_seq. Qed.

Lemma StronglySorted_lookup_total (R : relation A) (l : list A) i j :
  StronglySorted R l → i < j < length l → R (l !!! i) (l !!! j).
Proof.
  intros HS. revert i j. induction HS as [|x l HS IH Hx]; intros i j [Hij Hj].
  - simpl in Hj. lia.
  - simpl in Hj. destruct j as [|j]; [lia|]. destruct i as [|i].
    + change (R x (l !!! j)). apply Forall_lookup_total_1; [done|lia].
    + change (R (l !!! i) (l !!! j)). apply IH. lia.
Qed.

Lemma StronglySorted_sym_Permutation (R : relation A) (l k : list A) :
  Symmetric R → l ≡ₚ k → StronglySorted R l → StronglySorted R k.
Proof.
  intros HR. induction 1 as [|x l k Hp IH|x y l|l k m _ IH1 _ IH2]; intros HS.
  - done.
  - inversion_clear HS as [|? ? HS' Hx]. constructor; [by apply IH|].
    by rewrite <- Hp.
  - inversion_clear HS as [|? ? HS' Hy].
    inversion_clear HS' as [|? ? HS'' Hx].
    inversion_clear Hy as [|? ? Hyx Hyl].
    repeat constructor; try done; by symmetry.
  - auto.
Qed.

Lemma StronglySorted_reverse (R : relation A) (l : list A) :
  StronglySorted R l → StronglySorted (flip R) (reverse l).
Proof.
  induction 1 as [|x l HS IH Hx]; [constructor|].
  rewrite reverse_cons. apply StronglySorted_app_2.
  - intros y z Hy Hz. apply list_elem_of_singleton in Hz as ->.
    rewrite elem_of_reverse in Hy. unfold flip.
    rewrite Forall_forall in Hx. by apply Hx.
  - done.
  - repeat constructor.
Qed.

End ListFacts.

Lemma StronglySorted_filter_seq (P : nat → Prop) `{!∀ i, Decision (P i)} a n b :
  a + n ≤ b →
  StronglySorted (λ i j, i < j < b ∧ P i ∧ P j) (filter P (seq a n)).
Proof.
  revert a. induction n as [|n IH]; intros a Hb; simpl; [constructor|].
  rewrite filter_cons.
  destruct (decide (P a)) as [Ha|Ha]; [|apply IH; lia].
  constructor; [apply IH; lia|].
  apply Forall_forall. intros j [Hj Hin]%list_elem_of_filter.
  apply elem_of_seq in Hin. repeat split; [lia|lia|done..].
Qed.

Lemma filter_Forall_id {A} (P : A → Prop) `{!∀ x, Decision (P x)} (l : list A) :
  Forall P l → filter P l = l.
Proof.
  induction 1 as [|x l Hx _ IH]; [done|].
  by rewrite filter_cons_True, IH.
Qed.

Lemma StronglySorted_fmap_inv {A B} (f : A → B) (R : relation B) (l : list A) :
  StronglySorted R (f <$> l) → StronglySorted (λ x y, R (f x) (f y)) l.
Proof.
  induction l as [|x l IH]; [constructor|].
  rewrite fmap_cons. inversion_clear 1 as [|? ? HS Hx].
  constructor; [by apply IH|]. by rewrite Forall_fmap in Hx.
Qed.

Lemma sublist_filter_seq_lookup {A} `{!Inhabited A} (P : nat → Prop)
    `{!∀ i, Decision (P i)} (l : list A) :
  (λ i, l !!! i) <$> filter P (seq 0 (length l)) `sublist_of` l.
Proof.
  pose proof (sublist_filter P (seq 0 (length l))) as Hs.
  apply (fmap_sublist (λ i, l !!! i)) in Hs.
  by rewrite fmap_lookup_total_seq in Hs.
Qed.

(** ** Columns of a frame *)

Lemma insert_existing loc c vals df :
  c ∈ columns df →
  insert loc c vals df
  = Raise (ValueError ("cannot insert " +:+ c +:+ ", already exists")).
Proof.
  intros Hc. unfold insert, has_col. by rewrite bool_decide_eq_true_2.
Qed.

(** On a frame without the label, [insert(0, "id", range(1, n+1))] puts
    the label first and numbers the rows from 1 in their order. *)
Lemma insert_id_fresh df :
  "id" ∉ columns df →
  ∃ out, insert 0 "id" (range_cells 1 (length (rows df))) df = Ok out
    ∧ columns out = "id" :: columns df
    ∧ col "id" out = (λ i, CInt (Z.of_nat i)) <$> seq 1 (length (rows df)).
Proof.
  intros Hc. unfold insert, has_col. rewrite bool_decide_eq_false_2 by done.
  unfold range_cells at 1. rewrite length_fmap, length_seq, Nat.eqb_refl.
  simpl. eexists. split; [done|]. split; [by rewrite drop_0|].
  unfold col; simpl. rewrite fmap_imap.
  transitivity (imap (λ i (_ : row), range_cells 1 (length (rows df)) !!! i)
                  (rows df)).
  { apply imap_ext. intros i r _. simpl. apply lookup_total_insert_eq. }
  rewrite imap_seq_0. unfold range_cells. apply fmap_lookup_total_seq_len.
  by rewrite length_fmap, length_seq.
Qed.

Lemma col_length c df : length (col c df) = length (rows df).
Proof. unfold col. by rewrite length_fmap. Qed.

Lemma col_lookup c df i r :
  rows df !! i = Some r → col c df !! i = Some (r !!! c).
Proof. intros Hr. unfold col. by rewrite list_lookup_fmap, Hr. Qed.

Lemma rows_setitem_length c vals df :
  length (rows (setitem c vals df)) = length (rows df).
Proof. apply length_imap. Qed.

Lemma col_setitem_same c vals df :
  col c (setitem c vals df) = (λ i, vals !!! i) <$> seq 0 (length (rows df)).
Proof.
  unfold col, setitem; simpl. rewrite fmap_imap, <- imap_seq_0.
  apply imap_ext. intros i r _. simpl. apply lookup_total_insert_eq.
Qed.

Lemma col_setitem_full c vals df :
  length vals = length (rows df) → col c (setitem c vals df) = vals.
Proof.
  intros Hlen. rewrite col_setitem_same, <- Hlen. apply fmap_lookup_total_seq.
Qed.

Lemma col_setitem_ne c c' vals df :
  c ≠ c' → col c' (setitem c vals df) = col c' df.
Proof.
  intros Hne. unfold col, setitem; simpl. rewrite fmap_imap.
  rewrite <- (imap_const (λ r : row, r !!! c')).
  apply imap_ext. intros i r _. simpl. by apply lookup_total_insert_ne.
Qed.

Lemma columns_setitem c vals df c' :
  c' ∈ columns (setitem c vals df) ↔ c' ∈ columns df ∨ c' = c.
Proof.
  unfold setitem, has_col; simpl. case_bool_decide as Hc.
  - split; [by left|]. by intros [?| ->].
  - rewrite elem_of_app, list_elem_of_singleton. done.
Qed.

Lemma columns_setitem_scalar c v df c' :
  c' ∈ columns (setitem_scalar c v df) ↔ c' ∈ columns df ∨ c' = c.
Proof.
  unfold setitem_scalar, has_col; simpl. case_bool_decide as Hc.
  - split; [by left|]. by intros [?| ->].
  - rewrite elem_of_app, list_elem_of_singleton. done.
Qed.

Lemma col_setitem_scalar_same c v df :
  col c (setitem_scalar c v df) = replicate (length (rows df)) v.
Proof.
  unfold col, setitem_scalar; simpl. rewrite <- list_fmap_compose.
  induction (rows df) as [|r l IH]; simpl; [done|].
  f_equal; [apply lookup_total_insert_eq | apply IH].
Qed.

Lemma col_setitem_scalar_ne c c' v df :
  c ≠ c' → col c' (setitem_scalar c v df) = col c' df.
Proof.
  intros Hne. unfold col, setitem_scalar; simpl. rewrite <- list_fmap_compose.
  apply list_fmap_ext. intros i r _. simpl. by apply lookup_total_insert_ne.
Qed.

Lemma str_accessor_ok l l' : str_accessor l = Ok l' → l' = l.
Proof.
  unfold str_accessor. destruct (filter _ l) as [|x k]; [by intros [= <-]|].
  destruct (forallb is_int (x :: k) || forallb is_date (x :: k));
    [done|by intros [= <-]].
Qed.

Lemma clean_str_column_ok l l' :
  clean_str_column l = Ok l' → l' = str_strip <$> (fillna_empty <$> l).
Proof.
  unfold clean_str_column.
  intros (k & ->%str_accessor_ok & Hk)%bind_Ok_inv. by injection Hk as <-.
Qed.

Lemma filter_fillna_empty (l : list cell) :
  filter (λ x, x ≠ CNull) (fillna_empty <$> l) = fillna_empty <$> l.
Proof.
  apply filter_Forall_id, Forall_fmap, Forall_forall.
  intros x _. simpl. by destruct x.
Qed.

Lemma forallb_fillna_empty (p : cell → bool) (l : list cell) :
  p (CStr "") = false → p CNull = false →
  l ≠ [] → forallb p (fillna_empty <$> l) = forallb p l.
Proof.
  intros Hs Hn _. induction l as [|x l IH]; [done|].
  rewrite fmap_cons. cbn [forallb]. destruct x; cbn [fillna_empty].
  - by rewrite Hs, Hn.
  - destruct l; [done|]. by rewrite IH.
  - destruct l; [done|]. by rewrite IH.
  - destruct l; [done|]. by rewrite IH.
Qed.

(** [df[c].fillna("").str.strip()] is refused exactly on a column that
    holds values, all of them numbers or all of them timestamps. *)
Lemma clean_str_column_eq l :
  clean_str_column l
  = if bool_decide (l = []) || negb (forallb is_int l || forallb is_date l)
    then Ok (str_strip <$> (fillna_empty <$> l))
    else Raise (AttributeError "Can only use .str accessor with string values!").
Proof.
  unfold clean_str_column, str_accessor. rewrite filter_fillna_empty.
  destruct l as [|x l]; [done|].
  rewrite bool_decide_eq_false_2 by done. cbn [orb].
  rewrite <- (forallb_fillna_empty is_int (x :: l)) by done.
  rewrite <- (forallb_fillna_empty is_date (x :: l)) by done.
  rewrite fmap_cons.
  by destruct (forallb is_int _ || forallb is_date _).
Qed.

Lemma apply_raising_ok {A B} (f : A → result B) l l' :
  apply_raising f l = Ok l' → Forall2 (λ x y, f x = Ok y) l l'.
Proof.
  revert l'. induction l as [|x l IH]; intros l'; simpl.
  - intros [= <-]. constructor.
  - destruct (f x) as [y|] eqn:Hx; simpl; [|done].
    destruct (apply_raising f l) as [ys|] eqn:Hl; simpl; [|done].
    intros [= <-]. constructor; [done|by apply IH].
Qed.

(** ** [strip] *)

Lemma lstrip_chars_idemp l : lstrip_chars (lstrip_chars l) = lstrip_chars l.
Proof.
  induction l as [|c l IH]; simpl; [done|].
  destruct (isspace c) eqn:Hc; [done|]. simpl. by rewrite Hc.
Qed.

Lemma lstrip_chars_app_nonspace l c k :
  isspace c = false →
  lstrip_chars (l ++ c :: k) = lstrip_chars l ++ c :: k.
Proof.
  intros Hc. induction l as [|d l IH]; simpl; [by rewrite Hc|].
  by destruct (isspace d).
Qed.

Lemma rstrip_chars_nonspace_head c l :
  isspace c = false → ∃ k, rstrip_chars (c :: l) = c :: k.
Proof.
  intros Hc. unfold rstrip_chars. rewrite reverse_cons.
  rewrite lstrip_chars_app_nonspace by done.
  rewrite reverse_app. simpl. eauto.
Qed.

Lemma rstrip_chars_idemp l : rstrip_chars (rstrip_chars l) = rstrip_chars l.
Proof.
  unfold rstrip_chars. by rewrite reverse_involutive, lstrip_chars_idemp.
Qed.

Lemma lstrip_chars_head l :
  lstrip_chars l = [] ∨ ∃ c k, lstrip_chars l = c :: k ∧ isspace c = false.
Proof.
  induction l as [|c l IH]; simpl; [by left|].
  destruct (isspace c) eqn:Hc; [done|]. right. eauto.
Qed.

Lemma strip_idemp s : strip (strip s) = strip s.
Proof.
  unfold strip. rewrite list_ascii_of_string_of_list_ascii.
  f_equal. set (l := list_ascii_of_string s).
  destruct (lstrip_chars_head l) as [->|(c & k & -> & Hc)]; [done|].
  destruct (rstrip_chars_nonspace_head c k Hc) as [k' Hk].
  rewrite Hk. simpl. rewrite Hc. rewrite <- Hk. apply rstrip_chars_idemp.
Qed.

(** ** [enforce_columns] *)

Lemma enforce_list_spec (l : list string) (df : DataFrame) :
  let df' := foldl enforce_step df l in
  length (rows df') = length (rows df)
  ∧ (∀ c, c ∈ columns df' ↔ c ∈ columns df ∨ c ∈ l)
  ∧ (∀ c, col c df'
          = if decide (c ∈ l ∧ c ∉ columns df)
            then replicate (length (rows df)) CNull else col c df).
Proof.
  revert df. induction l as [|x l IH]; intros df; cbn [foldl].
  - split; [done|]. split; [intros c; rewrite elem_of_nil; ptauto|].
    intros c. rewrite decide_False; [done|]. by intros [[]%elem_of_nil _].
  - destruct (IH (enforce_step df x)) as (Hlen & Hcols & Hcol).
    unfold enforce_step, has_col in Hlen, Hcols, Hcol |- *.
    case_bool_decide as Hx.
    + split; [done|]. split.
      * intros c. rewrite Hcols, elem_of_cons.
        split; [ptauto|]. intros [?|[->|?]]; ptauto.
      * intros c. rewrite Hcol. repeat case_decide; try done.
        -- destruct H0. split; [apply elem_of_cons; ptauto|ptauto].
        -- destruct H0 as [[->|?]%elem_of_cons ?]; [done|]. ptauto.
    + assert (length (rows (setitem_scalar x CNull df)) = length (rows df))
        as Hl by (unfold setitem_scalar; simpl; apply length_fmap).
      split; [by rewrite Hlen|]. split.
      * intros c. rewrite Hcols, columns_setitem_scalar, elem_of_cons. ptauto.
      * intros c. rewrite Hcol, Hl.
        destruct (decide (c = x)) as [->|Hne].
        -- rewrite decide_False, decide_True.
           ++ apply col_setitem_scalar_same.
           ++ split; [apply elem_of_cons; ptauto|done].
           ++ rewrite columns_setitem_scalar. ptauto.
        -- rewrite col_setitem_scalar_ne by done.
           apply decide_ext.
           rewrite columns_setitem_scalar, elem_of_cons. ptauto.
Qed.

Lemma enforce_columns_spec (df : DataFrame) :
  length (rows (enforce_columns df)) = length (rows df)
  ∧ (∀ c, c ∈ columns (enforce_columns df) ↔ c ∈ columns df ∨ c ∈ SCHEMA)
  ∧ (∀ c, col c (enforce_columns df)
          = if decide (c ∈ SCHEMA ∧ c ∉ columns df)
            then replicate (length (rows df)) CNull else col c df).
Proof. exact (enforce_list_spec SCHEMA df). Qed.

Lemma filter_ext_in {A} (P Q : A → Prop) `{!∀ x, Decision (P x)}
    `{!∀ x, Decision (Q x)} (l : list A) :
  (∀ x, x ∈ l → P x ↔ Q x) → filter P l = filter Q l.
Proof.
  induction l as [|x l IH]; intros Hl; [done|].
  rewrite !filter_cons.
  rewrite IH by (intros y Hy; apply Hl, elem_of_cons; by right).
  assert (P x ↔ Q x) as Hx by (apply Hl, elem_of_cons; by left).
  repeat case_decide; done || ptauto.
Qed.

(** The order of the labels: those of the input, then the missing ones in
    the order of the list. *)
Lemma enforce_list_columns (l : list string) (df : DataFrame) :
  NoDup l →
  columns (foldl enforce_step df l)
  = columns df ++ filter (λ c, c ∉ columns df) l.
Proof.
  intros Hnd. revert df.
  induction Hnd as [|x l Hx Hnd IH]; intros df; cbn [foldl].
  - by rewrite filter_nil, app_nil_r.
  - rewrite IH. unfold enforce_step, has_col. case_bool_decide as Hin.
    + by rewrite filter_cons_False by (intros Hc; by apply Hc).
    + rewrite filter_cons_True by done. cbn [setitem_scalar columns].
      unfold has_col. rewrite bool_decide_eq_false_2 by done.
      rewrite <- app_assoc. cbn [app]. do 2 f_equal.
      apply filter_ext_in. intros c Hc.
      rewrite elem_of_app, list_elem_of_singleton.
      split; [ptauto|]. intros Hn [?| ->]; done.
Qed.

Lemma enforce_columns_order (df : DataFrame) :
  columns (enforce_columns df)
  = columns df ++ filter (λ c, c ∉ columns df) SCHEMA.
Proof.
  apply (enforce_list_columns SCHEMA df).
  apply (bool_decide_unpack _). by vm_compute.
Qed.

Lemma enforce_list_id (l : list string) (df : DataFrame) :
  (∀ c, c ∈ l → c ∈ columns df) → foldl enforce_step df l = df.
Proof.
  induction l as [|x l IH]; intros Hall; cbn [foldl]; [done|].
  unfold enforce_step at 2. unfold has_col.
  rewrite bool_decide_eq_true_2 by (apply Hall, elem_of_cons; by left).
  apply IH. intros c Hc. apply Hall, elem_of_cons. by right.
Qed.

Lemma enforce_columns_id (df : DataFrame) :
  (∀ c, c ∈ SCHEMA → c ∈ columns df) → enforce_columns df = df.
Proof. apply enforce_list_id. Qed.

#[local] Opaque enforce_columns.

Lemma schema_titre : "titre" ∈ SCHEMA.
Proof. apply (bool_decide_unpack _). by vm_compute. Qed.
Lemma schema_lien : "lien" ∈ SCHEMA.
Proof. apply (bool_decide_unpack _). by vm_compute. Qed.
Lemma schema_date_pub : "date_pub" ∈ SCHEMA.
Proof. apply (bool_decide_unpack _). by vm_compute. Qed.
Lemma schema_id : "id" ∈ SCHEMA.
Proof. apply (bool_decide_unpack _). by vm_compute. Qed.

(** ** [normalize], column by column *)

(** What [normalize] leaves in each column when it returns. *)
Lemma normalize_spec df dfn :
  normalize df = Ok dfn →
  let df0 := enforce_columns df in
  ∃ domains,
    col "titre" dfn = str_strip <$> (fillna_empty <$> col "titre" df0)
    ∧ col "lien" dfn = str_strip <$> (fillna_empty <$> col "lien" df0)
    ∧ Forall2 (λ u d, domain_of u = Ok d) (col "lien" dfn) domains
    ∧ col "domain" dfn = domains
    ∧ col "date_pub" dfn
      = (λ i, (timestamp_cell <$> to_datetime (col "date_pub" df0)) !!! i)
          <$> seq 0 (length (rows df))
    ∧ length (rows dfn) = length (rows df)
    ∧ (∀ c, c ∈ columns dfn ↔ c ∈ columns df ∨ c ∈ SCHEMA ∨ c = "domain")
    ∧ (∀ c, c ∉ ["titre"; "lien"; "date_pub"; "domain"] →
            col c dfn = col c df0).
Proof.
  intros Hn df0. unfold normalize in Hn. cbv zeta in Hn. fold df0 in Hn.
  destruct (enforce_columns_spec df) as (Hlen0 & Hcols0 & _).
  fold df0 in Hlen0, Hcols0.
  apply bind_Ok_inv in Hn as (titres & Ht & Hn).
  apply clean_str_column_ok in Ht.
  apply bind_Ok_inv in Hn as (liens & Hl & Hn).
  apply clean_str_column_ok in Hl.
  rewrite col_setitem_ne in Hl by done.
  apply bind_Ok_inv in Hn as (domains & Hd & Hn).
  apply apply_raising_ok in Hd. injection Hn as <-.
  set (df1 := setitem "titre" titres df0) in Hl, Hd |- *.
  set (df2 := setitem "lien" liens df1) in Hd |- *.
  set (dates := timestamp_cell <$> to_datetime (col "date_pub" df2)) in Hd |- *.
  set (df3 := setitem "date_pub" dates df2) in Hd |- *.
  assert (length titres = length (rows df0)) as Hlt
    by (by rewrite Ht, !length_fmap, col_length).
  assert (length liens = length (rows df0)) as Hll
    by (by rewrite Hl, !length_fmap, col_length).
  assert (col "lien" df3 = liens) as Hl3.
  { unfold df3. rewrite col_setitem_ne by done.
    unfold df2. apply col_setitem_full. unfold df1.
    by rewrite rows_setitem_length. }
  rewrite Hl3 in Hd.
  assert (length domains = length (rows df3)) as Hld.
  { apply Forall2_length in Hd. rewrite <- Hd, Hll.
    unfold df3, df2, df1. by rewrite !rows_setitem_length. }
  exists domains. split; [|split; [|split; [|split; [|split; [|split; [|split]]]]]].
  - rewrite col_setitem_ne by done. unfold df3. rewrite col_setitem_ne by done.
    unfold df2. rewrite col_setitem_ne by done. unfold df1.
    by rewrite col_setitem_full.
  - rewrite col_setitem_ne by done. by rewrite Hl3.
  - rewrite col_setitem_ne by done. by rewrite Hl3.
  - by apply col_setitem_full.
  - rewrite col_setitem_ne by done. unfold df3. rewrite col_setitem_same.
    unfold dates, df2, df1.
    rewrite !rows_setitem_length, Hlen0, !col_setitem_ne by done. done.
  - unfold df3, df2, df1. by rewrite !rows_setitem_length.
  - intros c. unfold df3, df2, df1. rewrite !columns_setitem, Hcols0.
    pose proof schema_titre. pose proof schema_lien. pose proof schema_date_pub.
    split; [intros [[[[[?|?]| ->]| ->]| ->]| ->]; ptauto | ptauto].
  - intros c Hc. rewrite !elem_of_cons in Hc.
    rewrite col_setitem_ne by (intros <-; ptauto). unfold df3.
    rewrite col_setitem_ne by (intros <-; ptauto). unfold df2.
    rewrite col_setitem_ne by (intros <-; ptauto). unfold df1.
    rewrite col_setitem_ne by (intros <-; ptauto). done.
Qed.

Lemma enforce_col_lookup c df i r0 :
  c ∈ SCHEMA → rows df !! i = Some r0 →
  col c (enforce_columns df) !! i
  = Some (if has_col c df then r0 !!! c else CNull).
Proof.
  intros Hc Hr.
  destruct (enforce_columns_spec df) as (_ & _ & Hcol). rewrite Hcol.
  unfold has_col. case_bool_decide as Hin.
  - rewrite decide_False by ptauto. by apply col_lookup.
  - rewrite decide_True by done. apply lookup_replicate_2.
    by apply lookup_lt_Some in Hr.
Qed.

Lemma timestamp_cells_lookup (l : list (option Z)) i :
  (timestamp_cell <$> l) !!! i = CNull
  ∨ ∃ ns, (timestamp_cell <$> l) !!! i = CDate ns.
Proof.
  rewrite list_lookup_total_alt, list_lookup_fmap.
  destruct (l !! i) as [[ns|]|]; simpl; eauto.
Qed.

(** What [normalize] leaves in the row at position [i]. *)
Lemma normalize_row_at df dfn i r :
  normalize df = Ok dfn → rows dfn !! i = Some r →
  ∃ r0, rows df !! i = Some r0
    ∧ r !!! "titre"
      = str_strip (fillna_empty (if has_col "titre" df then r0 !!! "titre" else CNull))
    ∧ r !!! "lien"
      = str_strip (fillna_empty (if has_col "lien" df then r0 !!! "lien" else CNull))
    ∧ domain_of (r !!! "lien") = Ok (r !!! "domain")
    ∧ (r !!! "date_pub" = CNull ∨ ∃ ns, r !!! "date_pub" = CDate ns).
Proof.
  intros Hn Hr.
  destruct (normalize_spec df dfn Hn)
    as (domains & Ht & Hl & Hd & Hdom & Hdate & Hlen & _ & _).
  assert (i < length (rows df)) as Hi
    by (rewrite <- Hlen; by apply lookup_lt_Some in Hr).
  destruct (lookup_lt_is_Some_2 (rows df) i Hi) as [r0 Hr0].
  exists r0. split; [done|].
  pose proof (col_lookup "titre" dfn i r Hr) as Hti.
  pose proof (col_lookup "lien" dfn i r Hr) as Hli.
  pose proof (col_lookup "domain" dfn i r Hr) as Hdi.
  pose proof (col_lookup "date_pub" dfn i r Hr) as Hpi.
  rewrite Ht, !list_lookup_fmap,
    (enforce_col_lookup "titre" df i r0) in Hti by (done || set_solver).
  rewrite Hl, !list_lookup_fmap,
    (enforce_col_lookup "lien" df i r0) in Hli by (done || set_solver).
  simpl in Hti, Hli. injection Hti as Hti. injection Hli as Hli.
  split; [done|]. split; [done|]. split.
  - rewrite Hdom in Hdi.
    pose proof (col_lookup "lien" dfn i r Hr) as Hli'.
    by destruct (Forall2_lookup_l _ _ _ _ _ Hd Hli') as (d & Hd1 & Hd2); simplify_eq.
  - rewrite Hdate, list_lookup_fmap, lookup_seq_lt in Hpi by done.
    simpl in Hpi. injection Hpi as <-. apply timestamp_cells_lookup.
Qed.

Lemma domain_of_cell u d :
  domain_of u = Ok d → d = CNull ∨ ∃ n, d = CStr n.
Proof.
  unfold domain_of. destruct u as [|s| |]; try (intros [= <-]; by left).
  destruct (String.eqb s ""); [intros [= <-]; by left|].
  destruct (urlparse_netloc s); simpl; [|done]. intros [= <-]. eauto.
Qed.

Lemma str_strip_cell x : str_strip x = CNull ∨ ∃ s, str_strip x = CStr (strip s).
Proof. destruct x; simpl; eauto. Qed.

(** The rows that reach [dedupe] are normalized records. *)
Lemma clean_input_normalized df dfn :
  normalize df = Ok dfn →
  normalized (query_titre_nonempty (dropna_titre dfn)) = true.
Proof.
  intros Hn. unfold normalized, dedupe_ready, has_col. simpl.
  destruct (normalize_spec df dfn Hn) as (_ & _ & _ & _ & _ & _ & _ & Hcols & _).
  rewrite !bool_decide_eq_true_2
    by (apply Hcols; unfold SCHEMA; rewrite !elem_of_cons; ptauto).
  simpl. apply forallb_forall. intros r Hr%list_elem_of_In.
  apply list_elem_of_filter in Hr as [Hne Hr].
  apply list_elem_of_filter in Hr as [Hnn Hr].
  apply list_elem_of_lookup in Hr as [i Hr].
  destruct (normalize_row_at df dfn i r Hn Hr) as (r0 & _ & Ht & _ & Hd & Hp).
  unfold normalized_row. rewrite !andb_true_iff. repeat split.
  - rewrite Ht in Hnn |- *.
    match goal with
    | |- context [str_strip ?x] =>
        destruct (str_strip_cell x) as [Hs|[s Hs]]; by rewrite Hs in Hnn |- *
    end.
  - by destruct (domain_of_cell _ _ Hd) as [->|[n ->]].
  - by destruct Hp as [->|[ns ->]].
Qed.

(** ** The greedy scan *)

Section Scan.

Variable thresh : Z.
Variable rs : list row.

Lemma inner_step_length i seen j :
  length (inner_step thresh rs i seen j) = length seen.
Proof.
  unfold inner_step. destruct (seen !!! j : bool); [done|].
  destruct (is_dup _ _ _); [apply length_insert | done].
Qed.

Lemma inner_fold_length i l seen :
  length (foldl (inner_step thresh rs i) seen l) = length seen.
Proof.
  revert seen. induction l as [|j l IH]; intros seen; simpl; [done|].
  by rewrite IH, inner_step_length.
Qed.

Lemma inner_step_lookup i seen a j :
  a < length seen →
  inner_step thresh rs i seen a !!! j
  = (seen !!! j : bool) || (bool_decide (j = a) && is_dup thresh (rs !!! i) (rs !!! j)).
Proof.
  intros Ha. unfold inner_step.
  destruct (seen !!! a : bool) eqn:Hsa.
  - case_bool_decide as Hj; subst; simpl.
    + by rewrite Hsa.
    + by rewrite orb_false_r.
  - destruct (is_dup thresh (rs !!! i) (rs !!! a)) eqn:Hd.
    + case_bool_decide as Hj; subst; simpl.
      * rewrite list_lookup_total_insert_eq by done. by rewrite Hd, orb_true_r.
      * rewrite list_lookup_total_insert_ne by done. by rewrite orb_false_r.
    + case_bool_decide as Hj; subst; simpl.
      * by rewrite Hd, Hsa.
      * by rewrite orb_false_r.
Qed.

Lemma inner_fold_lookup i a len seen j :
  a + len ≤ length seen →
  foldl (inner_step thresh rs i) seen (seq a len) !!! j
  = (seen !!! j : bool)
    || (bool_decide (a ≤ j < a + len) && is_dup thresh (rs !!! i) (rs !!! j)).
Proof.
  revert a seen. induction len as [|len IH]; intros a seen Hlen; simpl.
  - rewrite bool_decide_eq_false_2 by lia. by rewrite orb_false_r.
  - rewrite IH by (rewrite inner_step_length; lia).
    rewrite inner_step_lookup by lia.
    rewrite <- orb_assoc. f_equal.
    repeat case_bool_decide; simpl; try lia; try done.
    by rewrite orb_false_r.
Qed.

Lemma inner_loop_length i seen :
  length (inner_loop thresh rs i seen) = length seen.
Proof. apply inner_fold_length. Qed.

Lemma inner_loop_lookup i seen j :
  length seen = length rs → j < length rs →
  inner_loop thresh rs i seen !!! j
  = (seen !!! j : bool)
    || (bool_decide (i < j) && is_dup thresh (rs !!! i) (rs !!! j)).
Proof.
  intros Hlen Hj. unfold inner_loop.
  destruct (decide (i < length rs)) as [Hi|Hi].
  - rewrite inner_fold_lookup by lia.
    f_equal. f_equal. apply bool_decide_ext. lia.
  - replace (length rs - S i) with 0 by lia. simpl.
    rewrite bool_decide_eq_false_2 by lia. by rewrite orb_false_r.
Qed.

Lemma loop_upto_S k :
  loop_upto thresh rs (S k) = outer_step thresh rs (loop_upto thresh rs k) k.
Proof. unfold loop_upto. by rewrite seq_S, foldl_snoc. Qed.

Lemma seen_at_0 : seen_at thresh rs 0 = replicate (length rs) false.
Proof. done. Qed.

Lemma seen_at_S k :
  seen_at thresh rs (S k)
  = if (seen_at thresh rs k !!! k : bool) then seen_at thresh rs k
    else inner_loop thresh rs k (seen_at thresh rs k).
Proof.
  unfold seen_at. rewrite loop_upto_S. unfold outer_step.
  by destruct ((loop_upto thresh rs k).2 !!! k : bool).
Qed.

Lemma keep_at_S k :
  keep_at thresh rs (S k)
  = if (seen_at thresh rs k !!! k : bool) then keep_at thresh rs k else keep_at thresh rs k ++ [k].
Proof.
  unfold keep_at, seen_at. rewrite loop_upto_S. unfold outer_step.
  by destruct ((loop_upto thresh rs k).2 !!! k : bool).
Qed.

Lemma seen_at_length k : length (seen_at thresh rs k) = length rs.
Proof.
  induction k as [|k IH].
  - by rewrite seen_at_0, length_replicate.
  - rewrite seen_at_S. destruct (seen_at thresh rs k !!! k : bool); [done|].
    by rewrite inner_loop_length.
Qed.

(** What one turn of the outer loop does to the flag of [j]. *)
Lemma seen_at_S_lookup k j :
  j < length rs →
  seen_at thresh rs (S k) !!! j
  = (seen_at thresh rs k !!! j : bool)
    || (negb (seen_at thresh rs k !!! k) && bool_decide (k < j)
        && is_dup thresh (rs !!! k) (rs !!! j)).
Proof.
  intros Hj. rewrite seen_at_S.
  destruct (seen_at thresh rs k !!! k : bool) eqn:Hk; simpl.
  - by rewrite orb_false_r.
  - by rewrite inner_loop_lookup by (done || apply seen_at_length).
Qed.

(** The flag of [j] is final once the outer loop has reached [j]. *)
Lemma seen_at_stable j k :
  j < length rs → j ≤ k → seen_at thresh rs k !!! j = seen_at thresh rs j !!! j.
Proof.
  intros Hj. induction 1 as [|k Hle IH]; [done|].
  rewrite seen_at_S_lookup by done.
  rewrite (bool_decide_eq_false_2 (k < j)) by lia.
  by rewrite andb_false_r, orb_false_r.
Qed.

Lemma seen_at_mono j k :
  j < length rs → seen_at thresh rs k !!! j = true → seen_at thresh rs (S k) !!! j = true.
Proof. intros Hj Hs. rewrite seen_at_S_lookup by done. by rewrite Hs. Qed.

Lemma seen_final_at j :
  j < length rs → seen_final thresh rs !!! j = seen_at thresh rs j !!! j.
Proof. intros Hj. apply (seen_at_stable j (length rs)); lia. Qed.

Lemma keep_at_filter k :
  k ≤ length rs →
  keep_at thresh rs k = filter (λ i, seen_final thresh rs !!! i = false) (seq 0 k).
Proof.
  induction k as [|k IH]; intros Hk; [done|].
  rewrite keep_at_S, seq_S, filter_app, <- IH by lia. simpl.
  rewrite <- seen_final_at by lia.
  destruct (seen_final thresh rs !!! k : bool) eqn:Hs.
  - rewrite filter_cons_False by (by rewrite Hs). simpl. by rewrite app_nil_r.
  - by rewrite filter_cons_True by done.
Qed.

Lemma keep_final_filter :
  keep_final thresh rs = filter (λ i, seen_final thresh rs !!! i = false) (seq 0 (length rs)).
Proof. by apply keep_at_filter. Qed.

(** A record is flagged exactly when an earlier unflagged record is a
    duplicate of it. *)
Lemma seen_at_spec k j :
  j < length rs →
  seen_at thresh rs k !!! j = true
  ↔ ∃ i, i < k ∧ i < j ∧ seen_at thresh rs i !!! i = false
         ∧ is_dup thresh (rs !!! i) (rs !!! j) = true.
Proof.
  intros Hj. induction k as [|k IH].
  - rewrite seen_at_0, lookup_total_replicate_2 by done.
    split; [done|]. intros (i & ? & _). lia.
  - rewrite seen_at_S_lookup by done.
    rewrite orb_true_iff, !andb_true_iff, negb_true_iff, bool_decide_eq_true, IH.
    split.
    + intros [(i & ? & ?)|[[? ?] ?]]; [exists i; split; [lia|done]|].
      exists k. split; [lia|done].
    + intros (i & Hik & Hij & Hi & Hd).
      destruct (decide (i = k)) as [->|]; [by right|].
      left. exists i. split; [lia|done].
Qed.

Lemma seen_final_spec j :
  j < length rs →
  seen_final thresh rs !!! j = true
  ↔ ∃ i, i < j ∧ seen_final thresh rs !!! i = false
         ∧ is_dup thresh (rs !!! i) (rs !!! j) = true.
Proof.
  intros Hj. rewrite seen_final_at, seen_at_spec by done.
  split.
  - intros (i & _ & Hij & Hi & Hd). exists i.
    by rewrite seen_final_at by lia.
  - intros (i & Hij & Hi & Hd). exists i.
    rewrite seen_final_at in Hi by lia. done.
Qed.

Lemma scan_rows_sublist : scan_rows thresh rs `sublist_of` rs.
Proof.
  unfold scan_rows. rewrite keep_final_filter. apply sublist_filter_seq_lookup.
Qed.

(** No kept record is a duplicate of an earlier kept record. *)
Lemma scan_rows_pairwise :
  StronglySorted (λ a b, is_dup thresh a b = false) (scan_rows thresh rs).
Proof.
  unfold scan_rows, iloc_rows. rewrite keep_final_filter.
  eapply StronglySorted_fmap;
    [|apply (StronglySorted_filter_seq _ 0 (length rs) (length rs)); lia].
  intros i j ([Hij Hj] & Hi & Hsj); simpl in Hi, Hsj |- *.
  destruct (is_dup thresh (rs !!! i) (rs !!! j)) eqn:Hd; [|done].
  assert (seen_final thresh rs !!! j = true) as Hs; [|congruence].
  apply seen_final_spec; [done|]. by exists i.
Qed.

(** On rows none of which duplicates an earlier one, the scan flags
    nothing and keeps everything. *)
Lemma scan_nothing_to_absorb :
  StronglySorted (λ a b, is_dup thresh a b = false) rs →
  (∀ j, j < length rs → seen_final thresh rs !!! j = false)
  ∧ scan_rows thresh rs = rs.
Proof.
  intros HS.
  assert (∀ j, j < length rs → seen_final thresh rs !!! j = false) as Hnone.
  { intros j Hj. destruct (seen_final thresh rs !!! j : bool) eqn:Hs; [|done].
    apply seen_final_spec in Hs as (i & Hij & _ & Hd); [|done].
    pose proof (StronglySorted_lookup_total _ rs i j HS) as Hnd.
    simpl in Hnd. rewrite Hnd in Hd by lia. done. }
  split; [done|].
  unfold scan_rows, iloc_rows. rewrite keep_final_filter.
  rewrite filter_Forall_id; [apply fmap_lookup_total_seq|].
  apply Forall_forall. intros j Hj%elem_of_seq. apply Hnone. lia.
Qed.

End Scan.

(** ** The initial sort *)

Section Sorting.

Lemma iloc_rows_Permutation idx (l : list row) :
  idx ≡ₚ seq 0 (length l) → iloc_rows idx l ≡ₚ l.
Proof.
  intros Hp. unfold iloc_rows. rewrite Hp. by rewrite fmap_lookup_total_seq.
Qed.

Lemma sort_rows_split rs :
  sort_rows_date_desc rs
  = dated_part rs ++ filter (λ r, has_date r = false) rs.
Proof. done. Qed.

Lemma dated_part_Permutation `{!ArgsortSpec argsort} rs :
  dated_part rs ≡ₚ filter (λ r, has_date r = true) rs.
Proof.
  unfold dated_part. rewrite reverse_Permutation.
  rewrite iloc_rows_Permutation; [apply reverse_Permutation|].
  rewrite argsort_perm. by rewrite length_fmap.
Qed.

Lemma sort_rows_Permutation `{!ArgsortSpec argsort} rs : sort_rows_date_desc rs ≡ₚ rs.
Proof.
  rewrite sort_rows_split, dated_part_Permutation.
  rewrite (list_filter_iff (λ r, has_date r = false)
            (λ r, ¬ has_date r = true)).
  - apply filter_app_complement.
  - intros r. destruct (has_date r); psolve.
Qed.

Lemma dated_part_dated `{!ArgsortSpec argsort} rs : Forall (λ r, has_date r = true) (dated_part rs).
Proof.
  rewrite dated_part_Permutation.
  apply Forall_forall. by intros r [? _]%list_elem_of_filter.
Qed.

Lemma dated_part_sorted `{!ArgsortSpec argsort} rs :
  StronglySorted (λ a b, (date_ns b ≤ date_ns a)%Z) (dated_part rs).
Proof.
  unfold dated_part.
  set (l := reverse (filter (λ r, has_date r = true) rs)).
  apply (StronglySorted_reverse (λ a b, (date_ns a ≤ date_ns b)%Z)).
  apply (StronglySorted_fmap_inv date_ns Z.le).
  pose proof (argsort_sorted (date_ns <$> l)) as HS.
  replace (date_ns <$> iloc_rows (argsort (date_ns <$> l)) l)
    with ((λ i, (date_ns <$> l) !!! i) <$> argsort (date_ns <$> l)); [done|].
  unfold iloc_rows. rewrite <- list_fmap_compose.
  apply Forall_fmap_ext_1. rewrite argsort_perm.
  apply Forall_forall. intros i Hi%elem_of_seq. simpl.
  rewrite length_fmap in Hi. apply list_lookup_total_fmap. lia.
Qed.

Lemma sort_rows_length `{!ArgsortSpec argsort} rs : length (sort_rows_date_desc rs) = length rs.
Proof. by rewrite sort_rows_Permutation. Qed.

End Sorting.

(** ** [dedupe] on a frame *)

Lemma dedupe_ok thresh df :
  dedupe_ready df = true →
  dedupe thresh df
  = Ok {| columns := columns df;
          rows := scan_rows thresh (sort_rows_date_desc (rows df)) |}.
Proof.
  unfold dedupe_ready. rewrite !andb_true_iff. intros [[Hd Ht] Hm].
  unfold dedupe, sort_values_date_pub_desc. rewrite Hd. simpl.
  unfold has_col in Hd, Ht, Hm |- *. simpl. rewrite Ht, Hm. simpl.
  by rewrite !andb_false_r.
Qed.

Lemma is_dup_iff thresh ri rj :
  normalized_row ri = true → normalized_row rj = true →
  is_dup thresh ri rj = true ↔ dup_condition thresh ri rj.
Proof.
  unfold normalized_row, is_dup, dup_condition.
  rewrite !andb_true_iff. intros [[_ Hdi] _] [[_ Hdj] _].
  rewrite orb_true_iff, !andb_true_iff, !Qle_bool_iff, bool_decide_eq_true.
  destruct (ri !!! "domain") as [|a| |]; try done;
    destruct (rj !!! "domain") as [|b| |]; try done; simpl.
  - psolve.
  - psolve.
  - psolve.
  - rewrite !negb_true_iff, !String.eqb_neq. psolve.
Qed.

Lemma normalized_ready df : normalized df = true → dedupe_ready df = true.
Proof. unfold normalized. rewrite andb_true_iff. by intros [? _]. Qed.

Lemma normalized_rows_sorted `{!ArgsortSpec argsort} df :
  normalized df = true →
  Forall (λ r, normalized_row r = true) (sort_rows_date_desc (rows df)).
Proof.
  unfold normalized. rewrite andb_true_iff. intros [_ Hn].
  rewrite sort_rows_Permutation. apply Forall_forall. intros r Hr.
  rewrite forallb_forall in Hn. apply Hn. by apply list_elem_of_In.
Qed.

(** C1. In the single greedy scan of [dedupe] over the date-sorted
    normalized records, for any threshold, a later record [j] that is not
    yet absorbed when the scan stands on the not-yet-absorbed record [i] is
    absorbed in that turn if and only if both domains are the same
    non-empty string and the title score is at least the threshold, or the
    title score is at least 98.  An absorbed record is skipped: its turn
    changes nothing and it is not kept.  The output is the unabsorbed
    records, and a record ends up absorbed exactly when an earlier kept
    record satisfies the rule against it. *)
Theorem dedupe_absorbs_iff `{!ArgsortSpec argsort} (thresh : Z) (df : DataFrame) :
  normalized df = true →
  let rs := sort_rows_date_desc (rows df) in
  ∃ out, dedupe thresh df = Ok out
    ∧ rows out
      = iloc_rows (filter (λ i, seen_final thresh rs !!! i = false)
                     (seq 0 (length rs))) rs
    ∧ (∀ i j, i < j < length rs →
         seen_at thresh rs i !!! i = false →
         seen_at thresh rs i !!! j = false →
         seen_at thresh rs (S i) !!! j = true
         ↔ dup_condition thresh (rs !!! i) (rs !!! j))
    ∧ (∀ i, i < length rs → seen_at thresh rs i !!! i = true →
         loop_upto thresh rs (S i) = loop_upto thresh rs i
         ∧ i ∉ keep_final thresh rs)
    ∧ (∀ j, j < length rs →
         seen_final thresh rs !!! j = true
         ↔ ∃ i, i < j ∧ seen_final thresh rs !!! i = false
                ∧ dup_condition thresh (rs !!! i) (rs !!! j)).
Proof.
  intros Hn rs.
  pose proof (normalized_rows_sorted df Hn) as Hrows. fold rs in Hrows.
  assert (∀ i, i < length rs → normalized_row (rs !!! i) = true) as Hrow.
  { intros i Hi. by apply (Forall_lookup_total_1 _ rs i Hrows). }
  eexists. split.
  { apply dedupe_ok. unfold normalized in Hn. by apply andb_true_iff in Hn as [? _]. }
  simpl. fold rs. split; [|split; [|split]].
  - unfold scan_rows. by rewrite keep_final_filter.
  - intros i j [Hij Hj] Hi Hsj.
    rewrite seen_at_S_lookup, Hi, Hsj by done. simpl.
    rewrite bool_decide_eq_true_2 by done. simpl.
    apply is_dup_iff; apply Hrow; lia.
  - intros i Hi Hs. split.
    + rewrite loop_upto_S. unfold outer_step. fold (seen_at thresh rs i).
      by rewrite Hs.
    + rewrite keep_final_filter. intros [Hf _]%list_elem_of_filter.
      rewrite seen_final_at in Hf by done. congruence.
  - intros j Hj. rewrite seen_final_spec by done.
    split; intros (i & Hij & Hi & Hd); exists i; (split; [done|split; [done|]]).
    + apply is_dup_iff in Hd; [done|apply Hrow; lia..].
    + apply is_dup_iff; [apply Hrow; lia..|done].
Qed.

Lemma sort_rows_sorted `{!ArgsortSpec argsort} rs :
  StronglySorted sorts_before (sort_rows_date_desc rs).
Proof.
  rewrite sort_rows_split. apply StronglySorted_app_2.
  - intros a b Ha [Hb _]%list_elem_of_filter.
    pose proof (dated_part_dated rs) as Hd. rewrite Forall_forall in Hd.
    unfold sorts_before. by rewrite (Hd a Ha), Hb.
  - pose proof (dated_part_dated rs) as Hd.
    pose proof (dated_part_sorted rs) as HS.
    induction HS as [|a l HS IH Ha]; [constructor|].
    inversion_clear Hd as [|? ? Hda Hdl]. constructor; [by apply IH|].
    rewrite Forall_forall in Ha, Hdl |- *. intros b Hb.
    unfold sorts_before. rewrite Hda, (Hdl b Hb). by apply Ha.
  - induction rs as [|a l IH]; [constructor|].
    rewrite filter_cons. case_decide as Ha; [|done].
    constructor; [done|]. apply Forall_forall.
    intros b [Hb _]%list_elem_of_filter. unfold sorts_before. by rewrite Ha, Hb.
Qed.

(** C10. On a table of normalized records (string titles, dates that are
    timestamps or null), [dedupe] only removes records: its output has the
    columns of its input and its rows are a subsequence of the date-sorted
    input rows,
    namely the rows left unabsorbed by the scan, in sorted order; the
    sorted rows are a rearrangement of the input rows, so every surviving
    row is an input row with every field as it was; and every absorbed row
    has a surviving representative that precedes it and absorbed it. *)
Theorem dedupe_subsequence `{!ArgsortSpec argsort} (thresh : Z) (df : DataFrame) :
  normalized df = true →
  let rs := sort_rows_date_desc (rows df) in
  ∃ out, dedupe thresh df = Ok out
    ∧ columns out = columns df
    ∧ rs ≡ₚ rows df
    ∧ StronglySorted sorts_before rs
    ∧ rows out `sublist_of` rs
    ∧ rows out
      = iloc_rows (filter (λ i, seen_final thresh rs !!! i = false)
                     (seq 0 (length rs))) rs
    ∧ (∀ r, r ∈ rows out → r ∈ rows df)
    ∧ (∀ j, j < length rs → seen_final thresh rs !!! j = true →
         ∃ i, i < j ∧ seen_final thresh rs !!! i = false
              ∧ rs !!! i ∈ rows out
              ∧ is_dup thresh (rs !!! i) (rs !!! j) = true).
Proof.
  intros Hr%normalized_ready rs.
  eexists. split; [by apply dedupe_ok|]. simpl. fold rs.
  split; [done|]. split; [apply sort_rows_Permutation|].
  split; [apply sort_rows_sorted|].
  split; [apply scan_rows_sublist|].
  split; [unfold scan_rows; by rewrite keep_final_filter|].
  split.
  - intros r Hin.
    rewrite <- (sort_rows_Permutation (rows df)). fold rs.
    eapply elem_of_sublist; [done|apply scan_rows_sublist].
  - intros j Hj Hs. apply seen_final_spec in Hs as (i & Hij & Hi & Hd); [|done].
    exists i. repeat split; try done.
    unfold scan_rows, iloc_rows. rewrite keep_final_filter.
    apply list_elem_of_fmap. exists i. split; [done|].
    apply list_elem_of_filter. split; [done|]. apply elem_of_seq. lia.
Qed.

Lemma is_dup_comm thresh (a b : row) :
  (∀ s t, token_set_ratio s t = token_set_ratio t s) →
  is_dup thresh a b = is_dup thresh b a.
Proof.
  intros Hsym. unfold is_dup.
  assert (title_score (a !!! "titre") (b !!! "titre")
          = title_score (b !!! "titre") (a !!! "titre")) as ->.
  { unfold title_score.
    destruct (a !!! "titre"), (b !!! "titre"); done || apply Hsym. }
  rewrite (bool_decide_ext (a !!! "domain" = b !!! "domain")
             (b !!! "domain" = a !!! "domain")) by done.
  by destruct (truthy (a !!! "domain")), (truthy (b !!! "domain")).
Qed.

Lemma is_dup_sym thresh :
  (∀ s t, token_set_ratio s t = token_set_ratio t s) →
  Symmetric (λ a b : row, is_dup thresh a b = false).
Proof. intros Hsym a b. by rewrite (is_dup_comm thresh a b). Qed.

(** C4. On a table of normalized records, running [dedupe] on its own
    output absorbs nothing: the first output is again a table of normalized
    records, and the second output holds the same records as the first, for
    every threshold.  The
    second run sorts again, and numpy's default sort may reorder records
    that share a date, so the argument needs the scorer to be symmetric (as
    rapidfuzz's token_set_ratio is). *)
Theorem dedupe_idempotent `{!ArgsortSpec argsort} (thresh : Z) (df : DataFrame) :
  (∀ a b, token_set_ratio a b = token_set_ratio b a) →
  normalized df = true →
  ∃ out out2, dedupe thresh df = Ok out
    ∧ normalized out = true
    ∧ dedupe thresh out = Ok out2
    ∧ columns out2 = columns out
    ∧ rows out2 ≡ₚ rows out
    ∧ length (rows out2) = length (rows out)
    ∧ (∀ j, j < length (rows out) →
         seen_final thresh (sort_rows_date_desc (rows out)) !!! j = false).
Proof.
  intros Hsym Hn. pose proof (normalized_ready df Hn) as Hr. do 2 eexists.
  split; [by apply dedupe_ok|].
  split.
  { unfold normalized. apply andb_true_iff. split; [done|].
    apply forallb_forall. intros r Hin%list_elem_of_In. simpl in Hin.
    eapply elem_of_sublist in Hin; [|apply scan_rows_sublist].
    pose proof (normalized_rows_sorted df Hn) as Hrows.
    rewrite Forall_forall in Hrows. by apply Hrows. }
  split; [by apply dedupe_ok|]. simpl.
  set (rs := sort_rows_date_desc (rows df)).
  set (out := scan_rows thresh rs).
  assert (StronglySorted (λ a b, is_dup thresh a b = false)
            (sort_rows_date_desc out)) as HS.
  { eapply StronglySorted_sym_Permutation;
      [by apply is_dup_sym | symmetry; apply sort_rows_Permutation |].
    apply scan_rows_pairwise. }
  apply scan_nothing_to_absorb in HS as [Hnone Heq].
  rewrite Heq. split; [done|]. split; [apply sort_rows_Permutation|].
  split; [apply sort_rows_length|].
  intros j Hj. apply Hnone. by rewrite sort_rows_length.
Qed.


(** ** The clean stage *)

Lemma clean_str_column_returns l :
  Forall (λ x, textual x = true) l → ∃ l', clean_str_column l = Ok l'.
Proof.
  intros Hl. rewrite clean_str_column_eq.
  destruct l as [|x l]; [eauto|].
  inversion_clear Hl as [|? ? Hx _]. rewrite bool_decide_eq_false_2 by done.
  cbn [orb forallb]. destruct x; try done; cbn [is_int is_date andb orb negb]; eauto.
Qed.

Lemma apply_raising_returns {A B} (f : A → result B) l :
  Forall (λ x, ∃ y, f x = Ok y) l → ∃ l', apply_raising f l = Ok l'.
Proof.
  induction 1 as [|x l [y Hy] _ [l' IH]]; simpl; [eauto|].
  rewrite Hy, IH. simpl. eauto.
Qed.

Lemma enforce_col_textual c df :
  Forall (λ x, textual x = true) (col c df) →
  Forall (λ x, textual x = true) (col c (enforce_columns df)).
Proof.
  intros Hc. destruct (enforce_columns_spec df) as (_ & _ & Hcol). rewrite Hcol.
  case_decide; [|done]. by apply Forall_replicate.
Qed.

Lemma apply_raising_ok_inv {A B} (f : A → result B) l l' :
  apply_raising f l = Ok l' → Forall (λ x, ∃ y, f x = Ok y) l.
Proof.
  revert l'. induction l as [|x l IH]; intros l'; [constructor|]. simpl.
  destruct (f x) as [y|] eqn:Hy; [|done]. simpl.
  destruct (apply_raising f l) as [k|] eqn:Hk; [|done].
  constructor; eauto.
Qed.

Lemma apply_raising_Ok_iff {A B} (f : A → result B) l :
  (∃ l', apply_raising f l = Ok l') ↔ Forall (λ x, ∃ y, f x = Ok y) l.
Proof.
  split; [|apply apply_raising_returns].
  intros [l' Hl]. by eapply apply_raising_ok_inv.
Qed.

Lemma domain_of_cleaned x :
  (∃ d, domain_of (str_strip (fillna_empty x)) = Ok d)
  ↔ ∀ s, x = CStr s → strip s ≠ "" → ∃ n, urlparse_netloc (strip s) = Ok n.
Proof.
  unfold domain_of. destruct x as [|s| |]; simpl;
    try (split; [by intros _ s' ?|intros _; eauto]).
  destruct (String.eqb (strip s) "") eqn:He.
  - apply String.eqb_eq in He. split; [|intros _; eauto].
    intros _ s' [= <-] Hne. done.
  - apply String.eqb_neq in He. split.
    + intros [d Hd] s' [= <-] _.
      destruct (urlparse_netloc (strip s)) as [n|]; [eauto|done].
    + intros Hs. destruct (Hs s eq_refl He) as [n ->]. simpl. eauto.
Qed.

(** The links [normalize] parses are the table's own: a string of the
    [lien] column after the canonical columns are enforced is a string of
    the input's [lien] column. *)
Lemma enforce_lien_own df (P : string → Prop) :
  (has_col "lien" df = true → ∀ s, CStr s ∈ col "lien" df → P s) →
  ∀ s, CStr s ∈ col "lien" (enforce_columns df) → P s.
Proof.
  intros Hown s Hs. destruct (enforce_columns_spec df) as (_ & _ & Hcol).
  rewrite Hcol in Hs. case_decide as Hd.
  - apply elem_of_replicate in Hs as [? _]. done.
  - apply Hown; [|done]. unfold has_col. apply bool_decide_eq_true.
    destruct (decide ("lien" ∈ columns df)); [done|].
    destruct Hd. split; [apply schema_lien|done].
Qed.

(** [normalize] returns on an input whose titles and links are strings
    or null, provided [urlparse] accepts every link of the table that is
    not blank. *)
Lemma normalize_returns df :
  Forall (λ x, textual x = true) (col "titre" df) →
  Forall (λ x, textual x = true) (col "lien" df) →
  (has_col "lien" df = true →
   ∀ s, CStr s ∈ col "lien" df → strip s ≠ "" →
     ∃ n, urlparse_netloc (strip s) = Ok n) →
  ∃ dfn, normalize df = Ok dfn.
Proof.
  intros Ht Hl Hu. unfold normalize. cbv zeta.
  destruct (clean_str_column_returns _ (enforce_col_textual "titre" df Ht))
    as [titres Ht'].
  rewrite Ht'. cbn [bind].
  destruct (clean_str_column_returns (col "lien" (enforce_columns df)))
    as [liens Hl']; [by apply enforce_col_textual|].
  rewrite col_setitem_ne by done. rewrite Hl'. cbn [bind].
  apply clean_str_column_ok in Ht' as ->. apply clean_str_column_ok in Hl' as ->.
  rewrite col_setitem_ne by done.
  rewrite col_setitem_full
    by (by rewrite rows_setitem_length, !length_fmap, col_length).
  match goal with
  | |- ∃ _, bind (apply_raising ?f ?l) _ = _ =>
      destruct (apply_raising_returns f l) as [ds Hd]
  end.
  - rewrite <- list_fmap_compose, Forall_fmap. apply Forall_forall.
    intros x Hx. simpl. apply domain_of_cleaned. intros s -> Hne.
    by apply (enforce_lien_own df (λ s, strip s ≠ "" → _) Hu).
  - rewrite Hd. cbn [bind]. eauto.
Qed.

(** C7 (as the code has it). [normalize] returns on an input whose titles
    and links are strings or null and whose links, those that are not
    blank, [urlparse] accepts; and whenever it returns every canonical
    column is a column of the result, with one value per input row.  A
    canonical column the input lacked is filled with null in every row,
    except [titre] and [lien], which are filled with the empty string, and
    [date_pub], which holds what the date parser returns on a column of
    nulls: null in every row when the parser answers NaT on null, as
    [pd.to_datetime] does. *)
Theorem normalize_schema_complete (df : DataFrame) :
  (Forall (λ x, textual x = true) (col "titre" df) →
   Forall (λ x, textual x = true) (col "lien" df) →
   (has_col "lien" df = true →
    ∀ s, CStr s ∈ col "lien" df → strip s ≠ "" →
      ∃ n, urlparse_netloc (strip s) = Ok n) →
   ∃ dfn, normalize df = Ok dfn)
  ∧ ∀ dfn, normalize df = Ok dfn →
      (∀ c, c ∈ SCHEMA → c ∈ columns dfn)
      ∧ length (rows dfn) = length (rows df)
      ∧ (∀ c, c ∈ SCHEMA → has_col c df = false → c ≠ "date_pub" →
           col c dfn
           = replicate (length (rows df))
               (if decide (c = "titre" ∨ c = "lien") then CStr "" else CNull))
      ∧ (has_col "date_pub" df = false →
           to_datetime (replicate (length (rows df)) CNull)
           = replicate (length (rows df)) None →
           col "date_pub" dfn = replicate (length (rows df)) CNull).
Proof.
  split; [apply normalize_returns|]. intros dfn Hn.
  destruct (normalize_spec df dfn Hn)
    as (domains & Ht & Hl & _ & _ & Hdate & Hlen & Hcols & Hrest).
  split; [intros c Hc; apply Hcols; ptauto|]. split; [done|].
  destruct (enforce_columns_spec df) as (_ & _ & Hcol).
  split.
  - intros c Hc Hno Hnd.
    unfold has_col in Hno. apply bool_decide_eq_false in Hno.
    assert (col c (enforce_columns df) = replicate (length (rows df)) CNull) as H0
      by (rewrite Hcol; by rewrite decide_True).
    case_decide as Htl.
    + destruct Htl as [-> | ->].
      * rewrite Ht, H0, !fmap_replicate. done.
      * rewrite Hl, H0, !fmap_replicate. done.
    + rewrite Hrest; [done|].
      rewrite !elem_of_cons, elem_of_nil. intros [->|[->|[->|[->|[]]]]]; try ptauto.
      unfold SCHEMA in Hc. rewrite !elem_of_cons, elem_of_nil in Hc.
      repeat (destruct Hc as [Hc|Hc]; [discriminate|]). done.
  - intros Hno Hnat.
    unfold has_col in Hno. apply bool_decide_eq_false in Hno.
    rewrite Hdate, Hcol, decide_True by (split; [apply schema_date_pub|done]).
    rewrite Hnat, fmap_replicate. apply list_eq. intros i.
    rewrite list_lookup_fmap.
    destruct (decide (i < length (rows df))) as [Hi|Hi].
    + rewrite lookup_seq_lt by done. simpl.
      rewrite list_lookup_total_alt, !lookup_replicate_2 by done. done.
    + rewrite lookup_seq_ge by lia. simpl. symmetry.
      apply lookup_replicate_None. lia.
Qed.

(** C9 (as the code has it). In every row [normalize] returns, [lien] is
    a string or null; [domain] is null exactly when [lien] is the empty
    string or null; and for a non-empty [lien] the domain is the string
    [urlparse(lien).netloc], which is the empty string, not null, when the
    link has no network location. *)
Theorem domain_is_netloc (df dfn : DataFrame) (r : row) :
  normalize df = Ok dfn → r ∈ rows dfn →
  (r !!! "lien" = CNull ∨ ∃ s, r !!! "lien" = CStr s)
  ∧ (r !!! "domain" = CNull
     ↔ r !!! "lien" = CNull ∨ r !!! "lien" = CStr "")
  ∧ (∀ s, r !!! "lien" = CStr s → s ≠ "" →
       ∃ n, urlparse_netloc s = Ok n ∧ r !!! "domain" = CStr n).
Proof.
  intros Hn [i Hr]%list_elem_of_lookup.
  destruct (normalize_row_at df dfn i r Hn Hr) as (r0 & _ & _ & Hl & Hd & _).
  assert (r !!! "lien" = CNull ∨ ∃ s, r !!! "lien" = CStr s) as Hlien.
  { rewrite Hl. destruct (str_strip_cell (fillna_empty
      (if has_col "lien" df then r0 !!! "lien" else CNull))) as [->|[s ->]]; eauto. }
  split; [done|]. unfold domain_of in Hd.
  destruct Hlien as [Hnull|[s Hs]].
  - rewrite Hnull in Hd |- *. injection Hd as <-.
    split; [split; [by left|done]|]. intros s Hs. discriminate Hs.
  - rewrite Hs in Hd |- *. destruct (String.eqb s "") eqn:He.
    + apply String.eqb_eq in He. injection Hd as <-.
      split; [split; [right; by rewrite He|done]|].
      intros s' Hs' Hne. injection Hs' as <-. done.
    + apply String.eqb_neq in He.
      destruct (urlparse_netloc s) as [n|] eqn:Hu; simpl in Hd; [|done].
      injection Hd as <-. split.
      * split; [done|]. intros [Hc|Hc]; [discriminate Hc|].
        injection Hc as ->. done.
      * intros s' Hs' _. injection Hs' as <-. eauto.
Qed.

(** C6. After [normalize], the row at each position stays in the table
    handed to [dedupe] exactly when its input title is a string that does
    not trim to the empty string (a missing, null or blank title is
    dropped); every row handed to [dedupe], and every row [dedupe] returns,
    has a title that is a non-empty string and is its own trimming. *)
Theorem empty_titles_dropped `{!ArgsortSpec argsort} (df dfn : DataFrame) :
  normalize df = Ok dfn →
  let kept := query_titre_nonempty (dropna_titre dfn) in
  (∀ i r0 r, rows df !! i = Some r0 → rows dfn !! i = Some r →
     r ∈ rows kept
     ↔ ∃ s, (if has_col "titre" df then r0 !!! "titre" else CNull) = CStr s
            ∧ strip s ≠ "")
  ∧ (∀ r, r ∈ rows kept →
       ∃ s, r !!! "titre" = CStr s ∧ s ≠ "" ∧ strip s = s)
  ∧ ∃ out, dedupe 90 kept = Ok out
      ∧ ∀ r, r ∈ rows out →
          r ∈ rows kept ∧ ∃ s, r !!! "titre" = CStr s ∧ s ≠ "" ∧ strip s = s.
Proof.
  intros Hn kept.
  assert (∀ r, r ∈ rows kept ↔
            r ∈ rows dfn ∧ r !!! "titre" ≠ CNull ∧ r !!! "titre" ≠ CStr "")
    as Hkept.
  { intros r. unfold kept, query_titre_nonempty, dropna_titre. simpl.
    rewrite !list_elem_of_filter. ptauto. }
  assert (∀ r, r ∈ rows kept →
            ∃ s, r !!! "titre" = CStr s ∧ s ≠ "" ∧ strip s = s) as Htitle.
  { intros r (Hr & Hnn & Hne)%Hkept.
    apply list_elem_of_lookup in Hr as [i Hr].
    destruct (normalize_row_at df dfn i r Hn Hr) as (r0 & _ & Ht & _).
    rewrite Ht in Hnn, Hne |- *.
    match goal with
    | |- context [str_strip ?x] => destruct (str_strip_cell x) as [Hs|[s Hs]]
    end; rewrite Hs in Hnn, Hne |- *; [done|].
    exists (strip s). split; [done|]. split; [congruence|apply strip_idemp]. }
  split; [|split; [done|]].
  - intros i r0 r Hr0 Hr. rewrite Hkept.
    destruct (normalize_row_at df dfn i r Hn Hr) as (r0' & Hr0' & Ht & _).
    assert (r0' = r0) as -> by congruence. rewrite Ht.
    destruct (if has_col "titre" df then r0 !!! "titre" else CNull)
      as [|s| |]; simpl.
    + split; [intros (_ & _ & []); done|]. by intros (s & Hs & _).
    + split.
      * intros (_ & _ & Hne). exists s. split; [done|congruence].
      * intros (s' & Hs' & Hne). injection Hs' as <-.
        split; [by eapply list_elem_of_lookup_2|]. split; [done|congruence].
    + split; [intros (_ & [] & _); done|]. by intros (s & Hs & _).
    + split; [intros (_ & [] & _); done|]. by intros (s & Hs & _).
  - pose proof (clean_input_normalized df dfn Hn) as Hnorm. fold kept in Hnorm.
    unfold normalized in Hnorm. apply andb_true_iff in Hnorm as [Hready _].
    eexists. split; [by apply dedupe_ok|]. simpl. intros r Hr.
    assert (r ∈ rows kept) as Hin; [|split; [done|by apply Htitle]].
    rewrite <- (sort_rows_Permutation (rows kept)).
    eapply elem_of_sublist; [done|apply scan_rows_sublist].
Qed.

(** C2 (as the code has it). On every non-empty input the clean stage
    ends in an exception and writes nothing.  When [normalize] returns,
    its result already has an [id] column (null in every row if the input
    had none), every step up to the id assignment succeeds, and
    [df.insert(0, "id", ...)] then raises because the label already
    exists.  When [normalize] raises, its exception ends the stage and the
    id assignment is not reached. *)
Theorem id_insert_raises (do_extract : bool) (df : DataFrame) :
  df_empty df = false →
  (∃ e, run_clean do_extract df = Raise e)
  ∧ ∀ dfn, normalize df = Ok dfn →
      "id" ∈ columns dfn
      ∧ (has_col "id" df = false →
           col "id" dfn = replicate (length (rows df)) CNull)
      ∧ (∃ deduped,
           dedupe 90 (query_titre_nonempty (dropna_titre dfn)) = Ok deduped
           ∧ insert 0 "id" (range_cells 1 (length (rows deduped))) deduped
             = Raise (ValueError "cannot insert id, already exists"))
      ∧ run_clean do_extract df
        = Raise (ValueError "cannot insert id, already exists").
Proof.
  intros Hne.
  assert (∀ dfn, normalize df = Ok dfn →
      "id" ∈ columns dfn
      ∧ (has_col "id" df = false →
           col "id" dfn = replicate (length (rows df)) CNull)
      ∧ (∃ deduped,
           dedupe 90 (query_titre_nonempty (dropna_titre dfn)) = Ok deduped
           ∧ insert 0 "id" (range_cells 1 (length (rows deduped))) deduped
             = Raise (ValueError "cannot insert id, already exists"))
      ∧ run_clean do_extract df
        = Raise (ValueError "cannot insert id, already exists")) as Hmain.
  { intros dfn Hn.
    destruct (normalize_spec df dfn Hn)
      as (_ & _ & _ & _ & _ & _ & _ & Hcols & Hrest).
    assert ("id" ∈ columns dfn) as Hid
      by (apply Hcols; pose proof schema_id; ptauto).
    pose proof (clean_input_normalized df dfn Hn) as Hnorm.
    unfold normalized in Hnorm. apply andb_true_iff in Hnorm as [Hready _].
    pose proof (dedupe_ok 90 _ Hready) as Hded.
    match type of Hded with _ = Ok ?d => set (deduped := d) in Hded |- * end.
    assert (insert 0 "id" (range_cells 1 (length (rows deduped))) deduped
            = Raise (ValueError "cannot insert id, already exists")) as Hins
      by (by apply (insert_existing 0 "id")).
    split; [done|]. split; [|split; [by exists deduped|]].
    - intros Hno. rewrite Hrest by (apply (bool_decide_unpack _); by vm_compute).
      destruct (enforce_columns_spec df) as (_ & _ & Hcol). rewrite Hcol.
      rewrite decide_True; [done|]. split; [apply schema_id|].
      unfold has_col in Hno. by apply bool_decide_eq_false in Hno.
    - unfold run_clean. rewrite Hne.
      rewrite (bind_Ok _ _ _ Hn). cbv zeta.
      rewrite (bind_Ok _ _ _ Hded). by rewrite (bind_Raise _ _ _ Hins). }
  split; [|done].
  destruct (normalize df) as [dfn|e] eqn:Hn.
  - destruct (Hmain dfn eq_refl) as (_ & _ & _ & ->). eauto.
  - exists e. unfold run_clean. rewrite Hne. by rewrite (bind_Raise _ _ _ Hn).
Qed.

(** ** Further properties of the clean stage *)

Lemma foldl_ext_all {A B} (f g : A → B → A) (l : list B) (a : A) :
  (∀ a x, f a x = g a x) → foldl f a l = foldl g a l.
Proof.
  intros Hfg. revert a. induction l as [|x l IH]; intros a; simpl; [done|].
  by rewrite Hfg, IH.
Qed.

(** Every result of [dedupe] is the scan of the sorted rows. *)
Lemma dedupe_Ok_inv thresh df out :
  dedupe thresh df = Ok out →
  has_col "date_pub" df = true
  ∧ out = {| columns := columns df;
             rows := scan_rows thresh (sort_rows_date_desc (rows df)) |}.
Proof.
  unfold dedupe, sort_values_date_pub_desc.
  destruct (has_col "date_pub" df); simpl; [|done].
  destruct (bool_decide _ && negb _); [done|].
  destruct (bool_decide _ && negb _); [done|].
  by intros [= <-].
Qed.

Lemma is_dup_above_98 thresh a b :
  (98 ≤ thresh)%Z →
  is_dup thresh a b
  = Qle_bool 98 (title_score (a !!! "titre") (b !!! "titre")).
Proof.
  intros Ht. unfold is_dup. cbv zeta.
  destruct (Qle_bool 98 _) eqn:H98; [apply orb_true_r|].
  rewrite orb_false_r.
  destruct (Qle_bool (inject_Z thresh) _) eqn:Hth; [|apply andb_false_r].
  apply Qle_bool_iff in Hth.
  assert (Qle_bool 98 (title_score (a !!! "titre") (b !!! "titre")) = true)
    as Hc; [|congruence].
  apply Qle_bool_iff. eapply Qle_trans; [|exact Hth].
  change 98%Q with (inject_Z 98). by rewrite <- Zle_Qle.
Qed.

(** X1. A threshold of 98 or more makes the domain test of [dedupe]
    irrelevant: a pair is a duplicate exactly when its title score is at
    least 98, and [dedupe] gives the result it gives for 98. *)
Theorem dedupe_threshold_cap (thresh : Z) (df : DataFrame) :
  (98 ≤ thresh)%Z →
  (∀ a b : row,
     is_dup thresh a b
     = Qle_bool 98 (title_score (a !!! "titre") (b !!! "titre")))
  ∧ dedupe thresh df = dedupe 98 df.
Proof.
  intros Ht. split; [intros a b; by apply is_dup_above_98|].
  assert (∀ rs, dedupe_loop thresh rs = dedupe_loop 98 rs) as Hloop.
  { intros rs. unfold dedupe_loop, loop_upto. apply foldl_ext_all.
    intros st i. unfold outer_step, inner_loop.
    destruct (st.2 !!! i : bool); [done|]. f_equal.
    apply foldl_ext_all. intros seen j. unfold inner_step.
    by rewrite !is_dup_above_98 by lia. }
  unfold dedupe. destruct (sort_values_date_pub_desc df) as [d|e]; simpl; [|done].
  by rewrite Hloop.
Qed.

(** X2. No record [dedupe] keeps is a duplicate, under the rule of the
    scan, of a record kept before it. *)
Theorem dedupe_kept_pairwise_distinct (thresh : Z) (df out : DataFrame) :
  dedupe thresh df = Ok out →
  ∀ i j, i < j < length (rows out) →
    is_dup thresh (rows out !!! i) (rows out !!! j) = false.
Proof.
  intros [_ ->]%dedupe_Ok_inv i j Hij. simpl in Hij |- *.
  by apply (StronglySorted_lookup_total _ _ i j (scan_rows_pairwise thresh _)).
Qed.

Lemma dedupe_unfold thresh df :
  has_col "date_pub" df = true →
  let rs := sort_rows_date_desc (rows df) in
  dedupe thresh df
  = if bool_decide (rs ≠ []) && negb (has_col "titre" df)
    then Raise (KeyError "titre")
    else if bool_decide (rs ≠ []) && negb (has_col "domain" df)
         then Raise (KeyError "domain")
         else Ok {| columns := columns df; rows := scan_rows thresh rs |}.
Proof.
  intros Hd. unfold dedupe, sort_values_date_pub_desc. by rewrite Hd.
Qed.

Lemma sort_rows_nil_iff `{!ArgsortSpec argsort} rs :
  sort_rows_date_desc rs = [] ↔ rs = [].
Proof.
  split.
  - intros Hnil. apply Permutation_nil_r.
    rewrite <- (sort_rows_Permutation rs). by rewrite Hnil.
  - intros ->. apply Permutation_nil_r. apply sort_rows_Permutation.
Qed.

Lemma scan_rows_nil thresh : scan_rows thresh [] = [].
Proof. done. Qed.

(** X3. What [dedupe] does on a frame it cannot read.  Without a
    [date_pub] column the sort raises [KeyError]; with it, a frame without
    rows comes back without rows whatever its other columns; on a frame
    with rows, whose dates the sort can compare (all strings, all numbers
    or all timestamps, nulls apart), a missing [titre], then a missing
    [domain], is a [KeyError].  So when [dedupe] returns,
    [date_pub] is present and the frame has no rows or has both [titre]
    and [domain]; and on a table of normalized records it does return. *)
Theorem dedupe_missing_columns `{!ArgsortSpec argsort} (thresh : Z) (df : DataFrame) :
  (has_col "date_pub" df = false →
     dedupe thresh df = Raise (KeyError "date_pub"))
  ∧ (has_col "date_pub" df = true → rows df = [] →
       dedupe thresh df = Ok {| columns := columns df; rows := [] |})
  ∧ (has_col "date_pub" df = true → rows df ≠ [] → dates_comparable df = true →
       has_col "titre" df = false →
       dedupe thresh df = Raise (KeyError "titre"))
  ∧ (has_col "date_pub" df = true → rows df ≠ [] → dates_comparable df = true →
       has_col "titre" df = true → has_col "domain" df = false →
       dedupe thresh df = Raise (KeyError "domain"))
  ∧ ((∃ out, dedupe thresh df = Ok out) →
       has_col "date_pub" df = true
       ∧ (rows df = []
          ∨ has_col "titre" df = true ∧ has_col "domain" df = true))
  ∧ (normalized df = true → ∃ out, dedupe thresh df = Ok out).
Proof.
  assert (normalized df = true → has_col "date_pub" df = true
            ∧ has_col "titre" df = true ∧ has_col "domain" df = true) as Hcols.
  { intros Hr%normalized_ready. unfold dedupe_ready in Hr.
    by apply andb_true_iff in Hr as [[? ?]%andb_true_iff ?]. }
  destruct (has_col "date_pub" df) eqn:Hd.
  - rewrite (dedupe_unfold thresh df Hd).
    destruct (decide (rows df = [])) as [Hnil|Hne].
    + assert (sort_rows_date_desc (rows df) = []) as Hs
        by (by apply sort_rows_nil_iff).
      rewrite Hs. rewrite !bool_decide_eq_false_2 by (by intros []).
      cbn [andb]. rewrite scan_rows_nil.
      split; [done|]. split; [done|]. split; [done|]. split; [done|].
      split; [intros _; split; [done|by left]|eauto].
    + assert (sort_rows_date_desc (rows df) ≠ []) as Hs
        by (by rewrite sort_rows_nil_iff).
      rewrite !bool_decide_eq_true_2 by done. cbn [andb].
      split; [done|]. split; [done|].
      destruct (has_col "titre" df) eqn:Ht; cbn [negb].
      * destruct (has_col "domain" df) eqn:Hm; cbn [negb].
        -- split; [done|]. split; [done|].
           split; [intros _; split; [done|by right]|eauto].
        -- split; [done|]. split; [done|].
           split; [by intros [out Hout]|]. by intros (_ & _ & ?)%Hcols.
      * split; [done|]. split; [done|].
        split; [by intros [out Hout]|]. by intros (_ & ? & _)%Hcols.
  - assert (dedupe thresh df = Raise (KeyError "date_pub")) as ->
      by (unfold dedupe, sort_values_date_pub_desc; by rewrite Hd).
    split; [done|]. split; [done|]. split; [done|]. split; [done|].
    split; [by intros [out Hout]|]. by intros (? & _)%Hcols.
Qed.

Lemma seen_final_0 thresh rs : 0 < length rs → seen_final thresh rs !!! 0 = false.
Proof.
  intros Hlen. destruct (seen_final thresh rs !!! 0 : bool) eqn:Hs; [|done].
  apply seen_final_spec in Hs as (i & Hi & _); [lia|done].
Qed.

Lemma scan_rows_head thresh r rs :
  ∃ rest, scan_rows thresh (r :: rs) = r :: rest.
Proof.
  unfold scan_rows, iloc_rows. rewrite keep_final_filter.
  cbn [length seq]. rewrite filter_cons_True by (apply seen_final_0; simpl; lia).
  rewrite fmap_cons. eauto.
Qed.

Lemma sorts_before_refl r : sorts_before r r.
Proof. unfold sorts_before. destruct (has_date r); [lia|done]. Qed.

(** X4. [dedupe] always keeps the first record of the sorted order: on a
    table of normalized records that has rows the output is not empty, it
    is no longer than the input, and its first row is an input row that
    sorts before every input row (a most recent dated record, if any record
    is dated). *)
Theorem dedupe_keeps_first `{!ArgsortSpec argsort} (thresh : Z) (df : DataFrame) :
  normalized df = true → rows df ≠ [] →
  ∃ out first, dedupe thresh df = Ok out
    ∧ sort_rows_date_desc (rows df) !! 0 = Some first
    ∧ rows out !! 0 = Some first
    ∧ first ∈ rows df
    ∧ (∀ r, r ∈ rows df → sorts_before first r)
    ∧ 0 < length (rows out) ≤ length (rows df).
Proof.
  intros Hr%normalized_ready Hne.
  destruct (sort_rows_date_desc (rows df)) as [|first rest] eqn:Hs;
    [apply (proj1 (sort_rows_nil_iff _)) in Hs; contradiction|].
  destruct (scan_rows_head thresh first rest) as [kept Hk].
  pose proof (sort_rows_Permutation (rows df)) as Hp. rewrite Hs in Hp.
  pose proof (sort_rows_sorted (rows df)) as Hsorted. rewrite Hs in Hsorted.
  pose proof (scan_rows_sublist thresh (first :: rest)) as Hsub.
  exists {| columns := columns df; rows := scan_rows thresh (first :: rest) |}, first.
  split; [rewrite <- Hs; by apply dedupe_ok|]. simpl. rewrite Hk.
  split; [done|]. split; [done|].
  split; [rewrite <- Hp; apply elem_of_cons; by left|]. split.
  - intros r Hin. rewrite <- Hp in Hin.
    apply elem_of_cons in Hin as [->|Hin]; [apply sorts_before_refl|].
    inversion_clear Hsorted as [|? ? _ Hall]. rewrite Forall_forall in Hall.
    by apply Hall.
  - rewrite Hk in Hsub. apply sublist_length in Hsub.
    rewrite <- Hp. simpl in Hsub |- *. lia.
Qed.

(** X5. The columns [normalize] returns: the input's labels in their
    order, then the canonical labels the input lacked in the order of
    [SCHEMA], then [domain] unless the input had it.  A column of the input
    other than [titre], [lien], [date_pub] and [domain] comes back as it
    was, one value per input row. *)
Theorem normalize_columns (df dfn : DataFrame) :
  normalize df = Ok dfn →
  columns dfn
  = columns df ++ filter (λ c, c ∉ columns df) SCHEMA
    ++ (if has_col "domain" df then [] else ["domain"])
  ∧ length (rows dfn) = length (rows df)
  ∧ ∀ c, c ∈ columns df → c ∉ ["titre"; "lien"; "date_pub"; "domain"] →
      col c dfn = col c df.
Proof.
  intros Hn.
  destruct (normalize_spec df dfn Hn)
    as (_ & _ & _ & _ & _ & _ & Hlen & _ & Hrest).
  split; [|split; [done|]].
  - unfold normalize in Hn. cbv zeta in Hn.
    apply bind_Ok_inv in Hn as (titres & _ & Hn).
    apply bind_Ok_inv in Hn as (liens & _ & Hn).
    apply bind_Ok_inv in Hn as (domains & _ & Hn).
    injection Hn as <-.
    destruct (enforce_columns_spec df) as (_ & Hcols0 & _).
    assert (∀ c vals d, c ∈ columns d → columns (setitem c vals d) = columns d)
      as Hsame.
    { intros c vals d Hc. unfold setitem, has_col; simpl.
      by rewrite bool_decide_eq_true_2. }
    set (df0 := enforce_columns df) in *.
    set (df1 := setitem "titre" titres df0).
    set (df2 := setitem "lien" liens df1).
    set (df3 := setitem "date_pub" _ df2).
    assert (columns df1 = columns df0) as H1
      by (apply Hsame, Hcols0; pose proof schema_titre; ptauto).
    assert (columns df2 = columns df0) as H2.
    { unfold df2. rewrite Hsame; [done|]. rewrite H1.
      apply Hcols0. pose proof schema_lien. ptauto. }
    assert (columns df3 = columns df0) as H3.
    { unfold df3. rewrite Hsame; [done|]. rewrite H2.
      apply Hcols0. pose proof schema_date_pub. ptauto. }
    assert ("domain" ∈ columns df0 ↔ "domain" ∈ columns df) as Hdom.
    { rewrite Hcols0. split; [|ptauto]. intros [?|Hs]; [done|].
      exfalso. revert Hs. apply (bool_decide_unpack _). by vm_compute. }
    unfold setitem at 1. cbn [columns]. unfold has_col. rewrite H3.
    unfold df0 in Hdom |- *. rewrite enforce_columns_order.
    case_bool_decide as Hd3; case_bool_decide as Hd; try ptauto.
    + by rewrite app_nil_r.
    + rewrite <- enforce_columns_order in Hd3. ptauto.
    + rewrite <- enforce_columns_order in Hd3. ptauto.
    + by rewrite app_assoc.
  - intros c Hc Hno. rewrite (Hrest c Hno).
    destruct (enforce_columns_spec df) as (_ & _ & Hcol). rewrite Hcol.
    rewrite decide_False; [done|ptauto].
Qed.

Lemma col_imap_insert_ne c c' (f : nat → cell) (rs : list row) :
  c ≠ c' →
  (λ r : row, r !!! c') <$> imap (λ i (r : row), <[c := f i]> r) rs
  = (λ r : row, r !!! c') <$> rs.
Proof.
  intros Hne. rewrite fmap_imap.
  rewrite <- (imap_const (λ r : row, r !!! c')).
  apply imap_ext. intros i r _. simpl. by apply lookup_total_insert_ne.
Qed.

(** X6. Numbering a frame that has no [id] column:
    [df.insert(0, "id", range(1, len(df)+1))] returns; [id] becomes the
    first column, the row at position [i] gets the id [i+1], and the rows
    and all other columns stay as they were. *)
Theorem fresh_ids_dense (df : DataFrame) :
  "id" ∉ columns df →
  ∃ out, insert 0 "id" (range_cells 1 (length (rows df))) df = Ok out
    ∧ columns out = "id" :: columns df
    ∧ length (rows out) = length (rows df)
    ∧ (∀ i, i < length (rows df) →
         col "id" out !! i = Some (CInt (Z.of_nat (i + 1))))
    ∧ ∀ c, c ≠ "id" → col c out = col c df.
Proof.
  intros Hc. destruct (insert_id_fresh df Hc) as (out & Hout & Hcols & Hid).
  exists out. split; [done|]. split; [done|].
  assert (rows out = imap (λ i (r : row),
            <["id" := range_cells 1 (length (rows df)) !!! i]> r) (rows df))
    as Hrows.
  { revert Hout. unfold insert, has_col.
    rewrite bool_decide_eq_false_2 by done.
    unfold range_cells at 1. rewrite length_fmap, length_seq, Nat.eqb_refl.
    cbn [negb Nat.ltb Nat.leb]. by intros [= <-]. }
  split; [by rewrite Hrows, length_imap|]. split.
  - intros i Hi. rewrite Hid, list_lookup_fmap, lookup_seq_lt by done.
    simpl. do 3 f_equal. lia.
  - intros c Hne. unfold col. rewrite Hrows.
    apply col_imap_insert_ne. congruence.
Qed.

Lemma maybe_extract_outcome (do_extract : bool) (df : DataFrame) :
  (∃ df', maybe_extract do_extract df = Ok df')
  ∨ do_extract = true ∧ has_col "lien" df = false
    ∧ maybe_extract do_extract df = Raise (KeyError "lien").
Proof.
  unfold maybe_extract. destruct do_extract; cbn [negb]; [|eauto].
  destruct (has_col "lien" df); cbn [negb]; eauto.
Qed.

Lemma maybe_extract_columns (do_extract : bool) (df df' : DataFrame) :
  maybe_extract do_extract df = Ok df' →
  columns df'
  = (if do_extract && negb (has_col "fulltext" df)
     then columns df ++ ["fulltext"] else columns df)
  ∧ length (rows df') = length (rows df).
Proof.
  unfold maybe_extract. destruct do_extract; cbn [negb andb]; [|by intros [= <-]].
  destruct (has_col "lien" df); cbn [negb]; [|done]. intros [= <-].
  split; [|apply rows_setitem_length].
  unfold setitem. cbn [columns]. by destruct (has_col "fulltext" df).
Qed.

(** X7. [maybe_extract] without the flag returns its argument.  With the
    flag it reads the [lien] column, a [KeyError] on a frame that has
    none; otherwise it keeps the rows and every other column, appends
    [fulltext] as the last column unless the frame has it (then the old
    values are overwritten), and fills it row by row: null where [lien] is
    null, the empty string or not a string, and what [extract_text] answers
    for the link otherwise; no link is fetched for the former. *)
Theorem maybe_extract_fulltext (do_extract : bool) (df : DataFrame) :
  (do_extract = false → maybe_extract do_extract df = Ok df)
  ∧ (do_extract = true → has_col "lien" df = false →
       maybe_extract do_extract df = Raise (KeyError "lien"))
  ∧ (do_extract = true → has_col "lien" df = true →
       ∃ out, maybe_extract do_extract df = Ok out
         ∧ columns out
           = (if has_col "fulltext" df then columns df
              else columns df ++ ["fulltext"])
         ∧ length (rows out) = length (rows df)
         ∧ (∀ c, c ≠ "fulltext" → col c out = col c df)
         ∧ col "fulltext" out
           = (λ u, match u with
                   | CStr s => if String.eqb s "" then CNull else extract_text s
                   | _ => CNull
                   end) <$> col "lien" df).
Proof.
  unfold maybe_extract. split; [by intros ->|].
  split; [by intros -> ->|]. intros -> ->. cbn [negb].
  eexists. split; [done|]. split.
  { unfold setitem. cbn [columns]. by destruct (has_col "fulltext" df). }
  split; [apply rows_setitem_length|].
  split; [intros c Hc; by apply col_setitem_ne|].
  rewrite col_setitem_full by (by rewrite !length_fmap, col_length).
  rewrite <- list_fmap_compose. apply list_fmap_ext. intros i u _. simpl.
  destruct u as [|s|n|ns]; simpl; try done.
  - by destruct (String.eqb s "").
  - by destruct (negb (n =? 0)%Z).
Qed.

Lemma getitem_cols_ok (cols : list string) (df : DataFrame) :
  (∀ c, c ∈ cols → c ∈ columns df) →
  getitem_cols cols df
  = Ok {| columns := cols;
          rows := (λ r : row, filter (λ kv, kv.1 ∈ cols) r) <$> rows df |}.
Proof.
  intros Hall. unfold getitem_cols.
  destruct (filter (λ c, c ∉ columns df) cols) as [|c l] eqn:Hf; [done|].
  assert (c ∈ filter (λ c, c ∉ columns df) cols) as Hc
    by (rewrite Hf; apply elem_of_cons; by left).
  apply list_elem_of_filter in Hc as [Hno Hin]. by destruct (Hno (Hall c Hin)).
Qed.

Lemma getitem_cols_missing (cols : list string) (df : DataFrame) c :
  c ∈ cols → c ∉ columns df →
  ∃ c', c' ∈ cols ∧ (c' ∉ columns df)
    ∧ getitem_cols cols df = Raise (KeyError c').
Proof.
  intros Hin Hno. unfold getitem_cols.
  destruct (filter (λ c, c ∉ columns df) cols) as [|c' l] eqn:Hf.
  - assert (c ∈ filter (λ c, c ∉ columns df) cols) as Hc
      by (by apply list_elem_of_filter).
    rewrite Hf in Hc. by apply elem_of_nil in Hc.
  - assert (c' ∈ filter (λ c, c ∉ columns df) cols) as Hc
      by (rewrite Hf; apply elem_of_cons; by left).
    apply list_elem_of_filter in Hc as [? ?]. eauto.
Qed.

Lemma lookup_total_filter_keys (cols : list string) (r : row) c :
  (filter (λ kv : string * cell, kv.1 ∈ cols) r) !!! c
  = if decide (c ∈ cols) then r !!! c else CNull.
Proof.
  rewrite !lookup_total_alt.
  destruct (filter (λ kv : string * cell, kv.1 ∈ cols) r !! c) as [x|] eqn:Hx.
  - apply map_lookup_filter_Some in Hx as [Hr Hc]. simpl in Hc.
    rewrite decide_True by done. by rewrite Hr.
  - apply map_lookup_filter_None in Hx as [Hr|Hr].
    + rewrite Hr. by destruct (decide _).
    + destruct (r !! c) as [x|] eqn:Hrc; [|by destruct (decide _)].
      rewrite decide_False; [done|]. intros Hc. by apply (Hr x).
Qed.

(** X8. The end of the stage: [maybe_extract], then the projection
    [df[SCHEMA + fulltext-if-present]].  On a frame that has every
    canonical column both return; the result has the canonical columns in
    the order of [SCHEMA], followed by [fulltext] exactly when extraction
    was asked for or the frame already had that column; the rows and the
    kept columns are unchanged, and every other column, the helper column
    [domain] in particular, is gone.  On a frame that lacks a canonical
    column the two steps end in a [KeyError]. *)
Theorem final_projection (do_extract : bool) (df : DataFrame) :
  let project df' :=
    getitem_cols
      (SCHEMA ++ (if has_col "fulltext" df' then ["fulltext"] else [])) df' in
  ((∀ c, c ∈ SCHEMA → c ∈ columns df) →
     ∃ df' out, maybe_extract do_extract df = Ok df'
       ∧ project df' = Ok out
       ∧ columns out
         = SCHEMA ++ (if do_extract || has_col "fulltext" df
                      then ["fulltext"] else [])
       ∧ length (rows out) = length (rows df)
       ∧ (∀ c, c ∈ columns out → col c out = col c df')
       ∧ (∀ c, c ∉ columns out →
            col c out = replicate (length (rows df)) CNull)
       ∧ "domain" ∉ columns out)
  ∧ (∀ c, c ∈ SCHEMA → c ∉ columns df →
       ∃ k, (let* df' := maybe_extract do_extract df in project df')
            = Raise (KeyError k)).
Proof.
  intros project.
  destruct (maybe_extract_outcome do_extract df) as [[df' Hm]|(_ & Hl & Hr)].
  2:{ split; [|intros; rewrite Hr; cbn [bind]; eauto].
      intros Hall. unfold has_col in Hl. apply bool_decide_eq_false in Hl.
      destruct Hl. apply Hall, schema_lien. }
  destruct (maybe_extract_columns do_extract df df' Hm) as (Hcols' & Hlen').
  set (cols := SCHEMA ++ (if has_col "fulltext" df' then ["fulltext"] else [])).
  assert (∀ c, c ∈ columns df' ↔ c ∈ columns df ∨ (do_extract = true ∧ c = "fulltext"))
    as Hin'.
  { intros c. rewrite Hcols'. unfold has_col.
    destruct do_extract; cbn [andb]; [|split; [ptauto|by intros [?|[? _]]]].
    case_bool_decide as Hf; cbn [negb].
    - split; [ptauto|]. by intros [?|[_ ->]].
    - rewrite elem_of_app, list_elem_of_singleton. ptauto. }
  assert (has_col "fulltext" df' = do_extract || has_col "fulltext" df) as Hft.
  { unfold has_col. apply eq_true_iff_eq.
    rewrite orb_true_iff, !bool_decide_eq_true, Hin'. ptauto. }
  assert ("fulltext" ∉ SCHEMA) as Hfs
    by (apply (bool_decide_unpack _); by vm_compute).
  assert ("domain" ∉ cols) as Hdom.
  { unfold cols. rewrite elem_of_app. intros [Hd|Hd].
    - revert Hd. apply (bool_decide_unpack _). by vm_compute.
    - destruct (has_col "fulltext" df'); [|by apply elem_of_nil in Hd].
      by apply list_elem_of_singleton in Hd. }
  split.
  - intros Hall. exists df'. eexists. split; [done|]. split.
    + unfold project. fold cols.
      apply getitem_cols_ok. intros c. unfold cols. rewrite elem_of_app.
      intros [Hc|Hc]; [apply Hin'; left; by apply Hall|].
      destruct (has_col "fulltext" df') eqn:Hf; [|by apply elem_of_nil in Hc].
      apply list_elem_of_singleton in Hc as ->.
      unfold has_col in Hf. by apply bool_decide_eq_true in Hf.
    + cbn [columns rows]. split; [unfold cols; by rewrite Hft|].
      split; [by rewrite length_fmap|].
      assert (∀ c, col c {| columns := cols;
                rows := (λ r : row, filter (λ kv, kv.1 ∈ cols) r) <$> rows df' |}
              = if decide (c ∈ cols) then col c df'
                else replicate (length (rows df)) CNull) as Hcol.
      { intros c. unfold col. cbn [rows]. rewrite <- list_fmap_compose.
        case_decide as Hc.
        - apply list_fmap_ext. intros i r _. simpl.
          rewrite lookup_total_filter_keys. by rewrite decide_True.
        - rewrite <- Hlen'. apply const_fmap. intros i r _. simpl.
          rewrite lookup_total_filter_keys. by rewrite decide_False. }
      split; [intros c Hc; rewrite Hcol; by rewrite decide_True|].
      split; [intros c Hc; rewrite Hcol; by rewrite decide_False|done].
  - intros c Hc Hno. rewrite Hm. cbn [bind]. unfold project. fold cols.
    destruct (getitem_cols_missing cols df' c) as (c' & _ & _ & Hr); [| |eauto].
    + unfold cols. rewrite elem_of_app. by left.
    + rewrite Hin'. intros [?|[_ ->]]; done.
Qed.

(** ** [load_raw] *)

Lemma union_columns_fold (acc l : list string) c :
  c ∈ foldl (λ acc c, if bool_decide (c ∈ acc) then acc else acc ++ [c]) acc l
  ↔ c ∈ acc ∨ c ∈ l.
Proof.
  revert acc. induction l as [|x l IH]; intros acc; cbn [foldl].
  - rewrite elem_of_nil. ptauto.
  - rewrite IH, elem_of_cons. case_bool_decide as Hx.
    + split; [ptauto|]. intros [?|[->|?]]; ptauto.
    + rewrite elem_of_app, list_elem_of_singleton. ptauto.
Qed.

Lemma union_columns_spec (frames : list DataFrame) c :
  c ∈ union_columns frames ↔ ∃ fr, fr ∈ frames ∧ c ∈ columns fr.
Proof.
  unfold union_columns. rewrite union_columns_fold, elem_of_nil, list_elem_of_bind.
  split; [intros [[]|(fr & ? & ?)]; eauto|]. intros (fr & ? & ?). eauto.
Qed.

Lemma col_restricted c (fr : DataFrame) :
  (λ r : row, r !!! c)
    <$> ((λ r : row, filter (λ kv, kv.1 ∈ columns fr) r) <$> rows fr)
  = if has_col c fr then col c fr else replicate (length (rows fr)) CNull.
Proof.
  rewrite <- list_fmap_compose. unfold has_col, col. case_bool_decide as Hc.
  - apply list_fmap_ext. intros i r _. simpl.
    rewrite lookup_total_filter_keys. by rewrite decide_True.
  - apply const_fmap. intros i r _. simpl.
    rewrite lookup_total_filter_keys. by rewrite decide_False.
Qed.

Lemma pd_concat_col c (frames : list DataFrame) :
  col c (pd_concat frames)
  = frames ≫= (λ fr, if has_col c fr then col c fr
                      else replicate (length (rows fr)) CNull).
Proof.
  unfold col at 1, pd_concat. cbn [rows].
  induction frames as [|fr frames IH]; [done|].
  cbn [mbind list_bind]. rewrite fmap_app, IH. f_equal. apply col_restricted.
Qed.

Lemma pd_concat_length (frames : list DataFrame) :
  length (rows (pd_concat frames))
  = sum_list ((λ fr, length (rows fr)) <$> frames).
Proof.
  unfold pd_concat. cbn [rows].
  induction frames as [|fr frames IH]; [done|].
  cbn [mbind list_bind]. rewrite length_app, length_fmap, IH. done.
Qed.

Lemma apply_raising_ext {A B} (f g : A → result B) (l : list A) :
  Forall (λ x, f x = g x) l → apply_raising f l = apply_raising g l.
Proof.
  induction 1 as [|x l Hx _ IH]; [done|]. simpl. by rewrite Hx, IH.
Qed.

Lemma apply_raising_first_error {A B} (f : A → result B) pre x post ys e :
  Forall2 (λ x y, f x = Ok y) pre ys → f x = Raise e →
  apply_raising f (pre ++ x :: post) = Raise e.
Proof.
  intros Hpre Hx. induction Hpre as [|a y pre ys Ha _ IH]; simpl.
  - by rewrite Hx.
  - by rewrite Ha, IH.
Qed.

(** X9. What [load_raw] returns.  The frames are those [read_csv] gives
    for the listed names that end in [.csv], in the order of the listing.
    Without such a name the result is the empty table with the canonical
    columns.  Otherwise a label is a column of the result exactly when it
    is one of some file; the rows are those of the files one after the
    other; and each column is the concatenation, file by file, of that
    column of the file, or of one null per row for a file that lacks it. *)
Theorem load_raw_concat (read_csv : string → result DataFrame)
    (listdir : list string) (df : DataFrame) :
  load_raw read_csv listdir = Ok df →
  ∃ frames,
    Forall2 (λ f fr, read_csv f = Ok fr)
      (filter (λ f, endswith f ".csv" = true) listdir) frames
    ∧ (frames = [] → df = {| columns := SCHEMA; rows := [] |})
    ∧ (frames ≠ [] →
         ∀ c, c ∈ columns df ↔ ∃ fr, fr ∈ frames ∧ c ∈ columns fr)
    ∧ length (rows df) = sum_list ((λ fr, length (rows fr)) <$> frames)
    ∧ ∀ c, col c df
           = frames ≫= (λ fr, if has_col c fr then col c fr
                               else replicate (length (rows fr)) CNull).
Proof.
  unfold load_raw. intros (frames & Hread & Hdf)%bind_Ok_inv.
  apply apply_raising_ok in Hread. exists frames. split; [done|].
  destruct frames as [|fr frames].
  - injection Hdf as <-. split; [done|]. split; [done|]. split; done.
  - injection Hdf as <-. split; [done|].
    split; [intros _ c; apply union_columns_spec|].
    split; [apply pd_concat_length|intros c; apply pd_concat_col].
Qed.

(** X10. [load_raw] reads only the names that end in [.csv]: whatever
    [read_csv] would do on another name does not matter.  If the read of
    such a name raises and every read before it returned, [load_raw] raises
    that exception. *)
Theorem load_raw_reads_csv_only (read_csv read_csv' : string → result DataFrame)
    (listdir : list string) :
  (∀ f, endswith f ".csv" = true → read_csv' f = read_csv f) →
  load_raw read_csv' listdir = load_raw read_csv listdir
  ∧ ∀ pre f post frames e,
      filter (λ f, endswith f ".csv" = true) listdir = pre ++ f :: post →
      Forall2 (λ f fr, read_csv f = Ok fr) pre frames →
      read_csv f = Raise e →
      load_raw read_csv listdir = Raise e.
Proof.
  intros Hagree. split.
  - unfold load_raw. rewrite (apply_raising_ext read_csv' read_csv); [done|].
    apply Forall_forall. intros f [Hf _]%list_elem_of_filter. by apply Hagree.
  - intros pre f post frames e Hl Hpre Hf. unfold load_raw. rewrite Hl.
    by rewrite (apply_raising_first_error _ _ _ _ _ _ Hpre Hf).
Qed.

(** X11. When the directory holds no name ending in [.csv], or every such
    file has a header and no record, the clean stage stops at the
    emptiness test: nothing is normalized and nothing is written. *)
Theorem clean_nothing_to_do (read_csv : string → result DataFrame)
    (listdir : list string) (do_extract : bool) :
  (∀ f, f ∈ listdir → endswith f ".csv" = true →
     ∃ fr, read_csv f = Ok fr ∧ rows fr = []) →
  (∃ df, load_raw read_csv listdir = Ok df ∧ rows df = [])
  ∧ clean_from_dir read_csv listdir do_extract = Ok None.
Proof.
  intros Hall.
  assert (∃ frames,
            apply_raising read_csv
              (filter (λ f, endswith f ".csv" = true) listdir) = Ok frames
            ∧ Forall (λ fr, rows fr = []) frames) as (frames & Hread & Hrows).
  { assert (Forall (λ f, ∃ fr, read_csv f = Ok fr ∧ rows fr = [])
              (filter (λ f, endswith f ".csv" = true) listdir)) as HF.
    { apply Forall_forall. intros f [Hf Hin]%list_elem_of_filter. by apply Hall. }
    induction HF as [|f l (fr & Hfr & Hnil) _ (frames & IH & Hrows)]; simpl.
    - exists []. by split.
    - exists (fr :: frames). rewrite Hfr, IH. simpl. split; [done|].
      by constructor. }
  assert (∃ df, load_raw read_csv listdir = Ok df ∧ rows df = [])
    as (df & Hdf & Hnil).
  { unfold load_raw. rewrite (bind_Ok _ _ _ Hread).
    destruct frames as [|fr frames]; [by eexists|].
    eexists. split; [done|]. apply length_zero_iff_nil.
    rewrite pd_concat_length. clear Hread.
    induction Hrows as [|x l Hx _ IH]; [done|].
    rewrite fmap_cons. cbn [sum_list]. rewrite Hx, IH. done. }
  split; [by exists df|].
  unfold clean_from_dir. rewrite (bind_Ok _ _ _ Hdf).
  unfold run_clean, df_empty. by rewrite Hnil.
Qed.

Lemma StronglySorted_sublist {A} (R : relation A) (k l : list A) :
  k `sublist_of` l → StronglySorted R l → StronglySorted R k.
Proof.
  induction 1 as [|x k l Hkl IH|x k l Hkl IH]; intros Hl; [done| |].
  - inversion_clear Hl as [|? ? Hs Hall]. constructor; [by apply IH|].
    rewrite Forall_forall in Hall |- *. intros y Hy. apply Hall.
    by eapply elem_of_sublist.
  - inversion_clear Hl as [|? ? Hs _]. by apply IH.
Qed.

(** X22. Whenever [dedupe] returns, its output is in the order of the
    sort: of two kept records the later one is never dated when the
    earlier one is not, and when the later one is dated it is not more
    recent than the earlier one. *)
Theorem dedupe_output_sorted `{!ArgsortSpec argsort} (thresh : Z)
    (df out : DataFrame) :
  dedupe thresh df = Ok out →
  StronglySorted sorts_before (rows out)
  ∧ ∀ i j, i < j < length (rows out) →
      has_date (rows out !!! j) = true →
      has_date (rows out !!! i) = true
      ∧ (date_ns (rows out !!! j) ≤ date_ns (rows out !!! i))%Z.
Proof.
  intros [_ ->]%dedupe_Ok_inv. cbn [rows].
  assert (StronglySorted sorts_before
            (scan_rows thresh (sort_rows_date_desc (rows df)))) as HS.
  { eapply StronglySorted_sublist; [apply scan_rows_sublist|].
    apply sort_rows_sorted. }
  split; [done|]. intros i j Hij Hj.
  pose proof (StronglySorted_lookup_total _ _ i j HS Hij) as Hb.
  unfold sorts_before in Hb. rewrite Hj in Hb.
  by destruct (has_date (scan_rows thresh (sort_rows_date_desc (rows df)) !!! i)).
Qed.

(** ** When [normalize] returns *)

Lemma enforce_col_ok c df :
  c ∈ SCHEMA →
  bool_decide (col c (enforce_columns df) = [])
  || negb (forallb is_int (col c (enforce_columns df))
           || forallb is_date (col c (enforce_columns df))) = true
  ↔ rows df = [] ∨ has_col c df = false
    ∨ forallb is_int (col c df) || forallb is_date (col c df) = false.
Proof.
  intros Hc. destruct (enforce_columns_spec df) as (_ & _ & Hcol). rewrite Hcol.
  rewrite orb_true_iff, bool_decide_eq_true, negb_true_iff. unfold has_col.
  case_bool_decide as Hin.
  - rewrite decide_False by ptauto. split.
    + intros [Hnil|?]; [left|by right; right].
      apply (f_equal length) in Hnil. rewrite col_length in Hnil.
      by apply length_zero_iff_nil.
    + intros [Hnil|[?|?]]; [left|done|by right].
      unfold col. by rewrite Hnil.
  - rewrite decide_True by done. split; [intros _; right; by left|]. intros _.
    destruct (rows df) as [|r l]; [by left|by right].
Qed.

(** X20. When [normalize] returns.  It returns exactly when the [titre]
    column and the [lien] column are each absent, or without rows, or not
    made of numbers only nor of timestamps only, and [urlparse] accepts
    every link of the table that is not blank; when one of the two columns
    holds numbers only, or timestamps only, it raises an [AttributeError],
    that of the [.str] accessor. *)
Theorem normalize_returns_iff (df : DataFrame) :
  let ok c := rows df = [] ∨ has_col c df = false
              ∨ forallb is_int (col c df) || forallb is_date (col c df) = false in
  ((∃ dfn, normalize df = Ok dfn)
   ↔ ok "titre" ∧ ok "lien"
     ∧ (has_col "lien" df = true →
        ∀ s, CStr s ∈ col "lien" df → strip s ≠ "" →
          ∃ n, urlparse_netloc (strip s) = Ok n))
  ∧ (¬ (ok "titre" ∧ ok "lien") →
       ∃ msg, normalize df = Raise (AttributeError msg)).
Proof.
  intros ok.
  pose proof (enforce_col_ok "titre" df schema_titre) as Ht.
  pose proof (enforce_col_ok "lien" df schema_lien) as Hl.
  fold (ok "titre") in Ht. fold (ok "lien") in Hl.
  destruct (enforce_columns_spec df) as (_ & _ & Hcol).
  unfold normalize. cbv zeta. rewrite (clean_str_column_eq (col "titre" _)).
  destruct (bool_decide _ || negb (forallb is_int (col "titre" _) || _)) eqn:Hbt.
  2:{ cbn [bind]. split; [|intros _; eauto]. split; [by intros [dfn ?]|].
      intros (Hok & _). apply Ht in Hok. congruence. }
  cbn [bind]. rewrite col_setitem_ne by done.
  rewrite (clean_str_column_eq (col "lien" _)).
  destruct (bool_decide _ || negb (forallb is_int (col "lien" _) || _)) eqn:Hbl.
  2:{ cbn [bind]. split; [|intros _; eauto]. split; [by intros [dfn ?]|].
      intros (_ & Hok & _). apply Hl in Hok. congruence. }
  cbn [bind]. split; [|intros Hno; destruct Hno; split; [by apply Ht|by apply Hl]].
  rewrite col_setitem_ne by done.
  rewrite col_setitem_full
    by (by rewrite rows_setitem_length, !length_fmap, col_length).
  set (liens := str_strip <$> (fillna_empty <$> col "lien" (enforce_columns df))).
  transitivity (∃ ds, apply_raising domain_of liens = Ok ds).
  { split; intros [x Hx].
    - destruct (apply_raising domain_of liens) as [ds|]; [eauto|done].
    - rewrite Hx. cbn [bind]. eauto. }
  rewrite apply_raising_Ok_iff. unfold liens.
  rewrite <- list_fmap_compose, Forall_fmap.
  split.
  - intros Hall. split; [by apply Ht|]. split; [by apply Hl|].
    intros Hhas s Hs Hne. rewrite Forall_forall in Hall.
    unfold has_col in Hhas. apply bool_decide_eq_true in Hhas.
    rewrite Hcol, decide_False in Hall by ptauto.
    by apply (proj1 (domain_of_cleaned (CStr s)) (Hall _ Hs) s).
  - intros (_ & _ & Hparse). apply Forall_forall. intros x Hx. simpl.
    apply domain_of_cleaned. intros s -> Hne.
    by apply (enforce_lien_own df (λ s, strip s ≠ "" → _) Hparse).
Qed.

(** ** [normalize] twice *)

Lemma setitem_id c vals df :
  c ∈ columns df →
  (∀ i r, rows df !! i = Some r → r !! c = Some (vals !!! i)) →
  setitem c vals df = df.
Proof.
  intros Hc Hrows. destruct df as [cols rs]. unfold setitem, has_col.
  cbn [columns rows] in *. rewrite bool_decide_eq_true_2 by done. f_equal.
  apply list_eq. intros i. rewrite list_lookup_imap.
  destruct (rs !! i) as [r|] eqn:Hr; [|done]. simpl. f_equal.
  apply insert_id. by apply Hrows.
Qed.

Lemma setitem_row c vals df i r :
  rows (setitem c vals df) !! i = Some r →
  ∃ r0, rows df !! i = Some r0 ∧ r = <[c := vals !!! i]> r0.
Proof. unfold setitem. cbn [rows]. intros Hr. by apply list_lookup_imap_Some in Hr. Qed.

Lemma apply_raising_Forall2 {A B} (f : A → result B) l l' :
  Forall2 (λ x y, f x = Ok y) l l' → apply_raising f l = Ok l'.
Proof.
  induction 1 as [|x y l l' Hx _ IH]; [done|]. simpl. by rewrite Hx, IH.
Qed.

Lemma clean_twice x :
  textual x = true →
  str_strip (fillna_empty (str_strip (fillna_empty x))) = str_strip (fillna_empty x).
Proof.
  destruct x as [|s| |]; try done; intros _; simpl; f_equal; apply strip_idemp.
Qed.

(** X21. [normalize] changes nothing the second time: on a table whose
    titles and links are strings or null, the table it returns is returned
    again unchanged when it is normalized again, provided the date parser
    keeps the length of a column and leaves a parsed column as it is. *)
Theorem normalize_idempotent (df dfn : DataFrame) :
  (∀ l, length (to_datetime l) = length l) →
  (∀ l, to_datetime (timestamp_cell <$> to_datetime l) = to_datetime l) →
  Forall (λ x, textual x = true) (col "titre" df) →
  Forall (λ x, textual x = true) (col "lien" df) →
  normalize df = Ok dfn →
  normalize dfn = Ok dfn.
Proof.
  intros Hlen Hfix Htt Htl Hn.
  pose proof (enforce_col_textual "titre" df Htt) as Htt0.
  pose proof (enforce_col_textual "lien" df Htl) as Htl0.
  destruct (normalize_spec df dfn Hn)
    as (domains & Ht & Hl & Hd & Hdom & Hdate & Hrows & Hcols & _).
  cbv zeta in Ht, Hl, Hdate.
  (* the keys of every row of the result *)
  assert (∀ i r, rows dfn !! i = Some r →
            r !! "titre" = Some (col "titre" dfn !!! i)
            ∧ r !! "lien" = Some (col "lien" dfn !!! i)
            ∧ r !! "date_pub" = Some (col "date_pub" dfn !!! i)
            ∧ r !! "domain" = Some (col "domain" dfn !!! i)) as Hkeys.
  { intros i r Hr.
    assert (∀ c, col c dfn !!! i = r !!! c) as Hcell.
    { intros c. apply list_lookup_total_correct. by apply col_lookup. }
    rewrite !Hcell. clear Hcell.
    unfold normalize in Hn. cbv zeta in Hn.
    apply bind_Ok_inv in Hn as (titres & _ & Hn).
    apply bind_Ok_inv in Hn as (liens & _ & Hn).
    apply bind_Ok_inv in Hn as (ds & _ & Hn).
    injection Hn as <-.
    apply setitem_row in Hr as (r3 & Hr3 & ->).
    apply setitem_row in Hr3 as (r2 & Hr2 & ->).
    apply setitem_row in Hr2 as (r1 & Hr1 & ->).
    apply setitem_row in Hr1 as (r0 & _ & ->).
    rewrite !lookup_total_alt.
    repeat split;
      repeat (rewrite lookup_insert_eq || rewrite lookup_insert_ne by done);
      done. }
  assert ("titre" ∈ columns dfn ∧ "lien" ∈ columns dfn
          ∧ "date_pub" ∈ columns dfn ∧ "domain" ∈ columns dfn)
    as (Hct & Hcl & Hcd & Hcm).
  { pose proof schema_titre. pose proof schema_lien. pose proof schema_date_pub.
    repeat split; apply Hcols; ptauto. }
  assert (col "date_pub" dfn
          = timestamp_cell <$> to_datetime (col "date_pub" (enforce_columns df)))
    as Hdate'.
  { rewrite Hdate. apply fmap_lookup_total_seq_len.
    rewrite length_fmap, Hlen, col_length.
    by destruct (enforce_columns_spec df) as (-> & _). }
  (* the second pass *)
  unfold normalize. cbv zeta.
  rewrite enforce_columns_id by (intros c Hc; apply Hcols; ptauto).
  assert (clean_str_column (col "titre" dfn) = Ok (col "titre" dfn)) as Ht2.
  { rewrite clean_str_column_eq.
    assert (str_strip <$> (fillna_empty <$> col "titre" dfn) = col "titre" dfn)
      as ->.
    { rewrite Ht. rewrite <- !list_fmap_compose.
      apply Forall_fmap_ext_1. eapply Forall_impl; [exact Htt0|].
      intros x Hx. simpl. by apply clean_twice. }
    rewrite Ht. destruct (col "titre" (enforce_columns df)) as [|x l]; [done|].
    inversion_clear Htt0 as [|? ? Hx _].
    rewrite !fmap_cons. rewrite bool_decide_eq_false_2 by done.
    cbn [orb existsb]. by destruct x. }
  rewrite Ht2. cbn [bind].
  rewrite (setitem_id "titre" (col "titre" dfn) dfn)
    by (done || intros i r Hr; by apply Hkeys).
  assert (clean_str_column (col "lien" dfn) = Ok (col "lien" dfn)) as Hl2.
  { rewrite clean_str_column_eq.
    assert (str_strip <$> (fillna_empty <$> col "lien" dfn) = col "lien" dfn)
      as ->.
    { rewrite Hl. rewrite <- !list_fmap_compose.
      apply Forall_fmap_ext_1. eapply Forall_impl; [exact Htl0|].
      intros x Hx. simpl. by apply clean_twice. }
    rewrite Hl. destruct (col "lien" (enforce_columns df)) as [|x l]; [done|].
    inversion_clear Htl0 as [|? ? Hx _].
    rewrite !fmap_cons. rewrite bool_decide_eq_false_2 by done.
    cbn [orb existsb]. by destruct x. }
  rewrite Hl2. cbn [bind].
  rewrite (setitem_id "lien" (col "lien" dfn) dfn)
    by (done || intros i r Hr; by apply Hkeys).
  assert (timestamp_cell <$> to_datetime (col "date_pub" dfn)
          = col "date_pub" dfn) as ->
    by (by rewrite Hdate', Hfix).
  rewrite (setitem_id "date_pub" (col "date_pub" dfn) dfn)
    by (done || intros i r Hr; by apply Hkeys).
  rewrite (apply_raising_Forall2 _ _ _ Hd). cbn [bind]. f_equal.
  apply setitem_id; [done|]. intros i r Hr. rewrite <- Hdom. by apply Hkeys.
Qed.

End Clean.

(** ** The harvest stage: [clean_text] *)

Lemma lstrip_chars_app l k :
  lstrip_chars (l ++ k)
  = if forallb isspace l then lstrip_chars k else lstrip_chars l ++ k.
Proof.
  induction l as [|c l IH]; simpl; [done|].
  destruct (isspace c); simpl; [apply IH|done].
Qed.

Lemma lstrip_chars_all_space l :
  forallb isspace l = true → lstrip_chars l = [].
Proof.
  induction l as [|c l IH]; simpl; [done|].
  destruct (isspace c); simpl; [apply IH|done].
Qed.

Lemma forallb_reverse {A} (p : A → bool) (l : list A) :
  forallb p (reverse l) = forallb p l.
Proof.
  induction l as [|x l IH]; [done|].
  rewrite reverse_cons, forallb_app, IH. simpl.
  rewrite andb_true_r. apply andb_comm.
Qed.

Lemma rstrip_chars_cons c l :
  rstrip_chars (c :: l)
  = if forallb isspace (c :: l) then [] else c :: rstrip_chars l.
Proof.
  unfold rstrip_chars. rewrite reverse_cons, lstrip_chars_app, forallb_reverse.
  simpl. destruct (forallb isspace l) eqn:Hl.
  - rewrite lstrip_chars_all_space by (by rewrite forallb_reverse).
    by destruct (isspace c).
  - rewrite andb_false_r, reverse_app. done.
Qed.

Lemma rstrip_chars_elem_of x l : x ∈ rstrip_chars l → x ∈ l.
Proof.
  induction l as [|c l IH]; [done|]. rewrite rstrip_chars_cons.
  destruct (forallb isspace (c :: l)); [by intros ?%elem_of_nil|].
  rewrite !elem_of_cons. intros [?|?]; [by left|right; by apply IH].
Qed.

Lemma lstrip_chars_elem_of x l : x ∈ lstrip_chars l → x ∈ l.
Proof.
  induction l as [|c l IH]; simpl; [done|].
  destruct (isspace c); [|done]. intros ?. apply elem_of_cons. right. by apply IH.
Qed.

Lemma sub_spaces_elem_of x l : x ∈ sub_spaces l → x ∈ l ∨ x = " "%char.
Proof.
  induction l as [|c l IH]; [by left|]. cbn [sub_spaces].
  destruct (isspace c).
  - destruct l as [|c' l']; [rewrite list_elem_of_singleton; by right|].
    destruct (isspace c').
    + intros [?| ->]%IH; [left; apply elem_of_cons; by right|by right].
    + rewrite elem_of_cons.
      intros [->|[?| ->]%IH]; [by right|left; apply elem_of_cons; by right|by right].
  - rewrite elem_of_cons. intros [->|[?| ->]%IH];
      [left; apply elem_of_cons; by left|left; apply elem_of_cons; by right|by right].
Qed.

(** *** Tags *)

Lemma in_tag_Some b l out :
  in_tag b l = Some out →
  ∃ pre post, l = pre ++ ">"%char :: post ∧ out = sub_tags post
    ∧ length post < length l.
Proof.
  revert b. induction l as [|c l IH]; intros b; cbn [in_tag]; [done|].
  destruct (Ascii.eqb c ">") eqn:Hc.
  - apply Ascii.eqb_eq in Hc as ->. destruct b; [|done]. intros [= <-].
    exists [], l. simpl. split; [done|]. split; [done|lia].
  - intros (pre & post & -> & -> & Hlen)%IH. exists (c :: pre), post.
    split; [done|]. split; [done|]. simpl. lia.
Qed.

Lemma in_tag_no_gt b l : ">"%char ∉ l → in_tag b l = None.
Proof.
  revert b. induction l as [|c l IH]; intros b Hno; cbn [in_tag]; [done|].
  rewrite not_elem_of_cons in Hno. destruct Hno as [Hc Hl].
  destruct (Ascii.eqb c ">") eqn:He; [by apply Ascii.eqb_eq in He|].
  by apply IH.
Qed.

Lemma in_tag_true_None l : in_tag true l = None → ">"%char ∉ l.
Proof.
  induction l as [|c l IH]; cbn [in_tag]; [intros _; apply not_elem_of_nil|].
  destruct (Ascii.eqb c ">") eqn:Hc; [done|]. apply Ascii.eqb_neq in Hc.
  intros Hnone. apply not_elem_of_cons. split; [done|by apply IH].
Qed.

Lemma in_tag_None b l :
  in_tag b l = None → ">"%char ∉ l ∨ (b = false ∧ ∃ r, l = ">"%char :: r).
Proof.
  destruct l as [|c l]; cbn [in_tag]; [intros _; left; apply not_elem_of_nil|].
  destruct (Ascii.eqb c ">") eqn:Hc.
  - apply Ascii.eqb_eq in Hc as ->. destruct b; [done|]. intros _. right. eauto.
  - intros Hnone. left. apply Ascii.eqb_neq in Hc.
    apply not_elem_of_cons. split; [done|by apply in_tag_true_None].
Qed.

Lemma opens_tag_false r :
  opens_tag r = false ↔ r = [] ∨ (∃ r', r = ">"%char :: r') ∨ ">"%char ∉ r.
Proof.
  destruct r as [|x r']; simpl.
  - split; [by left|done].
  - destruct (Ascii.eqb x ">") eqn:Hx; simpl.
    + apply Ascii.eqb_eq in Hx as ->. split; [|done]. intros _. right; left. eauto.
    + apply Ascii.eqb_neq in Hx. rewrite bool_decide_eq_false, not_elem_of_cons.
      split.
      * intros Hno. right; right. done.
      * intros [?|[[r Hr]|[_ ?]]]; [done| |done]. by injection Hr as -> _.
Qed.

Lemma opens_tag_in_tag r : opens_tag r = false → in_tag false r = None.
Proof.
  intros [->|[[r' ->]|Hno]]%opens_tag_false; [done|done|by apply in_tag_no_gt].
Qed.

Lemma in_tag_opens_tag r : in_tag false r = None → opens_tag r = false.
Proof.
  intros [Hno|[_ [r' ->]]]%in_tag_None; apply opens_tag_false; [|right; left; eauto].
  by right; right.
Qed.

Lemma sub_tags_fix l : tag_free l = true → sub_tags l = l.
Proof.
  induction l as [|c l IH]; [done|]. cbn [tag_free sub_tags].
  intros [Hc Hl]%andb_true_iff. rewrite (IH Hl).
  destruct (Ascii.eqb c "<"); [|done].
  apply negb_true_iff in Hc. by rewrite (opens_tag_in_tag _ Hc).
Qed.

(** The substitution makes no [>] and leaves no tag. *)
Lemma sub_tags_spec n l :
  length l ≤ n →
  (">"%char ∈ sub_tags l → ">"%char ∈ l) ∧ tag_free (sub_tags l) = true.
Proof.
  revert l. induction n as [|n IH]; intros l Hlen.
  { destruct l; [done|simpl in Hlen; lia]. }
  destruct l as [|c l]; [done|]. simpl in Hlen. cbn [sub_tags].
  destruct (IH l) as [IHgt IHfree]; [lia|].
  destruct (Ascii.eqb c "<") eqn:Hc.
  - destruct (in_tag false l) as [out|] eqn:Hin.
    + apply in_tag_Some in Hin as (pre & post & -> & -> & Hpost).
      destruct (IH post) as [Hgt Hfree]; [lia|]. split.
      * intros _. apply elem_of_cons. right. apply elem_of_app. right.
        apply elem_of_cons. by left.
      * cbn [tag_free]. by rewrite Hfree.
    + split.
      * rewrite !elem_of_cons. intros [?|?]; [by left|right; by apply IHgt].
      * cbn [tag_free]. rewrite Hc, IHfree, andb_true_r. apply negb_true_iff.
        apply in_tag_opens_tag in Hin.
        apply opens_tag_false in Hin as [->|[[r' ->]|Hno]]; [done| |].
        -- done.
        -- apply opens_tag_false. right; right. intros Hgt. by apply Hno, IHgt.
  - split.
    + rewrite !elem_of_cons. intros [?|?]; [by left|right; by apply IHgt].
    + cbn [tag_free]. by rewrite Hc, IHfree.
Qed.

Lemma sub_tags_tag_free l : tag_free (sub_tags l) = true.
Proof. by apply (sub_tags_spec (length l) l). Qed.

Lemma tag_free_tail c l : tag_free (c :: l) = true → tag_free l = true.
Proof. cbn [tag_free]. by intros [_ ?]%andb_true_iff. Qed.

Lemma isspace_lt : isspace "<" = false.
Proof. done. Qed.
Lemma isspace_gt : isspace ">" = false.
Proof. done. Qed.

Lemma tag_free_sub_spaces l : tag_free l = true → tag_free (sub_spaces l) = true.
Proof.
  induction l as [|c l IH]; [done|]. intros Hl.
  pose proof (IH (tag_free_tail _ _ Hl)) as IH'. cbn [sub_spaces].
  destruct (isspace c) eqn:Hc.
  - destruct l as [|c' l']; [done|]. destruct (isspace c'); [done|].
    cbn [tag_free]. by rewrite IH'.
  - cbn [tag_free] in Hl |- *. rewrite IH', andb_true_r.
    apply andb_true_iff in Hl as [Hl _].
    destruct (Ascii.eqb c "<"); [|done].
    apply negb_true_iff in Hl. apply negb_true_iff, opens_tag_false.
    apply opens_tag_false in Hl as [->|[[r' ->]|Hno]].
    + by left.
    + right; left. cbn [sub_spaces]. rewrite isspace_gt. eauto.
    + right; right. intros [?|Hsp]%sub_spaces_elem_of; [done|discriminate Hsp].
Qed.

Lemma tag_free_lstrip l : tag_free l = true → tag_free (lstrip_chars l) = true.
Proof.
  induction l as [|c l IH]; [done|]. intros Hl. simpl.
  destruct (isspace c); [|done]. by apply IH, (tag_free_tail c).
Qed.

Lemma tag_free_rstrip l : tag_free l = true → tag_free (rstrip_chars l) = true.
Proof.
  induction l as [|c l IH]; [done|]. intros Hl.
  pose proof (IH (tag_free_tail _ _ Hl)) as IH'. rewrite rstrip_chars_cons.
  destruct (forallb isspace (c :: l)); [done|].
  cbn [tag_free] in Hl |- *. rewrite IH', andb_true_r.
  apply andb_true_iff in Hl as [Hl _].
  destruct (Ascii.eqb c "<"); [|done].
  apply negb_true_iff in Hl. apply negb_true_iff, opens_tag_false.
  apply opens_tag_false in Hl as [->|[[r' ->]|Hno]].
  - by left.
  - right; left. destruct (rstrip_chars_nonspace_head ">" r' isspace_gt) as [k ->].
    eauto.
  - right; right. by intros ?%rstrip_chars_elem_of.
Qed.

(** *** Whitespace *)

Lemma sub_spaces_head_nonspace c l :
  isspace c = false → sub_spaces (c :: l) = c :: sub_spaces l.
Proof. intros Hc. cbn [sub_spaces]. by rewrite Hc. Qed.

Lemma sub_spaces_single l : single_spaced (sub_spaces l) = true.
Proof.
  induction l as [|c l IH]; [done|]. cbn [sub_spaces].
  destruct (isspace c) eqn:Hc.
  - destruct l as [|c' l']; [done|]. destruct (isspace c') eqn:Hc'; [done|].
    rewrite sub_spaces_head_nonspace in IH |- * by done.
    cbn [single_spaced] in IH |- *. rewrite Hc' in IH |- *. done.
  - cbn [single_spaced]. by rewrite Hc, IH.
Qed.

Lemma sub_spaces_fix l : single_spaced l = true → sub_spaces l = l.
Proof.
  induction l as [|c l IH]; [done|]. cbn [single_spaced sub_spaces].
  intros [Hc Hl]%andb_true_iff. rewrite (IH Hl).
  destruct (isspace c); [|done].
  apply andb_true_iff in Hc as [->%Ascii.eqb_eq Hn].
  destruct l as [|c' l']; [done|]. apply negb_true_iff in Hn. by rewrite Hn.
Qed.

Lemma single_spaced_tail c l : single_spaced (c :: l) = true → single_spaced l = true.
Proof. cbn [single_spaced]. by intros [_ ?]%andb_true_iff. Qed.

Lemma single_spaced_lstrip l :
  single_spaced l = true → single_spaced (lstrip_chars l) = true.
Proof.
  induction l as [|c l IH]; [done|]. intros Hl. simpl.
  destruct (isspace c); [|done]. by apply IH, (single_spaced_tail c).
Qed.

Lemma single_spaced_rstrip l :
  single_spaced l = true → single_spaced (rstrip_chars l) = true.
Proof.
  induction l as [|c l IH]; [done|]. intros Hl.
  pose proof (IH (single_spaced_tail _ _ Hl)) as IH'. rewrite rstrip_chars_cons.
  destruct (forallb isspace (c :: l)); [done|].
  cbn [single_spaced] in Hl |- *. rewrite IH', andb_true_r.
  apply andb_true_iff in Hl as [Hl _].
  destruct (isspace c); [|done].
  apply andb_true_iff in Hl as [-> Hn]. simpl.
  destruct l as [|c' l']; [done|]. apply negb_true_iff in Hn.
  destruct (rstrip_chars_nonspace_head c' l' Hn) as [k ->]. by rewrite Hn.
Qed.

Lemma single_spaced_lookup l i c :
  single_spaced l = true → l !! i = Some c → isspace c = true →
  c = " "%char ∧ ∀ c', l !! S i = Some c' → isspace c' = false.
Proof.
  revert i. induction l as [|x l IH]; intros i Hl Hi Hc; [done|].
  destruct i as [|i].
  - injection Hi as ->. cbn [single_spaced] in Hl. rewrite Hc in Hl.
    apply andb_true_iff in Hl as [[->%Ascii.eqb_eq Hn]%andb_true_iff _].
    split; [done|]. intros c' Hc'. destruct l as [|y l]; [done|].
    injection Hc' as ->. by apply negb_true_iff.
  - apply (IH i); [by apply (single_spaced_tail x)|done..].
Qed.

Lemma rstrip_chars_last l c :
  last (rstrip_chars l) = Some c → isspace c = false.
Proof.
  unfold rstrip_chars. rewrite last_reverse.
  destruct (lstrip_chars_head (reverse l)) as [->|(x & k & -> & Hx)]; [done|].
  simpl. by intros [= <-].
Qed.

Lemma lookup_last_of {A} (l : list A) i x :
  l !! i = Some x → l !! S i = None → last l = Some x.
Proof.
  intros Hi Hn. apply lookup_ge_None in Hn. pose proof (lookup_lt_Some _ _ _ Hi).
  rewrite last_lookup. replace (pred (length l)) with i by lia. done.
Qed.

(** X12. What [clean_text] leaves of a string: every whitespace character
    of the result is a single space that is neither the first nor the last
    character and is followed by a character that is not whitespace; no
    tag is left (the tag substitution changes nothing any more); and
    cleaning the result again gives it back. *)
Theorem clean_str_normal (s : string) :
  let t := list_ascii_of_string (clean_str s) in
  (∀ i c, t !! i = Some c → isspace c = true →
     c = " "%char ∧ 0 < i
     ∧ ∃ c', t !! S i = Some c' ∧ isspace c' = false)
  ∧ sub_tags t = t
  ∧ clean_str (clean_str s) = clean_str s.
Proof.
  intros t.
  set (u := sub_spaces (sub_tags (list_ascii_of_string s))).
  assert (t = rstrip_chars (lstrip_chars u)) as Ht.
  { unfold t, clean_str, strip. fold u.
    by rewrite !list_ascii_of_string_of_list_ascii. }
  assert (tag_free t = true) as Hfree.
  { rewrite Ht. apply tag_free_rstrip, tag_free_lstrip, tag_free_sub_spaces,
      sub_tags_tag_free. }
  assert (single_spaced t = true) as Hsingle.
  { rewrite Ht. apply single_spaced_rstrip, single_spaced_lstrip, sub_spaces_single. }
  assert (∀ c, head t = Some c → isspace c = false) as Hhead.
  { intros c. rewrite Ht.
    destruct (lstrip_chars_head u) as [->|(x & k & -> & Hx)]; [done|].
    destruct (rstrip_chars_nonspace_head x k Hx) as [k' ->]. simpl. congruence. }
  assert (∀ c, last t = Some c → isspace c = false) as Hlast.
  { intros c. rewrite Ht. apply rstrip_chars_last. }
  split; [|split].
  - intros i c Hi Hc.
    destruct (single_spaced_lookup t i c Hsingle Hi Hc) as [-> Hnext].
    split; [done|]. split.
    + destruct i; [|lia]. rewrite <- head_lookup in Hi.
      rewrite (Hhead _ Hi) in Hc. done.
    + destruct (t !! S i) as [c'|] eqn:Hn; [exists c'; eauto|].
      rewrite (Hlast _ (lookup_last_of t i _ Hi Hn)) in Hc. done.
  - by apply sub_tags_fix.
  - unfold clean_str at 1. fold t.
    rewrite (sub_tags_fix t Hfree), (sub_spaces_fix t Hsingle).
    unfold t. rewrite string_of_list_ascii_of_string.
    unfold clean_str. apply strip_idemp.
Qed.

(** ** The harvest stage: the date window *)

(** X13. [clamp_date] keeps a date exactly when it lies in the window,
    both ends included; it raises [TypeError] exactly when the date and a
    bound it is compared with differ in carrying a time zone ([until] is
    only looked at when the date is not before [since]); in every other
    case, and for no date, it answers [None]. *)
Theorem clamp_date_window (dt : option datetime) (since until : datetime) :
  (∀ d, clamp_date dt since until = Returns (Some d)
        ↔ dt = Some d
          ∧ tz_aware d = tz_aware since ∧ tz_aware d = tz_aware until
          ∧ (micros since ≤ micros d ≤ micros until)%Z)
  ∧ ((∃ e, clamp_date dt since until = Throws e)
     ↔ ∃ d, dt = Some d
          ∧ (tz_aware d ≠ tz_aware since
             ∨ ((micros since ≤ micros d)%Z ∧ tz_aware d ≠ tz_aware until)))
  ∧ (dt = None → clamp_date dt since until = Returns None).
Proof.
  destruct dt as [d|]; cbn [clamp_date].
  2:{ split; [intros d; split; [done|by intros [? _]]|].
      split; [|done]. split; [by intros [e ?]|by intros (d & ? & _)]. }
  unfold dt_lt, dt_gt.
  destruct (Bool.eqb (tz_aware d) (tz_aware since)) eqn:Hs; cbn [outcome_bind].
  2:{ apply Bool.eqb_false_iff in Hs.
      split; [intros d'; split; [done|]; by intros ([= <-] & ? & _)|].
      split; [|done]. split; [intros _; exists d; eauto|eauto]. }
  apply Bool.eqb_prop in Hs.
  destruct (micros d <? micros since)%Z eqn:Hlt.
  { apply Z.ltb_lt in Hlt.
    split; [intros d'; split; [done|]; intros ([= <-] & _ & _ & ?); lia|].
    split; [|done]. split; [by intros [e ?]|].
    intros (d' & [= <-] & [?|[? _]]); [congruence|lia]. }
  apply Z.ltb_ge in Hlt.
  destruct (Bool.eqb (tz_aware d) (tz_aware until)) eqn:Hu; cbn [outcome_bind].
  2:{ apply Bool.eqb_false_iff in Hu.
      split; [intros d'; split; [done|]; by intros ([= <-] & _ & ? & _)|].
      split; [|done]. split; [intros _; exists d; eauto|eauto]. }
  apply Bool.eqb_prop in Hu.
  destruct (micros until <? micros d)%Z eqn:Hgt.
  { apply Z.ltb_lt in Hgt.
    split; [intros d'; split; [done|]; intros ([= <-] & _ & _ & ?); lia|].
    split; [|done]. split; [by intros [e ?]|].
    intros (d' & [= <-] & [?|[_ ?]]); congruence. }
  apply Z.ltb_ge in Hgt.
  split; [|split; [|done]].
  - intros d'. split; [intros [= <-]; repeat split; done || lia|].
    by intros ([= <-] & _).
  - split; [by intros [e ?]|]. intros (d' & [= <-] & [?|[_ ?]]); congruence.
Qed.

Lemma clamp_date_Some d since until r :
  clamp_date (Some d) since until = Returns r →
  tz_aware d = tz_aware since
  ∧ (r = Some d ∧ tz_aware d = tz_aware until
              ∧ (micros since ≤ micros d ≤ micros until)%Z
     ∨ r = None ∧ ¬ (micros since ≤ micros d ≤ micros until)%Z).
Proof.
  cbn [clamp_date]. unfold dt_lt, dt_gt.
  destruct (Bool.eqb (tz_aware d) (tz_aware since)) eqn:Hs;
    cbn [outcome_bind]; [|done].
  apply Bool.eqb_prop in Hs.
  destruct (micros d <? micros since)%Z eqn:Hlt.
  { apply Z.ltb_lt in Hlt. intros [= <-]. split; [done|]. right. split; [done|lia]. }
  apply Z.ltb_ge in Hlt.
  destruct (Bool.eqb (tz_aware d) (tz_aware until)) eqn:Hu;
    cbn [outcome_bind]; [|done].
  apply Bool.eqb_prop in Hu.
  destruct (micros until <? micros d)%Z eqn:Hgt.
  { apply Z.ltb_lt in Hgt. intros [= <-]. split; [done|]. right. split; [done|lia]. }
  apply Z.ltb_ge in Hgt. intros [= <-]. split; [done|].
  left. repeat split; done || lia.
Qed.

Lemma clamp_date_naive_mismatch d since until :
  tz_aware d ≠ tz_aware since →
  clamp_date (Some d) since until
  = Throws (PyTypeError "can't compare offset-naive and offset-aware datetimes").
Proof.
  intros Hne. cbn [clamp_date]. unfold dt_lt.
  apply Bool.eqb_false_iff in Hne. by rewrite Hne.
Qed.

Section HarvestFacts.

Context (decode_utf8 : list ascii → string).
Context (py_str : pyval → string).
Context (parse_struct : struct_time → option datetime).
Context (dateparse : string → option datetime).
Context (isoformat : datetime → string).
Context (feed_entries : string → list entry).

#[local] Abbreviation clean_text := (clean_text decode_utf8 py_str).
#[local] Abbreviation entry_date := (entry_date parse_struct dateparse).
#[local] Abbreviation rss_row := (rss_row decode_utf8 py_str isoformat).
#[local] Abbreviation rss_entry :=
  (rss_entry decode_utf8 py_str parse_struct dateparse isoformat).
#[local] Abbreviation rss_entries :=
  (rss_entries decode_utf8 py_str parse_struct dateparse isoformat).
#[local] Abbreviation harvest_rss :=
  (harvest_rss decode_utf8 py_str parse_struct dateparse isoformat feed_entries).

Lemma extract_first_app s pre key post x :
  Forall (λ k, py_truthy (get_or_getattr s k) = false) pre →
  py_truthy (get_or_getattr s key) = true →
  extract_first s (pre ++ key :: post) x = get_or_getattr s key.
Proof.
  intros Hpre Hkey. revert x.
  induction Hpre as [|k pre Hk _ IH]; intros x; cbn [app extract_first].
  - by rewrite Hkey.
  - rewrite Hk. apply IH.
Qed.

Lemma extract_first_none s keys key x :
  Forall (λ k, py_truthy (get_or_getattr s k) = false) (keys ++ [key]) →
  extract_first s (keys ++ [key]) x = get_or_getattr s key.
Proof.
  revert x. induction keys as [|k keys IH]; intros x Hall; cbn [app extract_first].
  - inversion_clear Hall as [|? ? Hk _]. by rewrite Hk.
  - inversion_clear Hall as [|? ? Hk Hrest]. rewrite Hk. by apply IH.
Qed.

(** X14. [clean_text] on a value that is not a string.  It answers [None]
    for [None] only.  On a mapping or an object, the keys [title],
    [value], [label], [name], [text] are tried in that order and the first
    one whose value is true decides: a string is cleaned, bytes are decoded
    and cleaned, and for anything else the text of the whole value is
    cleaned.  When no key has a true value, the value of [text], the last
    key tried, decides in the same way. *)
Theorem clean_text_first_key (s : pyval) :
  (clean_text s = None ↔ s = PNone)
  ∧ (∀ pre key post,
       TEXT_KEYS = pre ++ key :: post →
       Forall (λ k, py_truthy (get_or_getattr s k) = false) pre →
       py_truthy (get_or_getattr s key) = true →
       clean_text s
       = Some (clean_str match get_or_getattr s key with
                         | PStr t => t
                         | PBytes b => decode_utf8 b
                         | _ => py_str s
                         end))
  ∧ (match s with PDict _ | PObj _ | PNum _ => True | _ => False end →
     Forall (λ k, py_truthy (get_or_getattr s k) = false) TEXT_KEYS →
     clean_text s
     = Some (clean_str match get_or_getattr s "text" with
                       | PStr t => t
                       | PBytes b => decode_utf8 b
                       | _ => py_str s
                       end)).
Proof.
  split; [|split].
  - destruct s; simpl; split; done.
  - intros pre key post Hkeys Hpre Hkey.
    assert (match s with PDict _ | PObj _ => True | _ => False end) as Hs
      by (destruct s; done).
    assert (clean_text s
            = let extracted := extract_first s TEXT_KEYS PNone in
              let extracted := match extracted with
                               | PBytes b => PStr (decode_utf8 b)
                               | _ => extracted
                               end in
              Some (clean_str match extracted with
                              | PStr t => t
                              | _ => py_str s
                              end)) as ->
      by (destruct s; done).
    cbv zeta. rewrite Hkeys, (extract_first_app s pre key post PNone Hpre Hkey).
    by destruct (get_or_getattr s key).
  - intros Hs Hall.
    assert (clean_text s
            = let extracted := extract_first s TEXT_KEYS PNone in
              let extracted := match extracted with
                               | PBytes b => PStr (decode_utf8 b)
                               | _ => extracted
                               end in
              Some (clean_str match extracted with
                              | PStr t => t
                              | _ => py_str s
                              end)) as ->
      by (destruct s; done).
    cbv zeta. change TEXT_KEYS with (["title"; "value"; "label"; "name"] ++ ["text"]).
    rewrite (extract_first_none s ["title"; "value"; "label"; "name"] "text" PNone Hall).
    by destruct (get_or_getattr s "text").
Qed.

Lemma rss_entries_Returns since until es rows :
  rss_entries since until es = Returns rows →
  rows = (λ e, rss_row e (entry_date e))
           <$> filter (λ e, in_window since until (entry_date e) = true) es.
Proof.
  revert rows. induction es as [|e es IH]; intros rows; cbn [rss_entries].
  - by intros [= <-].
  - unfold rss_entry at 1. rewrite filter_cons.
    destruct (entry_date e) as [d|] eqn:Hd.
    + destruct (clamp_date (Some d) since until) as [r|err] eqn:Hc;
        cbn [outcome_bind]; [|done].
      apply clamp_date_Some in Hc as [_ [(-> & _ & Hin)|[-> Hout]]];
        cbn [outcome_bind].
      * destruct (rss_entries since until es) as [rows'|] eqn:Hes;
          cbn [outcome_bind]; [|done].
        intros [= <-]. rewrite decide_True by (cbn [in_window]; lia).
        rewrite fmap_cons, Hd. f_equal. by apply IH.
      * destruct (rss_entries since until es) as [rows'|] eqn:Hes;
          cbn [outcome_bind]; [|done].
        intros [= <-]. rewrite decide_False by (cbn [in_window]; lia).
        by apply IH.
    + cbn [outcome_bind].
      destruct (rss_entries since until es) as [rows'|] eqn:Hes;
        cbn [outcome_bind]; [|done].
      intros [= <-]. rewrite decide_True by done.
      rewrite fmap_cons, Hd. f_equal. by apply IH.
Qed.

(** X15. The records [harvest_rss] collects are those of the entries, in
    the order of the feeds, whose date lies in the window, both ends
    included, or could not be determined: an entry without a usable date
    is kept, with a null [date_pub].  Every record has a [date_pub] that
    is null or the ISO form of a date in the window, and [type_source]
    [Presse] and [source_type] [rss]. *)
Theorem harvest_rss_window (urls : list string) (since until : datetime)
    (rows : list record) :
  harvest_rss urls since until = Returns rows →
  rows = (λ e, rss_row e (entry_date e))
           <$> filter (λ e, in_window since until (entry_date e) = true) (urls ≫= feed_entries)
  ∧ length rows ≤ length (urls ≫= feed_entries)
  ∧ ∀ r, r ∈ rows →
      (assoc "date_pub" r = Some PNone
       ∨ ∃ d, (micros since ≤ micros d ≤ micros until)%Z
              ∧ assoc "date_pub" r = Some (PStr (isoformat d)))
      ∧ assoc "type_source" r = Some (PStr "Presse")
      ∧ assoc "source_type" r = Some (PStr "rss").
Proof.
  intros Hrows%rss_entries_Returns. split; [done|]. split.
  - rewrite Hrows, length_fmap. apply length_filter.
  - intros r Hr. rewrite Hrows in Hr.
    apply list_elem_of_fmap in Hr as (e & -> & He).
    apply list_elem_of_filter in He as [Hwin _].
    split; [|done]. unfold rss_row. cbn [assoc String.eqb Ascii.eqb Bool.eqb iso_or_none].
    destruct (entry_date e) as [d|]; [|by left].
    right. exists d. cbn [in_window] in Hwin. split; [lia|done].
Qed.

Lemma clamp_date_Throws dt since until x :
  clamp_date dt since until = Throws x →
  x = PyTypeError "can't compare offset-naive and offset-aware datetimes".
Proof.
  destruct dt as [d|]; cbn [clamp_date]; [|done]. unfold dt_lt, dt_gt.
  destruct (Bool.eqb (tz_aware d) (tz_aware since)); cbn [outcome_bind];
    [|by intros [= <-]].
  destruct (micros d <? micros since)%Z; [done|].
  destruct (Bool.eqb (tz_aware d) (tz_aware until)); cbn [outcome_bind];
    [|by intros [= <-]].
  by destruct (micros until <? micros d)%Z.
Qed.

Lemma rss_entries_Throws since until es x :
  rss_entries since until es = Throws x →
  x = PyTypeError "can't compare offset-naive and offset-aware datetimes".
Proof.
  induction es as [|e es IH]; cbn [rss_entries]; [done|].
  unfold rss_entry. destruct (entry_date e) as [d|].
  - destruct (clamp_date (Some d) since until) as [r|err] eqn:Hc;
      cbn [outcome_bind]; [|intros [= <-]; by apply clamp_date_Throws in Hc].
    destruct r; cbn [outcome_bind];
      (destruct (rss_entries since until es); cbn [outcome_bind];
       [done|intros [= <-]; by apply IH]).
  - cbn [outcome_bind].
    destruct (rss_entries since until es); cbn [outcome_bind];
      [done|intros [= <-]; by apply IH].
Qed.

(** X16. When some entry has a date that carries a time zone while
    [since] does not, or the other way round, [harvest_rss] ends in a
    [TypeError] and collects nothing. *)
Theorem harvest_rss_type_error (urls : list string) (since until : datetime)
    (e : entry) (d : datetime) :
  e ∈ urls ≫= feed_entries → entry_date e = Some d →
  tz_aware d ≠ tz_aware since →
  harvest_rss urls since until
  = Throws (PyTypeError "can't compare offset-naive and offset-aware datetimes").
Proof.
  intros He Hd Hne. unfold harvest_rss.
  assert (∃ x, rss_entries since until (urls ≫= feed_entries) = Throws x)
    as [x Hx]; [|by rewrite Hx, (rss_entries_Throws _ _ _ _ Hx)].
  induction (urls ≫= feed_entries) as [|e' es IH];
    [by apply elem_of_nil in He|].
  cbn [rss_entries]. apply elem_of_cons in He as [<-|He].
  - unfold rss_entry. rewrite Hd, clamp_date_naive_mismatch by done. eauto.
  - destruct (rss_entry since until e') as [r|x]; cbn [outcome_bind]; [|eauto].
    destruct (IH He) as [x ->]. eauto.
Qed.

End HarvestFacts.

(** ** The harvest stage: the windows of the GDELT queries *)

Lemma days_in_month_bounds y m : (28 ≤ days_in_month y m ≤ 31)%Z.
Proof.
  unfold days_in_month.
  destruct (m =? 2)%Z; [destruct (is_leap y); lia|].
  destruct ((m =? 4) || (m =? 6) || (m =? 9) || (m =? 11))%Z; lia.
Qed.

Lemma valid_date_bounds d :
  valid_date d = true →
  (1 ≤ year d ≤ 9999 ∧ 1 ≤ month d ≤ 12
   ∧ 1 ≤ day d ≤ days_in_month (year d) (month d))%Z.
Proof.
  unfold valid_date. rewrite !andb_true_iff, !Z.leb_le. lia.
Qed.

Lemma add_days_within n d :
  (day d + Z.of_nat n ≤ days_in_month (year d) (month d))%Z →
  add_days n d
  = Returns {| year := year d; month := month d; day := (day d + Z.of_nat n)%Z |}.
Proof.
  revert d. induction n as [|n IH]; intros d Hn; cbn [add_days].
  - destruct d as [y m k]. cbn [year month day]. do 2 f_equal. lia.
  - unfold tomorrow. rewrite (proj2 (Z.ltb_lt _ _)) by lia.
    cbn [outcome_bind]. rewrite IH by (cbn [year month day]; lia).
    cbn [year month day]. do 2 f_equal. lia.
Qed.

Lemma add_days_app a b d :
  add_days (a + b) d = let+ d' := add_days a d in add_days b d'.
Proof.
  revert d. induction a as [|a IH]; intros d; cbn [add_days Nat.add outcome_bind];
    [done|].
  destruct (tomorrow d) as [d'|e]; cbn [outcome_bind]; [apply IH|done].
Qed.

Lemma month_index_first d :
  (1 ≤ month d ≤ 12)%Z → day d = 1%Z → month_first (month_index d) = d.
Proof.
  intros Hm Hd. destruct d as [y m k]. cbn [month day] in Hm, Hd. subst k.
  unfold month_first, month_index. cbn [year month].
  assert ((y * 12 + (m - 1)) / 12 = y)%Z as -> by (symmetry; apply (Z.div_unique _ _ _ (m - 1)); lia).
  assert ((y * 12 + (m - 1)) mod 12 = m - 1)%Z as -> by (symmetry; apply (Z.mod_unique _ _ y); lia).
  f_equal. lia.
Qed.

Lemma month_first_index i : month_index (month_first i) = i.
Proof.
  unfold month_first, month_index. cbn [year month].
  pose proof (Z.div_mod i 12). lia.
Qed.

Lemma month_first_succ i :
  (i / 12 < 9999 ∨ i mod 12 < 11)%Z →
  next_month (month_first i) = Returns (month_first (i + 1)).
Proof.
  intros Hi. unfold next_month, month_first. cbn [year month].
  pose proof (Z.mod_pos_bound i 12 ltac:(lia)) as Hmod.
  pose proof (Z.div_mod i 12 ltac:(lia)) as Hdm.
  destruct (i mod 12 + 1 =? 12)%Z eqn:Hdec.
  - apply Z.eqb_eq in Hdec. rewrite (proj2 (Z.leb_le _ _)) by lia.
    assert ((i + 1) / 12 = i / 12 + 1)%Z as ->
      by (symmetry; apply (Z.div_unique _ _ _ 0); lia).
    assert ((i + 1) mod 12 = 0)%Z as ->
      by (symmetry; apply (Z.mod_unique _ _ (i / 12 + 1)); lia).
    done.
  - apply Z.eqb_neq in Hdec.
    assert ((i + 1) / 12 = i / 12)%Z as ->
      by (symmetry; apply (Z.div_unique _ _ _ (i mod 12 + 1)); lia).
    assert ((i + 1) mod 12 = i mod 12 + 1)%Z as ->
      by (symmetry; apply (Z.mod_unique _ _ (i / 12)); lia).
    done.
Qed.

Lemma date_le_spec a b :
  date_le a b = true
  ↔ (year a < year b
     ∨ year a = year b ∧ (month a < month b
                          ∨ month a = month b ∧ day a ≤ day b))%Z.
Proof.
  unfold date_le.
  rewrite !orb_true_iff, !andb_true_iff, !orb_true_iff, !andb_true_iff,
    !Z.ltb_lt, !Z.eqb_eq, Z.leb_le. done.
Qed.

Lemma date_le_month_first i d2 :
  (1 ≤ month d2 ≤ 12)%Z → (1 ≤ day d2)%Z →
  date_le (month_first i) d2 = true ↔ (i ≤ month_index d2)%Z.
Proof.
  intros Hm Hd. rewrite date_le_spec. unfold month_first, month_index.
  cbn [year month day].
  pose proof (Z.mod_pos_bound i 12 ltac:(lia)) as Hmod.
  pose proof (Z.div_mod i 12 ltac:(lia)) as Hdm. split; lia.
Qed.

(** The months [month_iter] yields from the first day of a month. *)
Lemma month_iter_closed n : ∀ fuel i d2,
  valid_date d2 = true →
  (year d2 < 9999 ∨ month d2 < 12)%Z →
  n = Z.to_nat (month_index d2 - i + 1) → n < fuel →
  month_iter fuel (month_first i) d2
  = Some (Returns ((λ k, month_first (i + Z.of_nat k)) <$> seq 0 n)).
Proof.
  induction n as [|n IH]; intros fuel i d2 Hv Hy Hn Hfuel;
    destruct (valid_date_bounds d2 Hv) as (Hy2 & Hm & Hd).
  - destruct fuel as [|fuel]; [lia|]. cbn [month_iter].
    destruct (date_le (month_first i) d2) eqn:Hle; [|done].
    apply date_le_month_first in Hle; lia.
  - destruct fuel as [|fuel]; [lia|]. cbn [month_iter].
    assert (i ≤ month_index d2)%Z as Hi by lia.
    rewrite (proj2 (date_le_month_first i d2 Hm ltac:(lia))) by done.
    rewrite month_first_succ.
    2:{ unfold month_index in Hi.
        pose proof (Z.mod_pos_bound i 12 ltac:(lia)).
        pose proof (Z.div_mod i 12 ltac:(lia)). lia. }
    rewrite (IH fuel (i + 1)%Z d2) by (done || lia).
    cbn [seq fmap list_fmap]. do 3 f_equal.
    + f_equal. lia.
    + rewrite <- fmap_S_seq, <- list_fmap_compose. apply list_fmap_ext.
      intros k j _. simpl. f_equal. lia.
Qed.

Lemma month_end_last i :
  (1 ≤ i / 12)%Z → (i / 12 < 9999 ∨ i mod 12 < 11)%Z →
  month_end (month_first i) = Returns (month_last i).
Proof.
  intros Hy1 Hy. unfold month_end, month_first, month_last, replace_day.
  cbn [year month day].
  pose proof (Z.mod_pos_bound i 12 ltac:(lia)) as Hmod.
  set (y := (i / 12)%Z) in *. set (m := (i mod 12 + 1)%Z) in *.
  pose proof (days_in_month_bounds y m) as Hdim.
  set (k := Z.to_nat (days_in_month y m - 28)).
  replace 4 with (k + (1 + (3 - k))) by lia.
  rewrite add_days_app, add_days_within by (cbn [year month day]; lia).
  cbn [outcome_bind year month day]. rewrite add_days_app.
  cbn [add_days]. unfold tomorrow at 1. cbn [year month day].
  rewrite (proj2 (Z.ltb_ge _ _)) by lia.
  destruct (m <? 12)%Z eqn:Hm12.
  - apply Z.ltb_lt in Hm12. cbn [outcome_bind].
    pose proof (days_in_month_bounds y (m + 1)).
    rewrite add_days_within by (cbn [year month day]; lia).
    cbn [year month day]. unfold yesterday. cbn [year month day].
    rewrite (proj2 (Z.ltb_ge 1 1)) by lia. cbn [outcome_bind year month day].
    rewrite (proj2 (Z.ltb_lt 1 (m + 1))) by lia.
    do 2 f_equal; [lia|f_equal; lia].
  - apply Z.ltb_ge in Hm12.
    rewrite (proj2 (Z.ltb_lt y 9999)) by (unfold m in Hm12; lia).
    cbn [outcome_bind].
    pose proof (days_in_month_bounds (y + 1) 1).
    rewrite add_days_within by (cbn [year month day]; lia).
    cbn [year month day]. unfold yesterday. cbn [year month day].
    rewrite (proj2 (Z.ltb_ge 1 1)) by lia. cbn [outcome_bind year month day].
    rewrite (proj2 (Z.ltb_ge 1 1)) by lia.
    rewrite (proj2 (Z.ltb_lt 1 (y + 1))) by lia.
    assert (m = 12)%Z as -> by (unfold m in *; lia).
    do 2 f_equal; lia.
Qed.

Lemma month_index_replace_day n d : month_index (replace_day n d) = month_index d.
Proof. done. Qed.

Lemma month_window_closed until_date i :
  valid_date until_date = true →
  (year until_date < 9999 ∨ month until_date < 12)%Z →
  (1 ≤ i / 12)%Z → (i ≤ month_index until_date)%Z →
  month_window until_date (month_first i)
  = Returns (month_first i,
             if (i <? month_index until_date)%Z then month_last i
             else until_date).
Proof.
  intros Hv Hy Hi1 Hi. destruct (valid_date_bounds _ Hv) as (Hy2 & Hm2 & Hd2).
  pose proof (Z.mod_pos_bound i 12 ltac:(lia)) as Hmod.
  pose proof (Z.div_mod i 12 ltac:(lia)) as Hdm.
  unfold month_index in Hi |- *. unfold month_window.
  rewrite month_end_last by lia. cbn [outcome_bind]. do 2 f_equal.
  unfold date_gt. destruct (i <? _)%Z eqn:Hlt.
  - apply Z.ltb_lt in Hlt.
    rewrite (proj2 (date_le_spec (month_last i) until_date)); [done|].
    unfold month_last. cbn [year month day]. lia.
  - apply Z.ltb_ge in Hlt.
    assert (i / 12 = year until_date ∧ i mod 12 + 1 = month until_date)%Z
      as [Hyear Hmonth] by lia.
    destruct (date_le (month_last i) until_date) eqn:Hle; [|done].
    apply date_le_spec in Hle. unfold month_last in Hle |- *.
    cbn [year month day] in Hle. cbn [negb].
    destruct until_date as [y2 m2 k2]. cbn [year month day] in *.
    rewrite Hyear, Hmonth in Hle |- *. f_equal. lia.
Qed.

Lemma month_windows_closed until_date (l : list Z) :
  valid_date until_date = true →
  (year until_date < 9999 ∨ month until_date < 12)%Z →
  Forall (λ i, 1 ≤ i / 12 ∧ i ≤ month_index until_date)%Z l →
  month_windows until_date (month_first <$> l)
  = Returns ((λ i, (month_first i,
                    if (i <? month_index until_date)%Z then month_last i
                    else until_date)) <$> l).
Proof.
  intros Hv Hy. induction 1 as [|i l [Hi1 Hi] _ IH]; [done|].
  rewrite !fmap_cons. cbn [month_windows].
  rewrite month_window_closed by done. cbn [outcome_bind].
  by rewrite IH.
Qed.

(** X17. The windows [harvest_gdelt] queries.  For valid dates, [until]
    not in December 9999, and enough fuel for the loop, there is one
    window for every calendar month from the month of [since] to the month
    of [until]; each runs from the first day of its month to its last day,
    except that the window of the month of [until] ends on [until].  So
    when [since] is not after [until], the first window starts on the
    first day of the month of [since], on or before [since] itself, and
    the last window ends on [until]. *)
Theorem gdelt_windows_months (fuel : nat) (since_date until_date : date) :
  valid_date since_date = true → valid_date until_date = true →
  (year until_date < 9999 ∨ month until_date < 12)%Z →
  let i0 := month_index since_date in
  let i1 := month_index until_date in
  let n := Z.to_nat (i1 - i0 + 1) in
  n < fuel →
  ∃ ws, gdelt_windows fuel since_date until_date = Some (Returns ws)
    ∧ ws = (λ k, let i := (i0 + Z.of_nat k)%Z in
                 (month_first i,
                  if (i <? i1)%Z then month_last i else until_date))
             <$> seq 0 n
    ∧ (date_le since_date until_date = true →
         (∃ mend, ws !! 0 = Some (replace_day 1 since_date, mend))
         ∧ date_le (replace_day 1 since_date) since_date = true
         ∧ ∃ mstart, last ws = Some (mstart, until_date)).
Proof.
  intros Hv1 Hv2 Hy i0 i1 n Hfuel.
  destruct (valid_date_bounds _ Hv1) as (Hy1 & Hm1 & Hd1).
  destruct (valid_date_bounds _ Hv2) as (Hy2 & Hm2 & Hd2).
  assert (replace_day 1 since_date = month_first i0) as Hstart.
  { symmetry. unfold i0. rewrite <- (month_index_replace_day 1 since_date).
    by apply month_index_first. }
  eexists. split; [|split; [reflexivity|]].
  - unfold gdelt_windows. rewrite Hstart.
    rewrite (month_iter_closed n fuel i0 until_date) by done.
    rewrite (list_fmap_compose (λ k, (i0 + Z.of_nat k)%Z) month_first).
    rewrite month_windows_closed; [|done..|].
    + by rewrite <- list_fmap_compose.
    + apply Forall_fmap, Forall_forall. intros k Hk%elem_of_seq. simpl.
      unfold i0, i1, n, month_index in *. split; [|lia].
      apply Z.div_le_lower_bound; lia.
  - intros Hle. apply date_le_spec in Hle.
    assert (i0 ≤ i1)%Z as Hi by (unfold i0, i1, month_index; lia).
    assert (∃ n', n = S n') as [n' Hn'] by (exists (pred n); lia).
    split; [|split].
    + rewrite Hn'. cbn [seq fmap list_fmap]. rewrite Z.add_0_r, <- Hstart.
      simpl. eauto.
    + apply date_le_spec. unfold replace_day. cbn [year month day]. lia.
    + rewrite Hn', seq_S, fmap_app. cbn [fmap list_fmap].
      rewrite last_snoc. cbn [Nat.add].
      replace (i0 + Z.of_nat n')%Z with i1 by lia.
      rewrite Z.ltb_irrefl. eauto.
Qed.

(** ** The harvest stage: the records of OpenAlex *)

Lemma outcome_bind_Returns {A B} (m : outcome A) (k : A → outcome B) b :
  outcome_bind m k = Returns b → ∃ a, m = Returns a ∧ k a = Returns b.
Proof. destruct m as [a|e]; cbn [outcome_bind]; [eauto|done]. Qed.

Lemma source_field_null_source w pl key :
  dict_get w "primary_location" PNone = Returns (PDict pl) →
  assoc "source" pl = Some PNone →
  source_field w key = Throws (no_attribute PNone "get").
Proof.
  intros Hpl Hsrc. unfold source_field. rewrite Hpl. cbn [outcome_bind].
  assert (pl ≠ []) as Hne by (by intros ->).
  unfold py_or. cbn [py_truthy]. destruct pl as [|x pl]; [done|].
  cbn [dict_get]. rewrite Hsrc. done.
Qed.

(** X18. A work whose [primary_location] has a null [source] makes the
    record of [harvest_openalex] fail: reading the source's fields raises
    [AttributeError] on [None], with or without a DOI, so no record is
    ever returned for such a work. *)
Theorem openalex_null_source (w : pyval) (pl : list (string * pyval)) :
  dict_get w "primary_location" PNone = Returns (PDict pl) →
  assoc "source" pl = Some PNone →
  (∀ key, source_field w key
          = Throws (PyAttributeError
                      "'NoneType' object has no attribute 'get'"))
  ∧ ∃ e, openalex_row w = Throws e.
Proof.
  intros Hpl Hsrc.
  assert (∀ key, source_field w key = Throws (no_attribute PNone "get")) as Hsf
    by (intros key; by apply (source_field_null_source w pl)).
  split; [done|].
  destruct (openalex_row w) as [r|e] eqn:Hrow; [|eauto]. exfalso.
  unfold openalex_row in Hrow.
  repeat (apply outcome_bind_Returns in Hrow as (? & ? & Hrow)).
  match goal with
  | H : source_field w "display_name" = Returns _ |- _ =>
      rewrite Hsf in H; discriminate H
  end.
Qed.

(** X19. The fields of a record [harvest_openalex] does build.  The work
    is an object; [lien] is its DOI when that is true, else the homepage
    of the source of its primary location when that is true, else its
    [id]; [date_pub] is its [publication_date] when that is true, else the
    part of [from_indexed_date] before the first [T] (the empty string
    when that is missing); [source_name] is the display name of that
    source; [titre] and [langue] are copied; the rest is fixed. *)
Theorem openalex_row_fields (w : pyval) (r : record) :
  openalex_row w = Returns r →
  ∃ items home name,
    w = PDict items
    ∧ (py_truthy (default PNone (assoc "doi" items)) = false →
         source_field w "homepage_url" = Returns home)
    ∧ source_field w "display_name" = Returns name
    ∧ assoc "lien" r
      = Some (py_or (py_or (default PNone (assoc "doi" items)) home)
                (default PNone (assoc "id" items)))
    ∧ (assoc "date_pub" r
       = Some (default PNone (assoc "publication_date" items))
       ∧ py_truthy (default PNone (assoc "publication_date" items)) = true
       ∨ py_truthy (default PNone (assoc "publication_date" items)) = false
         ∧ ∃ s, py_or (default PNone (assoc "from_indexed_date" items)) (PStr "")
                = PStr s
                ∧ assoc "date_pub" r
                  = Some (PStr (string_of_list_ascii
                                  (before_T (list_ascii_of_string s)))))
    ∧ assoc "source_name" r = Some name
    ∧ assoc "titre" r = Some (default PNone (assoc "title" items))
    ∧ assoc "langue" r = Some (default PNone (assoc "language" items))
    ∧ assoc "type_source" r = Some (PStr ACADEMIQUE)
    ∧ assoc "source_type" r = Some (PStr "openalex")
    ∧ assoc "extrait_citation" r = Some PNone
    ∧ assoc "source_country" r = Some PNone.
Proof.
  intros Hrow. unfold openalex_row in Hrow.
  destruct w as [| | | | | |items|]; try done. cbn [dict_get outcome_bind] in Hrow.
  apply outcome_bind_Returns in Hrow as (link & Hlink & Hrow).
  apply outcome_bind_Returns in Hrow as (date_pub & Hdate & Hrow).
  apply outcome_bind_Returns in Hrow as (lien & Hlien & Hrow).
  apply outcome_bind_Returns in Hrow as (cs & _ & Hrow).
  apply outcome_bind_Returns in Hrow as (names & _ & Hrow).
  apply outcome_bind_Returns in Hrow as (mots & _ & Hrow).
  apply outcome_bind_Returns in Hrow as (name & Hname & Hrow).
  injection Hrow as <-.
  exists items, link, name. split; [done|].
  set (doi := default PNone (assoc "doi" items)) in *.
  set (pub := default PNone (assoc "publication_date" items)) in *.
  split; [by intros Hf; rewrite Hf in Hlink|]. split; [done|].
  split; [|split].
  - cbn [assoc String.eqb Ascii.eqb Bool.eqb]. f_equal.
    unfold py_or. destruct (py_truthy doi) eqn:Hdoi.
    + injection Hlink as <-. rewrite Hdoi in Hlien |- *. by injection Hlien as <-.
    + destruct (py_truthy link); by injection Hlien as <-.
  - cbn [assoc String.eqb Ascii.eqb Bool.eqb].
    destruct (py_truthy pub) eqn:Hpub.
    + left. by injection Hdate as <-.
    + right. split; [done|].
      destruct (py_or (default PNone (assoc "from_indexed_date" items)) (PStr ""))
        as [|s| | | | | |]; try done.
      exists s. split; [done|]. by injection Hdate as <-.
  - done.
Qed.

(** ** The reference instances meet their contracts *)

Section InsertionArgsort.

Variable before : Z → Z → bool.
Hypothesis before_le : ∀ a b, before a b = true → (a ≤ b)%Z.
Hypothesis not_before_ge : ∀ a b, before a b = false → (b ≤ a)%Z.

Lemma insert_index_Permutation ks i l :
  insert_index before ks i l ≡ₚ i :: l.
Proof using All.
  induction l as [|j l IH]; simpl; [done|].
  destruct (before _ _); [done|]. rewrite IH. apply Permutation_swap.
Qed.

Lemma insertion_argsort_Permutation ks :
  insertion_argsort before ks ≡ₚ seq 0 (length ks).
Proof using All.
  unfold insertion_argsort. induction (seq 0 (length ks)) as [|i l IH]; simpl.
  - done.
  - by rewrite insert_index_Permutation, IH.
Qed.

Lemma insert_index_sorted (ks : list Z) i l :
  StronglySorted (λ a b, (ks !!! a ≤ ks !!! b)%Z) l →
  StronglySorted (λ a b, (ks !!! a ≤ ks !!! b)%Z)
    (insert_index before ks i l).
Proof using All.
  induction 1 as [|j l HS IH Hj]; simpl; [repeat constructor|].
  destruct (before (ks !!! i) (ks !!! j)) eqn:Hb.
  - apply before_le in Hb. constructor; [by constructor|].
    constructor; [done|].
    eapply Forall_impl; [exact Hj|]. simpl. intros k Hk. lia.
  - apply not_before_ge in Hb. constructor; [done|].
    rewrite insert_index_Permutation. by constructor.
Qed.

Lemma insertion_argsort_sorted ks :
  StronglySorted Z.le ((λ i, ks !!! i) <$> insertion_argsort before ks).
Proof using All.
  apply (StronglySorted_fmap _ (λ a b, (ks !!! a ≤ ks !!! b)%Z)); [done|].
  unfold insertion_argsort. induction (seq 0 (length ks)) as [|i l IH]; simpl.
  - constructor.
  - by apply insert_index_sorted.
Qed.

Lemma insertion_argsort_spec : ArgsortSpec (insertion_argsort before).
Proof using All.
  split; [apply insertion_argsort_Permutation | apply insertion_argsort_sorted].
Qed.

End InsertionArgsort.

#[global] Instance stable_argsort_spec : ArgsortSpec stable_argsort.
Proof.
  apply insertion_argsort_spec; intros a b H; lia.
Defined.


Lemma sample_ratio_sym a b : sample_ratio a b = sample_ratio b a.
Proof.
  unfold sample_ratio.
  destruct (String.words a) as [|x wa], (String.words b) as [|y wb]; try done.
  by rewrite orb_comm.
Qed.

(** ** The theorems at concrete inputs *)

#[local] Abbreviation scenario_normalized :=
  (frame_of (normalize sample_to_datetime urlsplit_netloc scenario_raw)).
#[local] Abbreviation messy_normalized :=
  (frame_of (normalize sample_to_datetime urlsplit_netloc messy_raw)).

Lemma scenario_normalize :
  normalize sample_to_datetime urlsplit_netloc scenario_raw = Ok scenario_normalized.
Proof. by vm_compute. Defined.

Lemma messy_normalize :
  normalize sample_to_datetime urlsplit_netloc messy_raw = Ok messy_normalized.
Proof. by vm_compute. Defined.

Lemma dedupe_absorbs_iff_witness :
  normalized scenario = true
  ∧ (seen_at sample_ratio 90
       (sort_rows_date_desc stable_argsort (rows scenario)) 1 !!! 1 = true
     ↔ dup_condition sample_ratio 90
         (sort_rows_date_desc stable_argsort (rows scenario) !!! 0)
         (sort_rows_date_desc stable_argsort (rows scenario) !!! 1)).
Proof.
  split; [by vm_compute|].
  destruct (dedupe_absorbs_iff sample_ratio stable_argsort 90 scenario eq_refl)
    as (out & _ & _ & Hstep & _).
  apply (Hstep 0 1); [split; vm_compute; lia | by vm_compute..].
Defined.

Lemma dedupe_subsequence_witness :
  normalized scenario = true
  ∧ ∃ out, dedupe sample_ratio stable_argsort 90 scenario = Ok out
      ∧ columns out = columns scenario
      ∧ rows out `sublist_of` sort_rows_date_desc stable_argsort (rows scenario)
      ∧ ∀ r, r ∈ rows out → r ∈ rows scenario.
Proof.
  split; [by vm_compute|].
  destruct (dedupe_subsequence sample_ratio stable_argsort 90 scenario eq_refl)
    as (out & H1 & H2 & _ & _ & H5 & _ & H7 & _).
  exists out. auto.
Defined.

Lemma dedupe_idempotent_witness :
  normalized scenario = true
  ∧ ∃ out out2, dedupe sample_ratio stable_argsort 90 scenario = Ok out
      ∧ normalized out = true
      ∧ dedupe sample_ratio stable_argsort 90 out = Ok out2
      ∧ rows out2 ≡ₚ rows out.
Proof.
  split; [by vm_compute|].
  destruct (dedupe_idempotent sample_ratio stable_argsort 90 scenario
              sample_ratio_sym eq_refl)
    as (out & out2 & H1 & Hn & H2 & _ & H4 & _).
  exists out, out2. auto.
Defined.


Lemma empty_titles_dropped_witness :
  normalize sample_to_datetime urlsplit_netloc messy_raw = Ok messy_normalized
  ∧ titles (rows messy_normalized)
    = [CStr "AI bias in hiring tools"; CStr ""; CStr ""; CStr "Unrelated topic"]
  ∧ ∃ out, dedupe sample_ratio stable_argsort 90
             (query_titre_nonempty (dropna_titre messy_normalized)) = Ok out
      ∧ ∀ r, r ∈ rows out →
          ∃ s, r !!! "titre" = CStr s ∧ s ≠ "" ∧ strip s = s.
Proof.
  split; [exact messy_normalize|]. split; [by vm_compute|].
  destruct (empty_titles_dropped sample_ratio sample_to_datetime stable_argsort
              urlsplit_netloc messy_raw messy_normalized messy_normalize)
    as (_ & _ & out & Hout & Hrows).
  exists out. split; [done|]. intros r Hr. by apply Hrows.
Defined.

Lemma normalize_schema_complete_witness :
  Forall (λ x, textual x = true) (col "titre" linkonly_raw)
  ∧ Forall (λ x, textual x = true) (col "lien" linkonly_raw)
  ∧ urlsplit_netloc (strip "https://x.example/a") = Ok "x.example"
  ∧ sample_to_datetime (replicate (length (rows linkonly_raw)) CNull)
    = replicate (length (rows linkonly_raw)) None
  ∧ ∃ dfn, normalize sample_to_datetime urlsplit_netloc linkonly_raw = Ok dfn
      ∧ (∀ c, c ∈ SCHEMA → c ∈ columns dfn)
      ∧ col "titre" dfn = [CStr ""]
      ∧ col "langue" dfn = [CNull]
      ∧ col "date_pub" dfn = [CNull].
Proof.
  assert (Forall (λ x, textual x = true) (col "titre" linkonly_raw)) as Ht
    by (by repeat constructor).
  assert (Forall (λ x, textual x = true) (col "lien" linkonly_raw)) as Hl
    by (by repeat constructor).
  assert (urlsplit_netloc (strip "https://x.example/a") = Ok "x.example") as Hu
    by (by vm_compute).
  assert (sample_to_datetime (replicate (length (rows linkonly_raw)) CNull)
          = replicate (length (rows linkonly_raw)) None) as Hnat
    by (by vm_compute).
  split; [exact Ht|]. split; [exact Hl|]. split; [exact Hu|]. split; [exact Hnat|].
  destruct (normalize_schema_complete sample_to_datetime urlsplit_netloc
              linkonly_raw) as [Hret Hspec].
  destruct (Hret Ht Hl) as [dfn Hn].
  { intros _ s Hs _. apply list_elem_of_singleton in Hs. injection Hs as ->.
    eexists. exact Hu. }
  destruct (Hspec dfn Hn) as (Hcols & _ & Hfill & Hdate).
  exists dfn. split; [exact Hn|]. split; [exact Hcols|]. split; [|split].
  - apply (Hfill "titre"); [apply schema_titre | by vm_compute | done].
  - apply (Hfill "langue");
      [apply (bool_decide_unpack _); by vm_compute | by vm_compute | done].
  - apply Hdate; [by vm_compute | exact Hnat].
Defined.

Lemma domain_is_netloc_witness :
  normalize sample_to_datetime urlsplit_netloc scenario_raw = Ok scenario_normalized
  ∧ rows scenario_normalized !!! 0 ∈ rows scenario_normalized
  ∧ ∃ n, urlsplit_netloc "https://x.example/a" = Ok n
      ∧ (rows scenario_normalized !!! 0) !!! "domain" = CStr n.
Proof.
  split; [exact scenario_normalize|].
  assert (rows scenario_normalized !!! 0 ∈ rows scenario_normalized) as Hin
    by (apply list_elem_of_lookup_total_2; vm_compute; lia).
  split; [exact Hin|].
  destruct (domain_is_netloc sample_to_datetime urlsplit_netloc scenario_raw
              scenario_normalized _ scenario_normalize Hin) as (_ & _ & Hd).
  apply Hd; [by vm_compute|]. intros Heq. discriminate Heq.
Defined.

Lemma id_insert_raises_witness :
  df_empty scenario_raw = false
  ∧ "id" ∈ columns scenario_normalized
  ∧ run_clean sample_ratio sample_to_datetime stable_argsort urlsplit_netloc
      sample_extract true scenario_raw
    = Raise (ValueError "cannot insert id, already exists").
Proof.
  split; [by vm_compute|].
  destruct (id_insert_raises sample_ratio sample_to_datetime stable_argsort
              urlsplit_netloc sample_extract true scenario_raw eq_refl)
    as [_ Hmain].
  destruct (Hmain scenario_normalized scenario_normalize) as (Hid & _ & _ & Hrun).
  by split.
Defined.

(** C3. At the specification's end-to-end scenario the clean stage gets as
    far as the deduplicated table [B, C], whose [id] column is already
    there and null, and then raises at the id assignment: no table with
    ids 1..N is produced, with or without text extraction. *)
Theorem scenario_ids_not_assigned :
  (∃ out, dedupe sample_ratio stable_argsort 90
            (query_titre_nonempty (dropna_titre scenario_normalized)) = Ok out
      ∧ titles (rows out)
        = [CStr "AI bias in hiring tools today"; CStr "Unrelated topic"]
      ∧ has_col "id" out = true
      ∧ col "id" out = [CNull; CNull])
  ∧ run_clean sample_ratio sample_to_datetime stable_argsort urlsplit_netloc
      sample_extract false scenario_raw
    = Raise (ValueError "cannot insert id, already exists")
  ∧ run_clean sample_ratio sample_to_datetime stable_argsort urlsplit_netloc
      sample_extract true scenario_raw
    = Raise (ValueError "cannot insert id, already exists").
Proof.
  split; [|split; by vm_compute].
  eexists. split; [by vm_compute|]. by vm_compute.
Qed.

(** C2 as stated does not hold: on a non-empty table with a link that
    [urlparse] refuses, or with a [titre] column of numbers, it is
    [normalize] that raises, a [ValueError] of [urlparse] or the
    [AttributeError] of the [.str] accessor, and the stage ends there,
    before the id assignment. *)
Lemma normalize_raises_before_ids :
  df_empty bracket_raw = false
  ∧ urlsplit_netloc "http://[::1" = Raise (ValueError "Invalid IPv6 URL")
  ∧ normalize sample_to_datetime urlsplit_netloc bracket_raw
    = Raise (ValueError "Invalid IPv6 URL")
  ∧ run_clean sample_ratio sample_to_datetime stable_argsort urlsplit_netloc
      sample_extract false bracket_raw
    = Raise (ValueError "Invalid IPv6 URL")
  ∧ df_empty numbered_raw = false
  ∧ ∃ msg,
      normalize sample_to_datetime urlsplit_netloc numbered_raw
      = Raise (AttributeError msg)
      ∧ run_clean sample_ratio sample_to_datetime stable_argsort urlsplit_netloc
          sample_extract false numbered_raw
        = Raise (AttributeError msg).
Proof.
  split; [by vm_compute|]. split; [by vm_compute|]. split; [by vm_compute|].
  split; [by vm_compute|]. split; [by vm_compute|].
  eexists. split; by vm_compute.
Qed.


(** C7 as stated does not hold: a table without a [titre] column comes
    out of [normalize] with [titre] filled with the empty string, not
    null. *)
Lemma absent_title_not_null :
  has_col "titre" untitled_raw = false
  ∧ ∃ dfn, normalize sample_to_datetime urlsplit_netloc untitled_raw = Ok dfn
      ∧ col "titre" dfn = [CStr ""].
Proof.
  split; [by vm_compute|]. eexists. split; by vm_compute.
Qed.

(** C9 as stated does not hold: a link with no scheme and no host gets
    the empty string as its domain, not null. *)
Lemma hostless_domain_not_null :
  urlsplit_netloc "example.com/page" = Ok ""
  ∧ ∃ dfn, normalize sample_to_datetime urlsplit_netloc hostless_raw = Ok dfn
      ∧ col "lien" dfn = [CStr "example.com/page"]
      ∧ col "domain" dfn = [CStr ""].
Proof.
  split; [by vm_compute|]. eexists. split; [by vm_compute|]. by vm_compute.
Qed.

(** ** The further properties at concrete inputs *)

Lemma sample_to_datetime_length l :
  length (sample_to_datetime l) = length l.
Proof. apply length_fmap. Qed.

Lemma sample_to_datetime_fix l :
  sample_to_datetime (timestamp_cell <$> sample_to_datetime l)
  = sample_to_datetime l.
Proof.
  unfold sample_to_datetime. rewrite <- !list_fmap_compose.
  apply list_fmap_ext. intros i x _. simpl.
  by destruct (sample_parse_date x).
Qed.

#[local] Abbreviation scenario_deduped :=
  (frame_of (dedupe sample_ratio stable_argsort 90 scenario)).
#[local] Abbreviation sample_loaded :=
  (frame_of (load_raw sample_read_csv sample_listdir)).
#[local] Abbreviation sample_rss :=
  (harvest_rss sample_decode sample_str sample_parse_struct sample_dateparse
     sample_isoformat sample_feed).

Lemma dedupe_threshold_cap_witness :
  (98 ≤ 100)%Z
  ∧ dedupe sample_ratio stable_argsort 100 scenario
    = dedupe sample_ratio stable_argsort 98 scenario.
Proof.
  split; [lia|].
  apply (dedupe_threshold_cap sample_ratio stable_argsort 100 scenario). lia.
Defined.

Lemma dedupe_kept_pairwise_distinct_witness :
  dedupe sample_ratio stable_argsort 90 scenario = Ok scenario_deduped
  ∧ is_dup sample_ratio 90 (rows scenario_deduped !!! 0)
      (rows scenario_deduped !!! 1) = false.
Proof.
  assert (dedupe sample_ratio stable_argsort 90 scenario = Ok scenario_deduped)
    as Hd by (by vm_compute).
  split; [exact Hd|].
  apply (dedupe_kept_pairwise_distinct sample_ratio stable_argsort 90 scenario
           scenario_deduped Hd).
  vm_compute. lia.
Defined.

Lemma dedupe_missing_columns_witness :
  has_col "date_pub" untitled_raw = true
  ∧ rows untitled_raw ≠ []
  ∧ dates_comparable untitled_raw = true
  ∧ has_col "titre" untitled_raw = false
  ∧ dedupe sample_ratio stable_argsort 90 untitled_raw
    = Raise (KeyError "titre")
  ∧ normalized scenario = true
  ∧ ∃ out, dedupe sample_ratio stable_argsort 90 scenario = Ok out.
Proof.
  destruct (dedupe_missing_columns sample_ratio stable_argsort 90 untitled_raw)
    as (_ & _ & Hraise & _).
  destruct (dedupe_missing_columns sample_ratio stable_argsort 90 scenario)
    as (_ & _ & _ & _ & _ & Hret).
  split; [by vm_compute|]. split; [done|]. split; [by vm_compute|].
  split; [by vm_compute|].
  split; [apply Hraise; [by vm_compute|done|by vm_compute|by vm_compute]|].
  split; [by vm_compute|]. apply Hret. by vm_compute.
Defined.

Lemma dedupe_keeps_first_witness :
  normalized scenario = true
  ∧ rows scenario ≠ []
  ∧ ∃ out first, dedupe sample_ratio stable_argsort 90 scenario = Ok out
      ∧ rows out !! 0 = Some first
      ∧ first ∈ rows scenario
      ∧ 0 < length (rows out) ≤ length (rows scenario).
Proof.
  split; [by vm_compute|]. split; [done|].
  destruct (dedupe_keeps_first sample_ratio stable_argsort 90 scenario
              eq_refl ltac:(done))
    as (out & first & H1 & _ & H3 & H4 & _ & H6).
  exists out, first. auto.
Defined.

Lemma normalize_columns_witness :
  normalize sample_to_datetime urlsplit_netloc scenario_raw = Ok scenario_normalized
  ∧ columns scenario_normalized
    = columns scenario_raw ++ filter (λ c, c ∉ columns scenario_raw) SCHEMA
      ++ (if has_col "domain" scenario_raw then [] else ["domain"]).
Proof.
  split; [exact scenario_normalize|].
  apply (normalize_columns sample_to_datetime urlsplit_netloc scenario_raw
           scenario_normalized scenario_normalize).
Defined.

Lemma fresh_ids_dense_witness :
  ("id" ∉ columns scenario)
  ∧ ∃ out, insert 0 "id" (range_cells 1 (length (rows scenario))) scenario = Ok out
      ∧ columns out = "id" :: columns scenario
      ∧ col "id" out !! 2 = Some (CInt 3).
Proof.
  assert ("id" ∉ columns scenario) as Hno
    by (apply (bool_decide_unpack _); by vm_compute).
  split; [exact Hno|].
  destruct (fresh_ids_dense scenario Hno) as (out & H1 & H2 & _ & H4 & _).
  exists out. split; [exact H1|]. split; [exact H2|].
  apply (H4 2). vm_compute. lia.
Defined.

Lemma final_projection_witness :
  (∀ c, c ∈ SCHEMA → c ∈ columns full_frame)
  ∧ ∃ df' out,
      maybe_extract sample_extract true full_frame = Ok df'
      ∧ getitem_cols
          (SCHEMA ++ (if has_col "fulltext" df' then ["fulltext"] else [])) df'
        = Ok out
      ∧ columns out = SCHEMA ++ ["fulltext"]
      ∧ "domain" ∉ columns out.
Proof.
  assert (∀ c, c ∈ SCHEMA → c ∈ columns full_frame) as Hall
    by (intros c Hc; apply elem_of_cons; by right).
  split; [exact Hall|].
  destruct (final_projection sample_extract true full_frame) as [Hok _].
  destruct (Hok Hall) as (df' & out & H0 & H1 & H2 & _ & _ & _ & H6).
  exists df', out. split; [exact H0|]. split; [exact H1|].
  split; [exact H2|exact H6].
Defined.

Lemma load_raw_concat_witness :
  load_raw sample_read_csv sample_listdir = Ok sample_loaded
  ∧ ∃ frames,
      Forall2 (λ f fr, sample_read_csv f = Ok fr)
        (filter (λ f, endswith f ".csv" = true) sample_listdir) frames
      ∧ length (rows sample_loaded)
        = sum_list ((λ fr, length (rows fr)) <$> frames)
      ∧ col "titre" sample_loaded
        = frames ≫= (λ fr, if has_col "titre" fr then col "titre" fr
                            else replicate (length (rows fr)) CNull).
Proof.
  assert (load_raw sample_read_csv sample_listdir = Ok sample_loaded) as Hl
    by (by vm_compute).
  split; [exact Hl|].
  destruct (load_raw_concat sample_read_csv sample_listdir sample_loaded Hl)
    as (frames & H1 & _ & _ & H4 & H5).
  exists frames. split; [exact H1|]. split; [exact H4|apply H5].
Defined.

Lemma load_raw_reads_csv_only_witness :
  (∀ f, endswith f ".csv" = true → strict_read_csv f = sample_read_csv f)
  ∧ load_raw strict_read_csv sample_listdir
    = load_raw sample_read_csv sample_listdir.
Proof.
  assert (∀ f, endswith f ".csv" = true → strict_read_csv f = sample_read_csv f)
    as Hagree by (intros f Hf; unfold strict_read_csv; by rewrite Hf).
  split; [exact Hagree|].
  apply (load_raw_reads_csv_only sample_read_csv strict_read_csv sample_listdir
           Hagree).
Defined.

Lemma clean_nothing_to_do_witness :
  (∀ f, f ∈ tableless_listdir → endswith f ".csv" = true →
     ∃ fr, sample_read_csv f = Ok fr ∧ rows fr = [])
  ∧ clean_from_dir sample_ratio sample_to_datetime stable_argsort
      urlsplit_netloc sample_extract sample_read_csv tableless_listdir true
    = Ok None.
Proof.
  assert (∀ f, f ∈ tableless_listdir → endswith f ".csv" = true →
            ∃ fr, sample_read_csv f = Ok fr ∧ rows fr = []) as Hall.
  { intros f Hf Hcsv. unfold tableless_listdir in Hf.
    rewrite !elem_of_cons in Hf.
    destruct Hf as [->|[->|Hf]];
      [vm_compute in Hcsv; discriminate Hcsv..|by apply elem_of_nil in Hf]. }
  split; [exact Hall|].
  apply (clean_nothing_to_do sample_ratio sample_to_datetime stable_argsort
           urlsplit_netloc sample_extract sample_read_csv tableless_listdir
           true Hall).
Defined.

Lemma clean_text_first_key_witness :
  TEXT_KEYS = [] ++ "title" :: ["value"; "label"; "name"; "text"]
  ∧ py_truthy (get_or_getattr sample_source "title") = true
  ∧ clean_text sample_decode sample_str sample_source
    = Some (clean_str " Le <b>Monde</b> ")
  ∧ clean_str " Le <b>Monde</b> " = "Le Monde".
Proof.
  split; [done|]. split; [done|]. split; [|by vm_compute].
  destruct (clean_text_first_key sample_decode sample_str sample_source)
    as (_ & Hkey & _).
  apply (Hkey [] "title" ["value"; "label"; "name"; "text"]);
    [done|constructor|done].
Defined.

Lemma harvest_rss_window_witness :
  sample_rss ["https://x.example/rss"] sample_since sample_until
  = Returns (returned (sample_rss ["https://x.example/rss"] sample_since
                         sample_until))
  ∧ length (returned (sample_rss ["https://x.example/rss"] sample_since
                        sample_until)) = 2
  ∧ ∀ r, r ∈ returned (sample_rss ["https://x.example/rss"] sample_since
                         sample_until) →
      assoc "date_pub" r = Some PNone
      ∨ ∃ d, (micros sample_since ≤ micros d ≤ micros sample_until)%Z
             ∧ assoc "date_pub" r = Some (PStr (sample_isoformat d)).
Proof.
  assert (sample_rss ["https://x.example/rss"] sample_since sample_until
          = Returns (returned (sample_rss ["https://x.example/rss"] sample_since
                                 sample_until))) as Hr by (by vm_compute).
  split; [exact Hr|]. split; [by vm_compute|].
  destruct (harvest_rss_window sample_decode sample_str sample_parse_struct
              sample_dateparse sample_isoformat sample_feed
              ["https://x.example/rss"] sample_since sample_until _ Hr)
    as (_ & _ & Hrows).
  intros r Hin. by destruct (Hrows r Hin) as [? _].
Defined.

Lemma harvest_rss_type_error_witness :
  zoned_entry ∈ ["https://z.example/rss"] ≫= sample_feed
  ∧ entry_date sample_parse_struct sample_dateparse zoned_entry
    = Some {| micros := 20240301; tz_aware := true |}
  ∧ tz_aware {| micros := 20240301; tz_aware := true |} ≠ tz_aware sample_since
  ∧ sample_rss ["https://z.example/rss"] sample_since sample_until
    = Throws (PyTypeError
                "can't compare offset-naive and offset-aware datetimes").
Proof.
  assert (zoned_entry ∈ ["https://z.example/rss"] ≫= sample_feed) as Hin
    by (apply list_elem_of_singleton; reflexivity).
  assert (entry_date sample_parse_struct sample_dateparse zoned_entry
          = Some {| micros := 20240301; tz_aware := true |}) as Hd
    by (by vm_compute).
  split; [exact Hin|]. split; [exact Hd|]. split; [done|].
  apply (harvest_rss_type_error sample_decode sample_str sample_parse_struct
           sample_dateparse sample_isoformat sample_feed
           ["https://z.example/rss"] sample_since sample_until zoned_entry _
           Hin Hd).
  done.
Defined.

Lemma gdelt_windows_months_witness :
  valid_date sample_since_date = true
  ∧ valid_date sample_until_date = true
  ∧ gdelt_windows 5 sample_since_date sample_until_date
    = Some (Returns [({| year := 2024; month := 1; day := 1 |},
                      {| year := 2024; month := 1; day := 31 |});
                     ({| year := 2024; month := 2; day := 1 |},
                      {| year := 2024; month := 2; day := 29 |});
                     ({| year := 2024; month := 3; day := 1 |},
                      {| year := 2024; month := 3; day := 10 |})]).
Proof.
  split; [done|]. split; [done|].
  destruct (gdelt_windows_months 5 sample_since_date sample_until_date
              eq_refl eq_refl)
    as (ws & H1 & H2 & _).
  - left. vm_compute. reflexivity.
  - vm_compute. lia.
  - rewrite H1, H2. by vm_compute.
Defined.

Lemma openalex_null_source_witness :
  dict_get sourceless_work "primary_location" PNone
  = Returns (PDict [("source", PNone)])
  ∧ assoc "source" [("source", PNone)] = Some PNone
  ∧ ∃ e, openalex_row sourceless_work = Throws e.
Proof.
  split; [done|]. split; [done|].
  apply (openalex_null_source sourceless_work [("source", PNone)]); done.
Defined.

Lemma openalex_row_fields_witness :
  openalex_row sample_work = Returns (returned (openalex_row sample_work))
  ∧ ∃ items home name,
      sample_work = PDict items
      ∧ source_field sample_work "homepage_url" = Returns home
      ∧ assoc "lien" (returned (openalex_row sample_work))
        = Some (py_or (py_or (default PNone (assoc "doi" items)) home)
                  (default PNone (assoc "id" items)))
      ∧ assoc "source_name" (returned (openalex_row sample_work)) = Some name.
Proof.
  assert (openalex_row sample_work
          = Returns (returned (openalex_row sample_work))) as Hr
    by (by vm_compute).
  split; [exact Hr|].
  destruct (openalex_row_fields sample_work _ Hr)
    as (items & home & name & Hw & Hhome & _ & Hlien & _ & Hname & _).
  exists items, home, name. split; [exact Hw|].
  split; [|split; [exact Hlien|exact Hname]].
  apply Hhome. injection Hw as <-. done.
Defined.

Lemma normalize_idempotent_witness :
  (∀ l, length (sample_to_datetime l) = length l)
  ∧ (∀ l, sample_to_datetime (timestamp_cell <$> sample_to_datetime l)
          = sample_to_datetime l)
  ∧ Forall (λ x, textual x = true) (col "titre" scenario_raw)
  ∧ Forall (λ x, textual x = true) (col "lien" scenario_raw)
  ∧ normalize sample_to_datetime urlsplit_netloc scenario_raw
    = Ok scenario_normalized
  ∧ normalize sample_to_datetime urlsplit_netloc scenario_normalized
    = Ok scenario_normalized.
Proof.
  assert (Forall (λ x, textual x = true) (col "titre" scenario_raw)) as Ht
    by (apply (bool_decide_unpack _); by vm_compute).
  assert (Forall (λ x, textual x = true) (col "lien" scenario_raw)) as Hl
    by (apply (bool_decide_unpack _); by vm_compute).
  split; [exact sample_to_datetime_length|].
  split; [exact sample_to_datetime_fix|].
  split; [exact Ht|]. split; [exact Hl|]. split; [exact scenario_normalize|].
  apply (normalize_idempotent sample_to_datetime urlsplit_netloc scenario_raw
           scenario_normalized sample_to_datetime_length
           sample_to_datetime_fix Ht Hl scenario_normalize).
Defined.

Lemma dedupe_output_sorted_witness :
  dedupe sample_ratio stable_argsort 90 scenario = Ok scenario_deduped
  ∧ StronglySorted sorts_before (rows scenario_deduped).
Proof.
  assert (dedupe sample_ratio stable_argsort 90 scenario = Ok scenario_deduped)
    as Hd by (by vm_compute).
  split; [exact Hd|].
  apply (dedupe_output_sorted sample_ratio stable_argsort 90 scenario
           scenario_deduped Hd).
Defined.
